(** * The epoll event demultiplexer of libglusterfs (event-epoll.c)

    A shallow embedding of the slot table, the registration API, the
    dispatch step and the thread reconfiguration of
    [libglusterfs/src/event-epoll.c], and the properties of the design
    document that can be settled on it.

    Conventions of the embedding.
    - A C [int] is a [Z]; arithmetic that can leave the range of [int]
      is passed through [wrap_int] (two's complement, 32 bits), the
      64-bit atomic counter through [wrap_int64].
    - A pointer to a slot is the position of the slot in the two-level
      table, [(table index, offset)].  A NULL table is [None].
    - The C code checks no index.  A read below or past [ereg], or below
      or past a bucket, ends the run of the model ([BadAccess]); it is
      never taken for a slot that is not found.
    - The pool and slot mutexes are not modelled: every function below is
      one sequential run of its C counterpart.  The block a function runs
      between LOCK and UNLOCK of a slot is a definition of its own.
    - System calls, callbacks and log messages are outputs, collected in
      order in a list of [io]; what the environment answers (the result
      of [epoll_ctl], of an allocation, of a thread creation) is an
      argument of the function that asks.
    - The pool pointer handed to the API is valid: the NULL branch of
      GF_VALIDATE_OR_GOTO touches no state and is left out. *)

From Stdlib Require Import ZArith Lia Bool.
From stdpp Require Import base option list.

Open Scope Z_scope.

(** ** Machine integers *)

Definition INT_MIN : Z := -2147483648.
Definition INT_MAX : Z := 2147483647.
Definition INT64_MIN : Z := -9223372036854775808.
Definition INT64_MAX : Z := 9223372036854775807.

Definition wrap_int (z : Z) : Z := (z - INT_MIN) mod 2 ^ 32 + INT_MIN.
Definition wrap_int64 (z : Z) : Z := (z - INT64_MIN) mod 2 ^ 64 + INT64_MIN.

Definition int_range (z : Z) : Prop := INT_MIN <= z <= INT_MAX.
Definition int64_range (z : Z) : Prop := INT64_MIN <= z <= INT64_MAX.

(** ** Constants of <sys/epoll.h> (Linux values) *)

Definition EPOLLIN : Z := 1.
Definition EPOLLPRI : Z := 2.
Definition EPOLLOUT : Z := 4.
Definition EPOLLERR : Z := 8.
Definition EPOLLHUP : Z := 16.
Definition EPOLLONESHOT : Z := 2 ^ 30.

(** ** Constants of glusterfs/gf-event.h

    The header is not part of the sources at hand; its three constants
    are parameters of the development. *)

Class event_config := EventConfig {
  EVENT_EPOLL_TABLES : Z;
  EVENT_EPOLL_SLOTS : Z;
  EVENT_MAX_THREADS : Z
}.

(** What the code silently relies on: at least one bucket, one slot per
    bucket and one thread, and handles that fit an [int]. *)
Record config_ok (cfg : event_config) : Prop := ConfigOk {
  tables_pos : 0 < EVENT_EPOLL_TABLES;
  slots_pos : 0 < EVENT_EPOLL_SLOTS;
  handles_fit : EVENT_EPOLL_TABLES * EVENT_EPOLL_SLOTS <= INT_MAX;
  threads_pos : 0 < EVENT_MAX_THREADS
}.

(** ** Outputs *)

Inductive epoll_op := EPOLL_CTL_ADD | EPOLL_CTL_MOD | EPOLL_CTL_DEL.

(** [struct epoll_event] with its data seen as [struct event_data]. *)
Record epoll_event := EpollEvent {
  ev_events : Z;
  ev_idx : Z;
  ev_gen : Z
}.

Inductive log_msg :=
| LG_MSG_SLOT_NOT_FOUND
| LG_MSG_INVALID_POLL_IN (value : Z)
| LG_MSG_INVALID_POLL_OUT (value : Z)
| LG_MSG_EPOLL_FD_CREATE_FAILED
| LG_MSG_EPOLL_FD_ADD_FAILED
| LG_MSG_EPOLL_FD_DEL_FAILED
| LG_MSG_EPOLL_FD_MODIFY_FAILED
| LG_MSG_STALE_FD_FOUND
| LG_MSG_GENERATION_MISMATCH
| LG_MSG_START_EPOLL_THREAD_FAILED (index : Z)
| gf_msg_debug_generation_bumped.

(** The arguments of one call of an [event_handler_t]. *)
Record handler_call := HandlerCall {
  hc_handler : Z;
  hc_fd : Z;
  hc_idx : Z;
  hc_gen : Z;
  hc_data : Z;
  hc_poll_in : Z;
  hc_poll_out : Z;
  hc_poll_err : Z;
  hc_event_thread_died : Z
}.

Inductive io :=
| Epoll_ctl (epfd : Z) (op : epoll_op) (fd : Z) (ev : option epoll_event)
| Sys_close (fd : Z)
| Handler (c : handler_call)
| Thread_create (event_index : Z)
| Log (m : log_msg).

(** How a run of a C function ends: it returns, an [assert] fails, or it
    reads through a NULL table or outside an array. *)
Inductive outcome (A : Type) :=
| Returns (a : A)
| AssertFails
| BadAccess.
Arguments Returns {A} a.
Arguments AssertFails {A}.
Arguments BadAccess {A}.

(** ** struct event_slot_epoll *)

Record event_slot_epoll := Slot {
  slots_used : Z;
  fd : Z;
  events : Z;
  gen : Z;
  idx : Z;
  ref : Z;
  do_close : Z;
  in_handler : Z;
  handled_error : Z;
  data : Z;
  handler : Z;
  lock : bool
}.

(** The list link [poller_death] of a slot is kept on the side of the
    pool, as the list of the positions that are linked. *)

Definition set_slots_used (v : Z) (s : event_slot_epoll) :=
  Slot v (fd s) (events s) (gen s) (idx s) (ref s) (do_close s)
       (in_handler s) (handled_error s) (data s) (handler s) (lock s).
Definition set_fd (v : Z) (s : event_slot_epoll) :=
  Slot (slots_used s) v (events s) (gen s) (idx s) (ref s) (do_close s)
       (in_handler s) (handled_error s) (data s) (handler s) (lock s).
Definition set_events (v : Z) (s : event_slot_epoll) :=
  Slot (slots_used s) (fd s) v (gen s) (idx s) (ref s) (do_close s)
       (in_handler s) (handled_error s) (data s) (handler s) (lock s).
Definition set_gen (v : Z) (s : event_slot_epoll) :=
  Slot (slots_used s) (fd s) (events s) v (idx s) (ref s) (do_close s)
       (in_handler s) (handled_error s) (data s) (handler s) (lock s).
Definition set_idx (v : Z) (s : event_slot_epoll) :=
  Slot (slots_used s) (fd s) (events s) (gen s) v (ref s) (do_close s)
       (in_handler s) (handled_error s) (data s) (handler s) (lock s).
Definition set_ref (v : Z) (s : event_slot_epoll) :=
  Slot (slots_used s) (fd s) (events s) (gen s) (idx s) v (do_close s)
       (in_handler s) (handled_error s) (data s) (handler s) (lock s).
Definition set_do_close (v : Z) (s : event_slot_epoll) :=
  Slot (slots_used s) (fd s) (events s) (gen s) (idx s) (ref s) v
       (in_handler s) (handled_error s) (data s) (handler s) (lock s).
Definition set_in_handler (v : Z) (s : event_slot_epoll) :=
  Slot (slots_used s) (fd s) (events s) (gen s) (idx s) (ref s) (do_close s)
       v (handled_error s) (data s) (handler s) (lock s).
Definition set_handled_error (v : Z) (s : event_slot_epoll) :=
  Slot (slots_used s) (fd s) (events s) (gen s) (idx s) (ref s) (do_close s)
       (in_handler s) v (data s) (handler s) (lock s).
Definition set_data (v : Z) (s : event_slot_epoll) :=
  Slot (slots_used s) (fd s) (events s) (gen s) (idx s) (ref s) (do_close s)
       (in_handler s) (handled_error s) v (handler s) (lock s).
Definition set_handler (v : Z) (s : event_slot_epoll) :=
  Slot (slots_used s) (fd s) (events s) (gen s) (idx s) (ref s) (do_close s)
       (in_handler s) (handled_error s) (data s) v (lock s).
Definition set_lock (v : bool) (s : event_slot_epoll) :=
  Slot (slots_used s) (fd s) (events s) (gen s) (idx s) (ref s) (do_close s)
       (in_handler s) (handled_error s) (data s) (handler s) v.

(** What [memset (&slot, 0, sizeof (slot))] and GF_CALLOC leave. *)
Definition zero_slot : event_slot_epoll :=
  Slot 0 0 0 0 0 0 0 0 0 0 0 false.

(** ** struct event_pool (the fields this file uses) *)

Definition slot_ptr : Type := nat * nat.

Record event_pool := Pool {
  ereg : list (option (list event_slot_epoll));
  pool_fd : Z;
  count : Z;
  eventthreadcount : Z;
  activethreadcount : Z;
  auto_thread_count : Z;
  destroy : Z;
  pollers : list Z;
  poller_death : list slot_ptr;
  poller_gen : Z;
  poller_death_sliced : Z
}.

Definition set_ereg (v : list (option (list event_slot_epoll))) (p : event_pool) :=
  Pool v (pool_fd p) (count p) (eventthreadcount p) (activethreadcount p)
       (auto_thread_count p) (destroy p) (pollers p) (poller_death p)
       (poller_gen p) (poller_death_sliced p).
Definition set_eventthreadcount (v : Z) (p : event_pool) :=
  Pool (ereg p) (pool_fd p) (count p) v (activethreadcount p)
       (auto_thread_count p) (destroy p) (pollers p) (poller_death p)
       (poller_gen p) (poller_death_sliced p).
Definition set_pollers (v : list Z) (p : event_pool) :=
  Pool (ereg p) (pool_fd p) (count p) (eventthreadcount p) (activethreadcount p)
       (auto_thread_count p) (destroy p) v (poller_death p)
       (poller_gen p) (poller_death_sliced p).
Definition set_poller_death (v : list slot_ptr) (p : event_pool) :=
  Pool (ereg p) (pool_fd p) (count p) (eventthreadcount p) (activethreadcount p)
       (auto_thread_count p) (destroy p) (pollers p) v
       (poller_gen p) (poller_death_sliced p).

(** [table[offset]] for [table = ereg[table_idx]]. *)
Definition slot_at (p : event_pool) (l : slot_ptr) : option event_slot_epoll :=
  match ereg p !! l.1 with
  | Some (Some table) => table !! l.2
  | _ => None
  end.

(** An assignment through a slot pointer. *)
Definition slot_upd (f : event_slot_epoll → event_slot_epoll) (l : slot_ptr)
    (p : event_pool) : event_pool :=
  set_ereg (alter (fmap (alter f l.2)) l.1 (ereg p)) p.

Section EventEpoll.

Context {cfg : event_config}.

(** The slot a handle denotes, by [idx / EVENT_EPOLL_SLOTS] and
    [idx % EVENT_EPOLL_SLOTS]: the position the statements below name a
    handle by.  A negative handle denotes no slot; what the code does
    with one is said by the functions themselves. *)
Definition slot_of_idx (idx : Z) : option slot_ptr :=
  let table_idx := Z.quot idx EVENT_EPOLL_SLOTS in
  let offset := Z.rem idx EVENT_EPOLL_SLOTS in
  if (0 <=? table_idx) && (0 <=? offset)
  then Some (Z.to_nat table_idx, Z.to_nat offset)
  else None.

(** The table [__event_newtable] builds: zeroed slots with [fd = -1]. *)
Definition free_table : list event_slot_epoll :=
  replicate (Z.to_nat EVENT_EPOLL_SLOTS) (set_fd (-1) zero_slot).

(** [__event_newtable], when GF_CALLOC succeeds. *)
Definition __event_newtable (p : event_pool) (table_idx : nat) : event_pool :=
  set_ereg (<[table_idx := Some free_table]> (ereg p)) p.

Definition event_slot_ref (slot : slot_ptr) (p : event_pool) : event_pool :=
  slot_upd (λ s, set_ref (wrap_int64 (ref s + 1)) s) slot p.

(** The body of the [for (j ...)] loop of [__event_slot_alloc] once a free
    slot [table[j]] is found, with the [return] that follows it. *)
Definition slot_claim (p : event_pool) (table_idx j : nat) (old : event_slot_epoll)
    (fd_ notify_poller_death : Z) : Z * option slot_ptr * event_pool :=
  let here := (table_idx, j) in
  let handle := wrap_int (Z.of_nat table_idx * EVENT_EPOLL_SLOTS + Z.of_nat j) in
  let fresh :=
    set_lock true (set_gen (wrap_int (gen old + 1)) (set_fd fd_ zero_slot)) in
  let p1 := slot_upd (λ _, fresh) here p in
  let p2 :=
    if notify_poller_death =? 0 then p1
    else set_poller_death (poller_death p1 ++ [here])
                          (slot_upd (set_idx handle) here p1) in
  let p3 :=
    slot_upd (λ t0, set_slots_used (wrap_int (slots_used t0 + 1)) t0)
             (table_idx, 0%nat) p2 in
  (handle, Some here, event_slot_ref here p3).

(** [__event_slot_alloc].  [i] is the C variable of that name and
    [rest] the number of buckets from [i] on, so that [rest = 0] is
    [i == EVENT_EPOLL_TABLES]; the recursive call is [goto retry].
    [calloc_ok] tells whether GF_CALLOC would succeed.  The search for
    [fd == -1] runs over the bucket, which has EVENT_EPOLL_SLOTS slots. *)
Fixpoint __event_slot_alloc_from (rest : nat) (i : nat) (p : event_pool)
    (fd_ notify_poller_death : Z) (calloc_ok : bool)
    : outcome (Z * option slot_ptr * event_pool) :=
  match rest with
  | O =>
      (* the while loop is skipped, table is NULL and table[0].fd is read *)
      BadAccess
  | S rest' =>
      let scan (p' : event_pool) (table : list event_slot_epoll) :=
        match list_find (λ s, fd s = -1) table with
        | Some (j, old) =>
            Returns (slot_claim p' i j old fd_ notify_poller_death)
        | None =>
            __event_slot_alloc_from rest' (S i) p' fd_ notify_poller_death calloc_ok
        end in
      match ereg p !! i with
      | Some (Some table) =>
          match table !! 0%nat with
          | Some t0 =>
              if slots_used t0 =? EVENT_EPOLL_SLOTS
              then Returns (-1, None, p)
              else scan p table
          | None => BadAccess
          end
      | _ =>
          if calloc_ok
          then
            let p' := __event_newtable p i in
            match ereg p' !! i with
            | Some (Some table) => scan p' table
            | _ => BadAccess
            end
          else Returns (-1, None, p)
      end
  end.

Definition __event_slot_alloc (p : event_pool) (fd_ notify_poller_death : Z)
    (calloc_ok : bool) : outcome (Z * option slot_ptr * event_pool) :=
  __event_slot_alloc_from (Z.to_nat EVENT_EPOLL_TABLES) 0 p fd_
                          notify_poller_death calloc_ok.

(** What [__event_slot_dealloc] writes to the slot itself. *)
Definition dealloc_slot (s : event_slot_epoll) : event_slot_epoll :=
  set_lock false (set_in_handler 0 (set_handled_error 0
    (set_fd (-1) (set_gen (wrap_int (gen s + 1)) s)))).

(** [__event_slot_dealloc (table, offset)] for [table = ereg[table_idx]]. *)
Definition __event_slot_dealloc (p : event_pool) (table_idx offset : nat) : event_pool :=
  let here := (table_idx, offset) in
  match slot_at p here with
  | None => p
  | Some slot =>
      let fd_ := fd slot in
      let p1 := slot_upd dealloc_slot here p in
      let p2 := set_poller_death (filter (λ l, l ≠ here) (poller_death p1)) p1 in
      if fd_ =? -1 then p2
      else slot_upd (λ t0, set_slots_used (wrap_int (slots_used t0 - 1)) t0)
                    (table_idx, 0%nat) p2
  end.

(** [event_slot_dealloc].  [ereg[table_idx]] is read first, and the run
    returns when it is NULL; [table[offset]] is accessed after. *)
Definition event_slot_dealloc (p : event_pool) (idx_ : Z) : outcome event_pool :=
  let table_idx := Z.quot idx_ EVENT_EPOLL_SLOTS in
  if table_idx <? 0 then BadAccess
  else
    match ereg p !! Z.to_nat table_idx with
    | None => BadAccess
    | Some None => Returns p
    | Some (Some table) =>
        let offset := Z.rem idx_ EVENT_EPOLL_SLOTS in
        if offset <? 0 then BadAccess
        else
          match table !! Z.to_nat offset with
          | None => BadAccess
          | Some _ =>
              Returns (__event_slot_dealloc p (Z.to_nat table_idx) (Z.to_nat offset))
          end
    end.

(** [event_slot_get]: the slot pointer and the pool with the reference
    taken, or [None] for the NULL result, which is that of a NULL
    bucket.  No index is checked: a handle whose table index or offset is
    negative or past the end makes the code read outside [ereg] or
    outside the bucket. *)
Definition event_slot_get (p : event_pool) (idx_ : Z)
    : outcome (option (slot_ptr * event_pool)) :=
  let table_idx := Z.quot idx_ EVENT_EPOLL_SLOTS in
  let offset := Z.rem idx_ EVENT_EPOLL_SLOTS in
  if table_idx <? 0 then BadAccess
  else
    match ereg p !! Z.to_nat table_idx with
    | None => BadAccess
    | Some None => Returns None
    | Some (Some table) =>
        if offset <? 0 then BadAccess
        else
          match table !! Z.to_nat offset with
          | None => BadAccess
          | Some _ =>
              let slot := (Z.to_nat table_idx, Z.to_nat offset) in
              Returns (Some (slot, event_slot_ref slot p))
          end
    end.

Definition event_slot_unref (p : event_pool) (slot : slot_ptr) (idx_ : Z)
    : outcome (event_pool * list io) :=
  match slot_at p slot with
  | None => BadAccess
  | Some s =>
      let ref_ := wrap_int64 (ref s - 1) in
      let p1 := slot_upd (set_ref ref_) slot p in
      if ref_ =? 0 then
        let fd_ := fd s in
        let do_close_ := do_close s in
        let p2 := slot_upd (set_do_close 0) slot p1 in
        match event_slot_dealloc p2 idx_ with
        | Returns p3 => Returns (p3, if do_close_ =? 0 then [] else [Sys_close fd_])
        | AssertFails => AssertFails
        | BadAccess => BadAccess
        end
      else Returns (p1, [])
  end.

(** ** Pool construction

    [pool_calloc_ok] and [table_calloc_ok] tell whether the two GF_CALLOC
    succeed, [epfd] is what [epoll_create] returns. *)
Definition event_pool_new_epoll (count_ eventthreadcount_ : Z)
    (pool_calloc_ok : bool) (epfd : Z) (table_calloc_ok : bool)
    : option event_pool * list io :=
  if negb pool_calloc_ok then (None, [])
  else if epfd <? 0 then (None, [Log LG_MSG_EPOLL_FD_CREATE_FAILED])
  else if negb table_calloc_ok then (None, [Log LG_MSG_EPOLL_FD_CREATE_FAILED])
  else
    let zeroed :=
      Pool (replicate (Z.to_nat EVENT_EPOLL_TABLES) None) 0 0 0 0 0 0
           (replicate (Z.to_nat EVENT_MAX_THREADS) 0) [] 0 0 in
    let p := __event_newtable zeroed 0 in
    (Some (Pool (ereg p) epfd count_ eventthreadcount_ 0 0 0 (pollers p) [] 0 0), []).

(** ** The registration API *)

Definition __slot_update_events (slot : event_slot_epoll) (poll_in poll_out : Z)
    : event_slot_epoll * list io :=
  let '(slot1, log1) :=
    if poll_in =? 1 then (set_events (Z.lor (events slot) EPOLLIN) slot, [])
    else if poll_in =? 0
    then (set_events (Z.land (events slot) (Z.lnot EPOLLIN)) slot, [])
    else if poll_in =? -1 then (slot, [])
    else (slot, [Log (LG_MSG_INVALID_POLL_IN poll_in)]) in
  let '(slot2, log2) :=
    if poll_out =? 1 then (set_events (Z.lor (events slot1) EPOLLOUT) slot1, [])
    else if poll_out =? 0
    then (set_events (Z.land (events slot1) (Z.lnot EPOLLOUT)) slot1, [])
    else if poll_out =? -1 then (slot1, [])
    else (slot1, [Log (LG_MSG_INVALID_POLL_OUT poll_out)]) in
  (slot2, log1 ++ log2).

(** The block of [event_register_epoll] under the slot lock: the slot as
    it is left and the outputs, the last of which is the [epoll_ctl]. *)
Definition event_register_epoll_locked (epfd : Z) (slot : event_slot_epoll)
    (fd_ idx_ handler_ data_ poll_in poll_out : Z)
    : event_slot_epoll * list io :=
  let slot1 :=
    set_data data_ (set_handler handler_
      (set_events (Z.lor (Z.lor (Z.lor EPOLLPRI EPOLLHUP) EPOLLERR) EPOLLONESHOT)
                  slot)) in
  let '(slot2, logs) := __slot_update_events slot1 poll_in poll_out in
  (slot2,
   logs ++ [Epoll_ctl epfd EPOLL_CTL_ADD fd_
                      (Some (EpollEvent (events slot2) idx_ (gen slot2)))]).

Definition event_register_epoll (p : event_pool)
    (fd_ handler_ data_ poll_in poll_out notify_poller_death : Z)
    (calloc_ok : bool) (epoll_ctl_ret : Z) : outcome (Z * event_pool * list io) :=
  if destroy p =? 1 then Returns (-1, p, [])
  else
    match __event_slot_alloc p fd_ notify_poller_death calloc_ok with
    | Returns (idx_, Some slot, p1) =>
        if idx_ <? 0 then Returns (-1, p1, [Log LG_MSG_SLOT_NOT_FOUND])
        else
          match slot_at p1 slot with
          | None => BadAccess
          | Some s =>
              if negb (fd s =? fd_) then AssertFails
              else
                let '(s1, tr) :=
                  event_register_epoll_locked (pool_fd p1) s fd_ idx_ handler_
                                              data_ poll_in poll_out in
                let p2 := slot_upd (λ _, s1) slot p1 in
                if epoll_ctl_ret =? -1 then
                  match event_slot_unref p2 slot idx_ with
                  | Returns (p3, tr') =>
                      Returns (-1, p3, tr ++ [Log LG_MSG_EPOLL_FD_ADD_FAILED] ++ tr')
                  | AssertFails => AssertFails
                  | BadAccess => BadAccess
                  end
                else Returns (idx_, p2, tr)
          end
    | Returns (idx_, None, p1) =>
        if idx_ <? 0 then Returns (-1, p1, [Log LG_MSG_SLOT_NOT_FOUND])
        else BadAccess
    | AssertFails => AssertFails
    | BadAccess => BadAccess
    end.

(** The block of [event_unregister_epoll_common] under the slot lock. *)
Definition event_unregister_epoll_locked (epfd : Z) (slot : event_slot_epoll)
    (fd_ do_close_ : Z) (epoll_ctl_ret : Z) : event_slot_epoll * list io :=
  let ctl := Epoll_ctl epfd EPOLL_CTL_DEL fd_ None in
  if epoll_ctl_ret =? -1 then (slot, [ctl; Log LG_MSG_EPOLL_FD_DEL_FAILED])
  else (set_gen (wrap_int (gen slot + 1)) (set_do_close do_close_ slot), [ctl]).

Definition event_unregister_epoll_common (p : event_pool) (fd_ idx_ do_close_ : Z)
    (epoll_ctl_ret : Z) : outcome (Z * event_pool * list io) :=
  if idx_ <? 0 then Returns (-1, p, [])
  else
    match event_slot_get p idx_ with
    | Returns None => Returns (-1, p, [Log LG_MSG_SLOT_NOT_FOUND])
    | Returns (Some (slot, p1)) =>
        match slot_at p1 slot with
        | None => BadAccess
        | Some s =>
            if negb (fd s =? fd_) then AssertFails
            else
              let '(s1, tr) :=
                event_unregister_epoll_locked (pool_fd p1) s fd_ do_close_
                                              epoll_ctl_ret in
              let p2 := slot_upd (λ _, s1) slot p1 in
              match event_slot_unref p2 slot idx_ with
              | Returns (p3, tr1) =>
                  match event_slot_unref p3 slot idx_ with
                  | Returns (p4, tr2) => Returns (epoll_ctl_ret, p4, tr ++ tr1 ++ tr2)
                  | AssertFails => AssertFails
                  | BadAccess => BadAccess
                  end
              | AssertFails => AssertFails
              | BadAccess => BadAccess
              end
        end
    | AssertFails => AssertFails
    | BadAccess => BadAccess
    end.

Definition event_unregister_epoll (p : event_pool) (fd_ idx_hint : Z)
    (epoll_ctl_ret : Z) : outcome (Z * event_pool * list io) :=
  event_unregister_epoll_common p fd_ idx_hint 0 epoll_ctl_ret.

Definition event_unregister_close_epoll (p : event_pool) (fd_ idx_hint : Z)
    (epoll_ctl_ret : Z) : outcome (Z * event_pool * list io) :=
  event_unregister_epoll_common p fd_ idx_hint 1 epoll_ctl_ret.

(** The block of [event_select_on_epoll] under the slot lock. *)
Definition event_select_on_epoll_locked (epfd : Z) (slot : event_slot_epoll)
    (fd_ idx_ poll_in poll_out : Z) (epoll_ctl_ret : Z)
    : event_slot_epoll * list io :=
  let '(slot1, logs) := __slot_update_events slot poll_in poll_out in
  let ev := EpollEvent (events slot1) idx_ (gen slot1) in
  if in_handler slot1 =? 0 then
    (slot1,
     logs ++ [Epoll_ctl epfd EPOLL_CTL_MOD fd_ (Some ev)]
          ++ (if epoll_ctl_ret =? -1 then [Log LG_MSG_EPOLL_FD_MODIFY_FAILED]
              else []))
  else (slot1, logs).

Definition event_select_on_epoll (p : event_pool) (fd_ idx_ poll_in poll_out : Z)
    (epoll_ctl_ret : Z) : outcome (Z * event_pool * list io) :=
  match event_slot_get p idx_ with
  | Returns None => Returns (-1, p, [Log LG_MSG_SLOT_NOT_FOUND])
  | Returns (Some (slot, p1)) =>
      match slot_at p1 slot with
      | None => BadAccess
      | Some s =>
          if negb (fd s =? fd_) then AssertFails
          else
            let '(s1, tr) :=
              event_select_on_epoll_locked (pool_fd p1) s fd_ idx_ poll_in
                                           poll_out epoll_ctl_ret in
            let p2 := slot_upd (λ _, s1) slot p1 in
            match event_slot_unref p2 slot idx_ with
            | Returns (p3, tr') => Returns (idx_, p3, tr ++ tr')
            | AssertFails => AssertFails
            | BadAccess => BadAccess
            end
      end
  | AssertFails => AssertFails
  | BadAccess => BadAccess
  end.

(** ** Dispatch of one delivered event *)

(** The block of [event_dispatch_epoll_handler] under the slot lock: the
    slot as it is left, the local [handler] (0 is NULL), the local
    [handled_error_previously], and what is logged. *)
Definition event_dispatch_epoll_handler_locked (slot : event_slot_epoll)
    (event : epoll_event) : event_slot_epoll * Z * bool * list io :=
  if fd slot =? -1 then (slot, 0, false, [Log LG_MSG_STALE_FD_FOUND])
  else if negb (ev_gen event =? gen slot)
  then (slot, 0, false, [Log LG_MSG_GENERATION_MISMATCH])
  else if in_handler slot >? 0 then (slot, 0, false, [])
  else if negb (handled_error slot =? 0) then (slot, handler slot, true, [])
  else
    (set_in_handler (wrap_int (in_handler slot + 1))
       (set_handled_error (Z.land (ev_events event) (Z.lor EPOLLERR EPOLLHUP))
                          slot),
     handler slot, false, []).

(** The call made after UNLOCK, if any. *)
Definition event_dispatch_epoll_handler_call (slot : event_slot_epoll)
    (event : epoll_event) (handler_ : Z) (handled_error_previously : bool)
    : option handler_call :=
  if handler_ =? 0 then None
  else if handled_error_previously then None
  else
    Some (HandlerCall handler_ (fd slot) (ev_idx event) (ev_gen event) (data slot)
            (Z.land (ev_events event) (Z.lor EPOLLIN EPOLLPRI))
            (Z.land (ev_events event) EPOLLOUT)
            (Z.land (ev_events event) (Z.lor EPOLLERR EPOLLHUP))
            0).

Definition event_dispatch_epoll_handler (p : event_pool) (event : epoll_event)
    : outcome (Z * event_pool * list io) :=
  let idx_ := ev_idx event in
  match event_slot_get p idx_ with
  | Returns None => Returns (-1, p, [Log LG_MSG_SLOT_NOT_FOUND])
  | Returns (Some (slot, p1)) =>
      match slot_at p1 slot with
      | None => BadAccess
      | Some s =>
          let '(s1, handler_, previously, logs) :=
            event_dispatch_epoll_handler_locked s event in
          let p2 := slot_upd (λ _, s1) slot p1 in
          let call :=
            match event_dispatch_epoll_handler_call s event handler_ previously with
            | Some c => [Handler c]
            | None => []
            end in
          match event_slot_unref p2 slot idx_ with
          | Returns (p3, tr) => Returns (0, p3, logs ++ call ++ tr)
          | AssertFails => AssertFails
          | BadAccess => BadAccess
          end
      end
  | AssertFails => AssertFails
  | BadAccess => BadAccess
  end.

(** ** Completion of a handler *)

(** The block of [event_handled_epoll] under the slot lock, with the
    value left in [ret]. *)
Definition event_handled_epoll_locked (epfd : Z) (slot : event_slot_epoll)
    (fd_ idx_ gen_ : Z) (epoll_ctl_ret : Z) : event_slot_epoll * Z * list io :=
  let slot1 := set_in_handler (wrap_int (in_handler slot - 1)) slot in
  if negb (gen_ =? gen slot1)
  then (slot1, 0, [Log gf_msg_debug_generation_bumped])
  else if in_handler slot1 =? 0
  then (slot1, epoll_ctl_ret,
        [Epoll_ctl epfd EPOLL_CTL_MOD fd_
                   (Some (EpollEvent (events slot1) idx_ gen_))])
  else (slot1, 0, []).

Definition event_handled_epoll (p : event_pool) (fd_ idx_ gen_ : Z)
    (epoll_ctl_ret : Z) : outcome (Z * event_pool * list io) :=
  match event_slot_get p idx_ with
  | Returns None => Returns (-1, p, [Log LG_MSG_SLOT_NOT_FOUND])
  | Returns (Some (slot, p1)) =>
      match slot_at p1 slot with
      | None => BadAccess
      | Some s =>
          if negb (fd s =? fd_) then AssertFails
          else
            let '(s1, ret, tr) :=
              event_handled_epoll_locked (pool_fd p1) s fd_ idx_ gen_
                                         epoll_ctl_ret in
            let p2 := slot_upd (λ _, s1) slot p1 in
            match event_slot_unref p2 slot idx_ with
            | Returns (p3, tr') => Returns (ret, p3, tr ++ tr')
            | AssertFails => AssertFails
            | BadAccess => BadAccess
            end
      end
  | AssertFails => AssertFails
  | BadAccess => BadAccess
  end.

(** ** Reconfiguration of the number of workers *)

Definition event_pool_dispatched_unlocked (p : event_pool) : option bool :=
  (λ t, negb (t =? 0)) <$> pollers p !! 0%nat.

(** The loop [for (i = oldthreadcount; i < value; i++)], [n] rounds from
    [i] on.  [calloc_ok i] tells whether GF_CALLOC succeeds in round [i],
    [thread_create i] is the result and the thread id of
    [gf_thread_create] in that round. *)
Fixpoint reconfigure_spawn (n : nat) (i : Z) (pollers_ : list Z)
    (calloc_ok : Z → bool) (thread_create : Z → Z * Z)
    : outcome (list Z * list io) :=
  match n with
  | O => Returns (pollers_, [])
  | S n' =>
      if i <? 0 then BadAccess
      else
        match pollers_ !! Z.to_nat i with
        | None => BadAccess
        | Some t =>
            let '(pollers1, tr) :=
              if t =? 0 then
                if calloc_ok i then
                  let '(ret, t_id) := thread_create i in
                  if ret =? 0
                  then (<[Z.to_nat i := t_id]> pollers_, [Thread_create (i + 1)])
                  else (pollers_,
                        [Thread_create (i + 1);
                         Log (LG_MSG_START_EPOLL_THREAD_FAILED i)])
                else (pollers_, [])
              else (pollers_, []) in
            match reconfigure_spawn n' (i + 1) pollers1 calloc_ok thread_create with
            | Returns (pollers2, tr') => Returns (pollers2, tr ++ tr')
            | AssertFails => AssertFails
            | BadAccess => BadAccess
            end
        end
  end.

Definition event_reconfigure_threads_epoll (p : event_pool) (value : Z)
    (calloc_ok : Z → bool) (thread_create : Z → Z * Z)
    : outcome (Z * event_pool * list io) :=
  let value1 :=
    if destroy p =? 1 then 0
    else
      let v := if value >? EVENT_MAX_THREADS then EVENT_MAX_THREADS else value in
      if v <=? 0 then 1 else v in
  let oldthreadcount := eventthreadcount p in
  match event_pool_dispatched_unlocked p with
  | None => BadAccess
  | Some dispatched =>
      if dispatched && (oldthreadcount <? value1) then
        match reconfigure_spawn (Z.to_nat (value1 - oldthreadcount)) oldthreadcount
                                (pollers p) calloc_ok thread_create with
        | Returns (pollers1, tr) =>
            Returns (0, set_eventthreadcount value1 (set_pollers pollers1 p), tr)
        | AssertFails => AssertFails
        | BadAccess => BadAccess
        end
      else Returns (0, set_eventthreadcount value1 p, [])
  end.

End EventEpoll.

(** ** Observations on results *)

(** The handler calls among the outputs of a run. *)
Definition handler_calls (tr : list io) : list handler_call :=
  omap (λ e, match e with Handler c => Some c | _ => None end) tr.

(** The [epoll_ctl] calls among the outputs of a run. *)
Definition epoll_ctl_calls (tr : list io) : list io :=
  omap (λ e, match e with Epoll_ctl _ _ _ _ => Some e | _ => None end) tr.

(** Two slots that differ at most in [slots_used], the counter of the
    bucket that lives in its first slot. *)
Definition eq_but_used (a b : event_slot_epoll) : Prop :=
  set_slots_used 0 a = set_slots_used 0 b.

(** The three values [__slot_update_events] acts on without a log. *)
Definition tri_valued (v : Z) : bool := (v =? 1) || (v =? 0) || (v =? -1).

(** Every slot of every allocated bucket passes the test [P]. *)
Definition all_slots (P : event_slot_epoll → bool) (p : event_pool) : bool :=
  forallb (λ ot, match ot with Some table => forallb P table | None => true end)
          (ereg p).

(** The generation counter of a slot can be incremented three more times. *)
Definition gen_has_room (s : event_slot_epoll) : bool :=
  (INT_MIN <=? gen s) && (gen s <=? INT_MAX - 3).

Section Shape.

Context {cfg : event_config}.

(** The shape [event_pool_new_epoll] and [__event_newtable] give the table:
    EVENT_EPOLL_TABLES buckets of EVENT_EPOLL_SLOTS slots. *)
Definition pool_wf (p : event_pool) : bool :=
  (length (ereg p) =? Z.to_nat EVENT_EPOLL_TABLES)%nat
  && forallb (λ ot, match ot with
                    | Some table => (length table =? Z.to_nat EVENT_EPOLL_SLOTS)%nat
                    | None => true
                    end) (ereg p).

(** What [event_slot_dealloc] and [event_slot_unref] leave when they
    return, written without the checks of the accesses: the lemmas on
    the two functions are stated on these. *)
Definition dealloc_in_table (p : event_pool) (idx_ : Z) : event_pool :=
  match slot_of_idx idx_ with
  | Some (table_idx, offset) =>
      match ereg p !! table_idx with
      | Some (Some _) => __event_slot_dealloc p table_idx offset
      | _ => p
      end
  | None => p
  end.

Definition unref_in_table (p : event_pool) (slot : slot_ptr) (idx_ : Z)
    : event_pool * list io :=
  match slot_at p slot with
  | None => (p, [])
  | Some s =>
      let ref_ := wrap_int64 (ref s - 1) in
      let p1 := slot_upd (set_ref ref_) slot p in
      if ref_ =? 0 then
        (dealloc_in_table (slot_upd (set_do_close 0) slot p1) idx_,
         if do_close s =? 0 then [] else [Sys_close (fd s)])
      else (p1, [])
  end.

End Shape.

(** [g'] is [g] after at most [k] increments of an [int]. *)
Definition bumped (k : nat) (g g' : Z) : Prop :=
  ∃ j, (j ≤ k)%nat ∧ g' = Nat.iter j (λ x, wrap_int (x + 1)) g.

(** Every slot of [p] is still there in [p'], its generation incremented
    at most [k] times. *)
Definition gen_adv (k : nat) (p p' : event_pool) : Prop :=
  ∀ l s, slot_at p l = Some s →
    ∃ s', slot_at p' l = Some s' ∧ bumped k (gen s) (gen s').

(** The operations on an existing pool: the entries of [event_ops_epoll]
    that work on the slot table or the thread count, and the dispatch of
    one event by a worker. *)
Inductive operation :=
| Op_register (fd_ handler_ data_ poll_in poll_out notify_poller_death : Z)
              (calloc_ok : bool) (epoll_ctl_ret : Z)
| Op_unregister (fd_ idx_ : Z) (epoll_ctl_ret : Z)
| Op_unregister_close (fd_ idx_ : Z) (epoll_ctl_ret : Z)
| Op_select_on (fd_ idx_ poll_in poll_out : Z) (epoll_ctl_ret : Z)
| Op_handled (fd_ idx_ gen_ : Z) (epoll_ctl_ret : Z)
| Op_dispatch_handler (event : epoll_event)
| Op_reconfigure_threads (value : Z) (calloc_ok : Z → bool)
                         (thread_create : Z → Z * Z).

Section Operations.

Context {cfg : event_config}.

Definition run_operation (op : operation) (p : event_pool)
    : outcome (Z * event_pool * list io) :=
  match op with
  | Op_register fd_ handler_ data_ poll_in poll_out notify calloc_ok ret =>
      event_register_epoll p fd_ handler_ data_ poll_in poll_out notify calloc_ok ret
  | Op_unregister fd_ idx_ ret => event_unregister_epoll p fd_ idx_ ret
  | Op_unregister_close fd_ idx_ ret => event_unregister_close_epoll p fd_ idx_ ret
  | Op_select_on fd_ idx_ poll_in poll_out ret =>
      event_select_on_epoll p fd_ idx_ poll_in poll_out ret
  | Op_handled fd_ idx_ gen_ ret => event_handled_epoll p fd_ idx_ gen_ ret
  | Op_dispatch_handler event => event_dispatch_epoll_handler p event
  | Op_reconfigure_threads value calloc_ok thread_create =>
      event_reconfigure_threads_epoll p value calloc_ok thread_create
  end.

End Operations.

(** ** Reading the result of a run *)

Definition ret_of (o : outcome (Z * event_pool * list io)) : option Z :=
  match o with Returns (r, _, _) => Some r | _ => None end.

Definition trace_of (o : outcome (Z * event_pool * list io)) : list io :=
  match o with Returns (_, _, tr) => tr | _ => [] end.

(** The pool a run leaves, [p] itself when the run does not return. *)
Definition pool_after (p : event_pool) (o : outcome (Z * event_pool * list io))
    : event_pool :=
  match o with Returns (_, p', _) => p' | _ => p end.

(** ** A small instance

    Two buckets of two slots and four threads, enough to run every path
    of the code on concrete pools. *)

Definition small_config : event_config := EventConfig 2 2 4.

Definition empty_pool : event_pool := Pool [] 0 0 0 0 0 0 [] [] 0 0.

(** [event_pool_new_epoll (16, 2)] with 3 for the epoll descriptor. *)
Definition fresh_pool : event_pool :=
  default empty_pool (@event_pool_new_epoll small_config 16 2 true 3 true).1.

(** One registration: fd 5, handler 100, data 200, read interest. *)
Definition pool_one : event_pool :=
  pool_after fresh_pool
    (@event_register_epoll small_config fresh_pool 5 100 200 1 0 0 true 0).

(** The slot of handle 0 in [pool_one]. *)
Definition slot_one : event_slot_epoll :=
  Slot 1 5 1073741851 1 0 1 0 0 0 200 100 true.

(** A second registration, fd 6: the first bucket is now full. *)
Definition pool_two : event_pool :=
  pool_after pool_one
    (@event_register_epoll small_config pool_one 6 100 200 1 0 0 true 0).

(** [pool_one] after a call of handled (5, 0, 1) that no dispatch
    preceded. *)
Definition pool_handled_early : event_pool :=
  pool_after pool_one (@event_handled_epoll small_config pool_one 5 0 1 0).

(** [pool_one] at the moment the worker that dispatches a read event for
    handle 0 calls the handler: the reference of [event_slot_get] is
    taken and the block under the slot lock is done. *)
Definition pool_in_dispatch : event_pool :=
  match @event_slot_get small_config pool_one 0 with
  | Returns (Some (slot, p)) =>
      slot_upd (λ s, (event_dispatch_epoll_handler_locked s
                        (EpollEvent EPOLLIN 0 1)).1.1.1) slot p
  | _ => pool_one
  end.

(** The slot of handle 0 in [pool_in_dispatch]: two references, one
    handler in progress. *)
Definition slot_in_dispatch : event_slot_epoll :=
  Slot 1 5 1073741851 1 0 2 0 1 0 200 100 true.

(** [fresh_pool] once [event_dispatch_epoll] has started worker 1. *)
Definition pool_dispatched : event_pool := set_pollers [7; 0; 0; 0] fresh_pool.

(** [pool_two] after a successful unregister of the first registration:
    offset 0 of the first bucket is free again, with generation 3, and
    offset 1 is in use. *)
Definition pool_first_freed : event_pool :=
  pool_after pool_two (@event_unregister_epoll small_config pool_two 5 0 0).

(** [pool_one] with the generation of its registration at the top of the
    range of [int]. *)
Definition pool_gen_max : event_pool := slot_upd (set_gen INT_MAX) (0, 0)%nat pool_one.

(** ** The rest of the file: start of the workers and the worker loop

    Of the remaining functions, [event_pool_destroy_epoll], which closes
    the epoll descriptor and frees the pool, is not modelled.  The INFO
    lines the worker logs when it starts and when it exits are left out
    of its outputs, and the handlers it calls are taken to leave the
    pool alone. *)

Definition EINTR : Z := 4.

Definition set_activethreadcount (v : Z) (p : event_pool) :=
  Pool (ereg p) (pool_fd p) (count p) (eventthreadcount p) v
       (auto_thread_count p) (destroy p) (pollers p) (poller_death p)
       (poller_gen p) (poller_death_sliced p).
Definition set_poller_gen (v : Z) (p : event_pool) :=
  Pool (ereg p) (pool_fd p) (count p) (eventthreadcount p) (activethreadcount p)
       (auto_thread_count p) (destroy p) (pollers p) (poller_death p)
       v (poller_death_sliced p).
Definition set_poller_death_sliced (v : Z) (p : event_pool) :=
  Pool (ereg p) (pool_fd p) (count p) (eventthreadcount p) (activethreadcount p)
       (auto_thread_count p) (destroy p) (pollers p) (poller_death p)
       (poller_gen p) v.

(** What [epoll_wait (epfd, &event, 1, -1)] answers: its result, [errno],
    and the event it stores when the result is positive. *)
Record epoll_wait_result := EpollWait {
  wait_ret : Z;
  wait_errno : Z;
  wait_event : epoll_event
}.

(** How one round of the worker loop ends.  [dispatch_failed] tells
    whether the round logs LG_MSG_DISPATCH_HANDLER_FAILED. *)
Inductive worker_step :=
| Worker_continues (p : event_pool) (event : epoll_event) (tr : list io)
                   (dispatch_failed : bool)
| Worker_exits (p : event_pool) (tr : list io)
| Worker_waits
| Worker_crashes
| Worker_unmodelled.

Section Workers.

Context {cfg : event_config}.

(** [__event_slot_unref]: [event_slot_unref] for a caller that holds the
    pool mutex. *)
Definition __event_slot_unref (p : event_pool) (slot : slot_ptr) (idx_ : Z)
    : outcome (event_pool * list io) :=
  match slot_at p slot with
  | None => BadAccess
  | Some s =>
      let ref_ := wrap_int64 (ref s - 1) in
      let p1 := slot_upd (set_ref ref_) slot p in
      if ref_ =? 0 then
        let fd_ := fd s in
        let do_close_ := do_close s in
        let p2 := slot_upd (set_do_close 0) slot p1 in
        let closes := if do_close_ =? 0 then [] else [Sys_close fd_] in
        let table_idx := Z.quot idx_ EVENT_EPOLL_SLOTS in
        if table_idx <? 0 then BadAccess
        else
          match ereg p2 !! Z.to_nat table_idx with
          | None => BadAccess
          | Some None => Returns (p2, closes)
          | Some (Some table) =>
              let offset := Z.rem idx_ EVENT_EPOLL_SLOTS in
              if offset <? 0 then BadAccess
              else
                match table !! Z.to_nat offset with
                | None => BadAccess
                | Some _ =>
                    Returns (__event_slot_dealloc p2 (Z.to_nat table_idx)
                                                  (Z.to_nat offset),
                             closes)
                end
          end
      else Returns (p1, [])
  end.

(** The loop [for (i = 0; i < pollercount; i++)] of
    [event_dispatch_epoll], [n] rounds from [i] on, with the current value
    of [ret].  [malloc_ok i] tells whether GF_MALLOC succeeds in round [i],
    [thread_create i] is the result and the thread id of
    [gf_thread_create] in that round. *)
Fixpoint dispatch_spawn (n : nat) (i : Z) (pollers_ : list Z) (ret : Z)
    (malloc_ok : Z → bool) (thread_create : Z → Z * Z)
    : outcome (list Z * Z * list io) :=
  match n with
  | O => Returns (pollers_, ret, [])
  | S n' =>
      if malloc_ok i then
        let '(ret1, t_id) := thread_create i in
        if ret1 =? 0 then
          if (i <? 0) || (Z.of_nat (length pollers_) <=? i) then BadAccess
          else
            match dispatch_spawn n' (i + 1) (<[Z.to_nat i := t_id]> pollers_) ret1
                                 malloc_ok thread_create with
            | Returns (pollers2, ret2, tr) =>
                Returns (pollers2, ret2, Thread_create (i + 1) :: tr)
            | AssertFails => AssertFails
            | BadAccess => BadAccess
            end
        else if i =? 0 then
          Returns (pollers_, ret1,
                   [Thread_create (i + 1); Log (LG_MSG_START_EPOLL_THREAD_FAILED i)])
        else
          match dispatch_spawn n' (i + 1) pollers_ ret1 malloc_ok thread_create with
          | Returns (pollers2, ret2, tr) =>
              Returns (pollers2, ret2,
                       Thread_create (i + 1)
                       :: Log (LG_MSG_START_EPOLL_THREAD_FAILED i) :: tr)
          | AssertFails => AssertFails
          | BadAccess => BadAccess
          end
      else if i =? 0 then Returns (pollers_, ret, [])
      else dispatch_spawn n' (i + 1) pollers_ ret malloc_ok thread_create
  end.

(** [event_dispatch_epoll].  Between the loop and the last critical
    section the C function joins worker 1 when [pollers[0]] is set; the
    model goes on from the point where the join has returned, and leaves
    out what the workers did meanwhile. *)
Definition event_dispatch_epoll (p : event_pool) (malloc_ok : Z → bool)
    (thread_create : Z → Z * Z) : outcome (Z * event_pool * list io) :=
  let pollercount :=
    let c := if eventthreadcount p >? EVENT_MAX_THREADS then EVENT_MAX_THREADS
             else eventthreadcount p in
    if c <=? 0 then 1 else c in
  let p1 := set_activethreadcount (wrap_int (activethreadcount p + 1)) p in
  match dispatch_spawn (Z.to_nat pollercount) 0 (pollers p1) (-1)
                       malloc_ok thread_create with
  | Returns (pollers1, ret, tr) =>
      let p2 := set_pollers pollers1 p1 in
      match pollers p2 !! 0%nat with
      | None => BadAccess
      | Some _ =>
          Returns (ret,
                   set_activethreadcount (wrap_int (activethreadcount p2 - 1)) p2,
                   tr)
      end
  | AssertFails => AssertFails
  | BadAccess => BadAccess
  end.

(** The first critical section of a worker that retires: the roster and
    the counters, a reference on every slot of [poller_death], and the
    list moved to the local [poller_death_notify].  The result is the
    pool, that local list and the local [gen]. *)
Definition worker_retire_begin (p : event_pool) (myindex : Z)
    : outcome (event_pool * list slot_ptr * Z) :=
  if (myindex - 1 <? 0) || (Z.of_nat (length (pollers p)) <=? myindex - 1)
  then BadAccess
  else
    let p1 := set_pollers (<[Z.to_nat (myindex - 1) := 0]> (pollers p)) p in
    let p2 := set_activethreadcount (wrap_int (activethreadcount p1 - 1)) p1 in
    let gen_ := wrap_int (poller_gen p2 + 1) in
    let p3 := set_poller_gen gen_ p2 in
    let notify := poller_death p3 in
    let p4 := foldl (λ q slot, event_slot_ref slot q) p3 notify in
    Returns (set_poller_death_sliced 1 (set_poller_death [] p4), notify, gen_).

(** The calls [slot->handler (slot->fd, 0, gen, slot->data, 0, 0, 0, 1)]
    made outside the mutex, one for each slot of the local list. *)
Fixpoint worker_retire_notify (p : event_pool) (notify : list slot_ptr) (gen_ : Z)
    : outcome (list io) :=
  match notify with
  | [] => Returns []
  | slot :: rest =>
      match slot_at p slot with
      | None => BadAccess
      | Some s =>
          if handler s =? 0 then BadAccess
          else
            match worker_retire_notify p rest gen_ with
            | Returns tr =>
                Returns (Handler (HandlerCall (handler s) (fd s) 0 gen_ (data s)
                                              0 0 0 1) :: tr)
            | AssertFails => AssertFails
            | BadAccess => BadAccess
            end
      end
  end.

(** The loop [list_for_each_entry_safe] of the last critical section:
    [visit] is what is left to walk and [notify] the local list, from
    which the deallocation of a slot unlinks it.  A slot whose [idx] is
    not its own handle, for which the C loop would unlink another node
    while it walks the list, is outside the model ([None]);
    [__event_slot_alloc] links no such slot. *)
Fixpoint worker_retire_unref (p : event_pool) (visit notify : list slot_ptr)
    : option (outcome (event_pool * list slot_ptr * list io)) :=
  match visit with
  | [] => Some (Returns (p, notify, []))
  | slot :: rest =>
      match slot_at p slot with
      | None => Some BadAccess
      | Some s =>
          if decide (slot_of_idx (idx s) = Some slot) then
            let dead := wrap_int64 (ref s - 1) =? 0 in
            match __event_slot_unref p slot (idx s) with
            | Returns (p1, tr) =>
                let notify1 :=
                  if dead then filter (λ x, x ≠ slot) notify else notify in
                match worker_retire_unref p1 rest notify1 with
                | Some (Returns (p2, notify2, tr2)) =>
                    Some (Returns (p2, notify2, tr ++ tr2))
                | other => other
                end
            | AssertFails => Some AssertFails
            | BadAccess => Some BadAccess
            end
          else None
      end
  end.

(** The last critical section: the references are dropped, what is left
    of the local list is spliced back in front of [poller_death]. *)
Definition worker_retire_end (p : event_pool) (notify : list slot_ptr)
    : option (outcome (event_pool * list io)) :=
  match worker_retire_unref p notify notify with
  | Some (Returns (p1, notify1, tr)) =>
      Some (Returns (set_poller_death_sliced 0
                       (set_poller_death (notify1 ++ poller_death p1) p1), tr))
  | Some AssertFails => Some AssertFails
  | Some BadAccess => Some BadAccess
  | None => None
  end.

(** One round of the [for (;;)] of [event_dispatch_epoll_worker] for the
    worker [myindex], run without another thread in between.  [event] is
    the content of the local buffer of that name when the round starts,
    [w] what [epoll_wait] answers if it is called. *)
Definition event_dispatch_epoll_worker_round (p : event_pool) (myindex : Z)
    (event : epoll_event) (w : epoll_wait_result) : worker_step :=
  if eventthreadcount p <? myindex then
    if negb (poller_death_sliced p =? 0) then Worker_waits
    else
      match worker_retire_begin p myindex with
      | Returns (p1, notify, gen_) =>
          match worker_retire_notify p1 notify gen_ with
          | Returns calls =>
              match worker_retire_end p1 notify with
              | Some (Returns (p2, tr)) => Worker_exits p2 (calls ++ tr)
              | Some _ => Worker_crashes
              | None => Worker_unmodelled
              end
          | _ => Worker_crashes
          end
      | _ => Worker_crashes
      end
  else if wait_ret w =? 0 then Worker_continues p event [] false
  else if (wait_ret w =? -1) && (wait_errno w =? EINTR)
  then Worker_continues p event [] false
  else
    let event1 := if 0 <? wait_ret w then wait_event w else event in
    match event_dispatch_epoll_handler p event1 with
    | Returns (ret, p1, tr) => Worker_continues p1 event1 tr (negb (ret =? 0))
    | _ => Worker_crashes
    end.

End Workers.

(** A run of several operations, one after the other; [None] when one of
    them does not return. *)
Fixpoint run_operations {cfg : event_config} (ops : list operation) (p : event_pool)
    : option event_pool :=
  match ops with
  | [] => Some p
  | op :: rest =>
      match run_operation op p with
      | Returns (_, p1, _) => run_operations rest p1
      | _ => None
      end
  end.

(** Two pools that differ at most in the slot table and the list
    [poller_death]. *)
Definition same_but_slots (p p' : event_pool) : Prop :=
  set_poller_death [] (set_ereg [] p') = set_poller_death [] (set_ereg [] p).

Section Shapes.

Context {cfg : event_config}.

(** [p'] has the fields of [p] beside the table, and the shape of the
    table if [p] has it. *)
Definition shape_kept (p p' : event_pool) : Prop :=
  same_but_slots p p' ∧ (pool_wf p = true → pool_wf p' = true).

End Shapes.

(** The mask [event_register_epoll] starts from. *)
Definition EPOLL_ALWAYS : Z :=
  Z.lor (Z.lor (Z.lor EPOLLPRI EPOLLHUP) EPOLLERR) EPOLLONESHOT.

(** A pool with two workers started and one registration that asked to
    be told of the death of a worker, after the thread count is lowered
    to one: worker 2 is to retire. *)
Definition pool_retiring : event_pool :=
  set_eventthreadcount 1
    (set_pollers [7; 8; 0; 0]
       (pool_after fresh_pool
          (@event_register_epoll small_config fresh_pool 5 100 200 1 0 1 true 0))).

(** * Properties *)

(** ** Machine integers and the event mask *)

Lemma testbit_EPOLLIN n : Z.testbit EPOLLIN n = (n =? 0).
Proof.
  destruct (Z.ltb_spec n 0) as [Hn|Hn].
  - rewrite Z.testbit_neg_r by done. symmetry. apply Z.eqb_neq. lia.
  - change EPOLLIN with (2 ^ 0). rewrite Z.pow2_bits_eqb; [apply Z.eqb_sym | lia].
Qed.

Lemma testbit_EPOLLOUT n : Z.testbit EPOLLOUT n = (n =? 2).
Proof.
  destruct (Z.ltb_spec n 0) as [Hn|Hn].
  - rewrite Z.testbit_neg_r by done. symmetry. apply Z.eqb_neq. lia.
  - change EPOLLOUT with (2 ^ 2). rewrite Z.pow2_bits_eqb; [apply Z.eqb_sym | lia].
Qed.

(** One switch of [__slot_update_events] on the mask: what it does to
    bit [n] of [events] when the flag is [bit]. *)
Lemma tri_valued_bit (mask bit v n : Z) :
  0 <= n →
  Z.testbit (if v =? 1 then Z.lor mask bit
             else if v =? 0 then Z.land mask (Z.lnot bit) else mask) n
  = if Z.testbit bit n
    then (if v =? 1 then true else if v =? 0 then false else Z.testbit mask n)
    else Z.testbit mask n.
Proof.
  intros Hn.
  destruct (v =? 1); [|destruct (v =? 0)].
  - rewrite Z.lor_spec. destruct (Z.testbit bit n); [apply orb_true_r | apply orb_false_r].
  - rewrite Z.land_spec, Z.lnot_spec by done.
    destruct (Z.testbit bit n); simpl; [apply andb_false_r | apply andb_true_r].
  - by destruct (Z.testbit bit n).
Qed.

(** The cases of the two switches of [__slot_update_events]. *)
Ltac tri_valued_cases poll_in poll_out :=
  destruct (poll_in =? 1); [|destruct (poll_in =? 0); [|destruct (poll_in =? -1)]];
  (destruct (poll_out =? 1); [|destruct (poll_out =? 0); [|destruct (poll_out =? -1)]]).

Lemma slot_update_events_events slot poll_in poll_out :
  events (__slot_update_events slot poll_in poll_out).1 =
  let m := if poll_in =? 1 then Z.lor (events slot) EPOLLIN
           else if poll_in =? 0 then Z.land (events slot) (Z.lnot EPOLLIN)
           else events slot in
  if poll_out =? 1 then Z.lor m EPOLLOUT
  else if poll_out =? 0 then Z.land m (Z.lnot EPOLLOUT) else m.
Proof.
  unfold __slot_update_events.
  by tri_valued_cases poll_in poll_out.
Qed.

Lemma slot_update_events_frame slot poll_in poll_out :
  (__slot_update_events slot poll_in poll_out).1 =
  set_events (events (__slot_update_events slot poll_in poll_out).1) slot.
Proof.
  unfold __slot_update_events.
  destruct slot.
  by tri_valued_cases poll_in poll_out.
Qed.


(** Claim C8.  The update of the events mask by [__slot_update_events] is
    tri-valued: with -1 for both flags the slot is returned as it is and
    nothing is logged; in general bit 0 (EPOLLIN) follows [poll_in] and
    bit 2 (EPOLLOUT) follows [poll_out] (1 sets the bit, 0 clears it, any
    other value leaves it), every other bit of the mask and every other
    field of the slot are unchanged, and a value other than 1, 0 and -1
    only produces its log message. *)
Theorem slot_update_events_tri_valued :
  (∀ slot, __slot_update_events slot (-1) (-1) = (slot, []))
  ∧ (∀ slot poll_in poll_out n,
       Z.testbit (events (__slot_update_events slot poll_in poll_out).1) n =
       if n =? 0 then
         (if poll_in =? 1 then true else if poll_in =? 0 then false
          else Z.testbit (events slot) 0)
       else if n =? 2 then
         (if poll_out =? 1 then true else if poll_out =? 0 then false
          else Z.testbit (events slot) 2)
       else Z.testbit (events slot) n)
  ∧ (∀ slot poll_in poll_out,
       (__slot_update_events slot poll_in poll_out).1 =
       set_events (events (__slot_update_events slot poll_in poll_out).1) slot)
  ∧ (∀ slot poll_in poll_out,
       (__slot_update_events slot poll_in poll_out).2 =
       (if tri_valued poll_in then [] else [Log (LG_MSG_INVALID_POLL_IN poll_in)])
       ++ (if tri_valued poll_out then []
           else [Log (LG_MSG_INVALID_POLL_OUT poll_out)])).
Proof.
  split; [|split; [|split]].
  - intros slot. by destruct slot.
  - intros slot poll_in poll_out n.
    rewrite slot_update_events_events. cbv zeta.
    destruct (Z.ltb_spec n 0) as [Hn|Hn].
    { destruct (Z.eqb_spec n 0); [lia|]. destruct (Z.eqb_spec n 2); [lia|].
      by rewrite !Z.testbit_neg_r. }
    rewrite (tri_valued_bit _ EPOLLOUT poll_out n Hn), testbit_EPOLLOUT.
    rewrite (tri_valued_bit _ EPOLLIN poll_in n Hn), testbit_EPOLLIN.
    destruct (Z.eqb_spec n 0) as [->|H0]; [done|].
    by destruct (Z.eqb_spec n 2) as [->|H2].
  - apply slot_update_events_frame.
  - intros slot poll_in poll_out. unfold __slot_update_events, tri_valued.
    by tri_valued_cases poll_in poll_out.
Qed.

Section Facts.

Context {cfg : event_config}.

(** ** Slots and handles *)

Lemma wrap_int_small z : int_range z → wrap_int z = z.
Proof.
  unfold int_range, wrap_int, INT_MIN, INT_MAX. intros H.
  rewrite Z.mod_small; lia.
Qed.

Lemma wrap_int64_small z : int64_range z → wrap_int64 z = z.
Proof.
  unfold int64_range, wrap_int64, INT64_MIN, INT64_MAX. intros H.
  rewrite Z.mod_small; lia.
Qed.

Lemma wrap_int64_inc_dec z : int64_range z → wrap_int64 (wrap_int64 (z + 1) - 1) = z.
Proof.
  unfold int64_range, wrap_int64, INT64_MIN, INT64_MAX. intros H.
  replace ((z + 1 - -9223372036854775808) mod 2 ^ 64 + -9223372036854775808 - 1 - -9223372036854775808)
    with ((z + 1 - -9223372036854775808) mod 2 ^ 64 - 1) by lia.
  rewrite Zminus_mod_idemp_l.
  rewrite Z.mod_small; lia.
Qed.

Lemma slot_at_upd_eq f l p : slot_at (slot_upd f l p) l = f <$> slot_at p l.
Proof.
  unfold slot_at, slot_upd. destruct l as [i j]. simpl.
  rewrite list_lookup_alter_eq.
  destruct (ereg p !! i) as [[t|]|]; simpl; auto.
  apply list_lookup_alter_eq.
Qed.

Lemma slot_at_upd_ne f l l' p : l ≠ l' → slot_at (slot_upd f l p) l' = slot_at p l'.
Proof.
  unfold slot_at, slot_upd. destruct l as [i j], l' as [i' j']. simpl. intros Hne.
  destruct (decide (i = i')) as [->|Hi].
  - rewrite list_lookup_alter_eq.
    destruct (ereg p !! i') as [[t|]|]; simpl; auto.
    apply list_lookup_alter_ne. congruence.
  - rewrite list_lookup_alter_ne by done. done.
Qed.

Lemma slot_at_upd f l l' p :
  slot_at (slot_upd f l p) l' = if decide (l = l') then f <$> slot_at p l' else slot_at p l'.
Proof.
  case_decide; subst; auto using slot_at_upd_eq, slot_at_upd_ne.
Qed.

Lemma all_slots_at P p l s : all_slots P p = true → slot_at p l = Some s → P s = true.
Proof.
  unfold all_slots, slot_at. intros Hall Hl.
  destruct (ereg p !! l.1) as [[t|]|] eqn:Ht; try done.
  rewrite forallb_forall in Hall.
  specialize (Hall (Some t)). simpl in Hall.
  assert (Hin : In (Some t) (ereg p)).
  { apply list_elem_of_In. eapply list_elem_of_lookup_2; eauto. }
  specialize (Hall Hin). rewrite forallb_forall in Hall. apply Hall.
  apply list_elem_of_In. eapply list_elem_of_lookup_2; eauto.
Qed.

Lemma slot_of_idx_Some idx_ l :
  0 < EVENT_EPOLL_SLOTS →
  slot_of_idx idx_ = Some l →
  0 <= idx_
  ∧ idx_ = Z.of_nat l.1 * EVENT_EPOLL_SLOTS + Z.of_nat l.2
  ∧ Z.of_nat l.2 < EVENT_EPOLL_SLOTS.
Proof.
  unfold slot_of_idx. intros Hs H.
  destruct (Z.leb_spec 0 (Z.quot idx_ EVENT_EPOLL_SLOTS)) as [Hq|]; [|done].
  destruct (Z.leb_spec 0 (Z.rem idx_ EVENT_EPOLL_SLOTS)) as [Hr|]; [|done].
  simpl in H. injection H as <-. simpl.
  pose proof (Z.quot_rem' idx_ EVENT_EPOLL_SLOTS) as Hqr.
  assert (H0 : 0 <= idx_) by nia.
  pose proof (Z.rem_bound_pos idx_ EVENT_EPOLL_SLOTS H0 Hs).
  rewrite !Z2Nat.id by done. lia.
Qed.

Lemma slot_of_idx_handle (i j : nat) :
  Z.of_nat j < EVENT_EPOLL_SLOTS →
  slot_of_idx (Z.of_nat i * EVENT_EPOLL_SLOTS + Z.of_nat j) = Some (i, j).
Proof.
  intros Hj. unfold slot_of_idx.
  assert (Hq : Z.quot (Z.of_nat i * EVENT_EPOLL_SLOTS + Z.of_nat j) EVENT_EPOLL_SLOTS
               = Z.of_nat i).
  { rewrite Z.quot_div_nonneg by nia. symmetry.
    apply (Z.div_unique_pos _ _ _ (Z.of_nat j)); lia. }
  assert (Hr : Z.rem (Z.of_nat i * EVENT_EPOLL_SLOTS + Z.of_nat j) EVENT_EPOLL_SLOTS
               = Z.of_nat j).
  { rewrite Z.rem_mod_nonneg by nia. symmetry.
    apply (Z.mod_unique_pos _ _ (Z.of_nat i)); lia. }
  rewrite Hq, Hr.
  destruct (Z.leb_spec 0 (Z.of_nat i)); [|lia].
  destruct (Z.leb_spec 0 (Z.of_nat j)); [|lia].
  simpl. by rewrite !Nat2Z.id.
Qed.


Lemma slot_at_set_poller_death v p l : slot_at (set_poller_death v p) l = slot_at p l.
Proof. reflexivity. Qed.

Lemma slot_of_idx_split idx_ l :
  slot_of_idx idx_ = Some l →
  (Z.quot idx_ EVENT_EPOLL_SLOTS <? 0) = false
  ∧ (Z.rem idx_ EVENT_EPOLL_SLOTS <? 0) = false
  ∧ l = (Z.to_nat (Z.quot idx_ EVENT_EPOLL_SLOTS), Z.to_nat (Z.rem idx_ EVENT_EPOLL_SLOTS)).
Proof.
  unfold slot_of_idx.
  destruct (Z.leb_spec 0 (Z.quot idx_ EVENT_EPOLL_SLOTS)); [|done].
  destruct (Z.leb_spec 0 (Z.rem idx_ EVENT_EPOLL_SLOTS)); [|done].
  intros [= <-]. repeat split; apply Z.ltb_ge; lia.
Qed.

Lemma event_slot_get_found p idx_ l s :
  slot_of_idx idx_ = Some l → slot_at p l = Some s →
  event_slot_get p idx_ = Returns (Some (l, event_slot_ref l p))
  ∧ slot_at (event_slot_ref l p) l = Some (set_ref (wrap_int64 (ref s + 1)) s).
Proof.
  intros Hl Hs. apply slot_of_idx_split in Hl as (Hq & Hr & ->).
  unfold event_slot_get, event_slot_ref. rewrite Hq, Hr.
  unfold slot_at in Hs. cbn [fst snd] in Hs.
  destruct (ereg p !! _) as [[table|]|] eqn:Ht; try done.
  rewrite Hs. split; [done|].
  rewrite slot_at_upd_eq. unfold slot_at. cbn [fst snd]. by rewrite Ht, Hs.
Qed.

(** What a lookup that finds a slot has found. *)
Lemma event_slot_get_Some p idx_ l p1 :
  event_slot_get p idx_ = Returns (Some (l, p1)) →
  slot_of_idx idx_ = Some l ∧ p1 = event_slot_ref l p ∧ is_Some (slot_at p l).
Proof.
  unfold event_slot_get, slot_of_idx, slot_at.
  destruct (Z.ltb_spec (Z.quot idx_ EVENT_EPOLL_SLOTS) 0); [done|].
  destruct (ereg p !! _) as [[table|]|] eqn:Ht; try done.
  destruct (Z.ltb_spec (Z.rem idx_ EVENT_EPOLL_SLOTS) 0); [done|].
  destruct (table !! _) as [s|] eqn:Hs; [|done].
  intros [= <- <-]. cbn [fst snd]. rewrite Ht, Hs.
  destruct (Z.leb_spec 0 (Z.quot idx_ EVENT_EPOLL_SLOTS)); [|lia].
  destruct (Z.leb_spec 0 (Z.rem idx_ EVENT_EPOLL_SLOTS)); [|lia].
  by eauto.
Qed.

(** A lookup that finds no slot has met a NULL bucket. *)
Lemma event_slot_get_None p idx_ :
  event_slot_get p idx_ = Returns None →
  0 <= Z.quot idx_ EVENT_EPOLL_SLOTS
  ∧ ereg p !! Z.to_nat (Z.quot idx_ EVENT_EPOLL_SLOTS) = Some None.
Proof.
  unfold event_slot_get.
  destruct (Z.ltb_spec (Z.quot idx_ EVENT_EPOLL_SLOTS) 0); [done|].
  destruct (ereg p !! _) as [[table|]|] eqn:Ht; try done.
  destruct (Z.rem idx_ EVENT_EPOLL_SLOTS <? 0); [done|].
  by destruct (table !! _).
Qed.

(** [event_slot_dealloc] and [event_slot_unref], when they return, and
    that they return for a handle that denotes a slot of the table. *)
Lemma event_slot_dealloc_returns p idx_ p' :
  event_slot_dealloc p idx_ = Returns p' → p' = dealloc_in_table p idx_.
Proof.
  unfold event_slot_dealloc, dealloc_in_table, slot_of_idx.
  destruct (Z.ltb_spec (Z.quot idx_ EVENT_EPOLL_SLOTS) 0); [done|].
  destruct (Z.leb_spec 0 (Z.quot idx_ EVENT_EPOLL_SLOTS)); [|lia].
  destruct (ereg p !! _) as [[table|]|] eqn:Ht; try done.
  - destruct (Z.ltb_spec (Z.rem idx_ EVENT_EPOLL_SLOTS) 0); [done|].
    destruct (Z.leb_spec 0 (Z.rem idx_ EVENT_EPOLL_SLOTS)); [|lia].
    destruct (table !! _); [|done]. cbn [andb]. rewrite Ht. by intros [= <-].
  - intros [= <-]. destruct (0 <=? _); cbn [andb]; [|done]. by rewrite Ht.
Qed.

Lemma event_slot_dealloc_inside p idx_ l :
  slot_of_idx idx_ = Some l → is_Some (slot_at p l) →
  event_slot_dealloc p idx_ = Returns (dealloc_in_table p idx_).
Proof.
  intros Hl [s Hs]. unfold dealloc_in_table. rewrite Hl.
  apply slot_of_idx_split in Hl as (Hq & Hr & ->).
  unfold event_slot_dealloc. rewrite Hq.
  unfold slot_at in Hs. cbn [fst snd] in Hs.
  destruct (ereg p !! _) as [[table|]|] eqn:Ht; try done.
  by rewrite Hr, Hs.
Qed.

Lemma event_slot_unref_returns p slot idx_ r :
  event_slot_unref p slot idx_ = Returns r → r = unref_in_table p slot idx_.
Proof.
  unfold event_slot_unref, unref_in_table.
  destruct (slot_at p slot) as [s|]; [|done].
  destruct (_ =? 0); [|by intros [= <-]].
  destruct (event_slot_dealloc _ idx_) as [p3| |] eqn:Hd; try done.
  apply event_slot_dealloc_returns in Hd as ->. by intros [= <-].
Qed.

Lemma event_slot_unref_inside p idx_ l :
  slot_of_idx idx_ = Some l → is_Some (slot_at p l) →
  event_slot_unref p l idx_ = Returns (unref_in_table p l idx_).
Proof.
  intros Hl [s Hs]. unfold event_slot_unref, unref_in_table. rewrite Hs.
  destruct (_ =? 0); [|done].
  rewrite (event_slot_dealloc_inside _ idx_ l Hl); [done|].
  rewrite !slot_at_upd_eq, Hs. by eexists.
Qed.

(** The release that ends a call of the API, on the slot the lookup has
    found. *)
Lemma unref_after_lock p idx_ l s s1 :
  slot_of_idx idx_ = Some l → slot_at p l = Some s →
  event_slot_unref (slot_upd (λ _, s1) l (event_slot_ref l p)) l idx_
  = Returns (unref_in_table (slot_upd (λ _, s1) l (event_slot_ref l p)) l idx_).
Proof.
  intros Hl Hs. apply event_slot_unref_inside; [done|].
  unfold event_slot_ref. rewrite !slot_at_upd_eq, Hs. by eexists.
Qed.

Lemma slot_claim_here p i j old fd_ notify :
  slot_at p (i, j) = Some old →
  ∃ s', slot_at (slot_claim p i j old fd_ notify).2 (i, j) = Some s'
    ∧ fd s' = fd_
    ∧ gen s' = wrap_int (gen old + 1)
    ∧ idx s' = (if notify =? 0 then 0 else (slot_claim p i j old fd_ notify).1.1)
    ∧ ref s' = 1
    ∧ in_handler s' = 0 ∧ handled_error s' = 0 ∧ do_close s' = 0.
Proof.
  intros Hold. unfold slot_claim, event_slot_ref. cbn [fst snd].
  rewrite slot_at_upd_eq, slot_at_upd.
  destruct (notify =? 0).
  - rewrite slot_at_upd_eq, Hold. case_decide; eexists; (split; [reflexivity|]); done.
  - rewrite slot_at_set_poller_death, !slot_at_upd_eq, Hold.
    case_decide; eexists; (split; [reflexivity|]); done.
Qed.

Lemma slot_claim_other p i j old fd_ notify l s :
  l ≠ (i, j) → slot_at p l = Some s →
  ∃ s', slot_at (slot_claim p i j old fd_ notify).2 l = Some s'
    ∧ s' = set_slots_used (slots_used s') s.
Proof.
  intros Hne Hs. unfold slot_claim, event_slot_ref. cbn [fst snd].
  rewrite slot_at_upd_ne, slot_at_upd by done.
  destruct (notify =? 0).
  - rewrite slot_at_upd_ne, Hs by done.
    case_decide; eexists; (split; [reflexivity|]); by destruct s.
  - rewrite slot_at_set_poller_death, !slot_at_upd_ne, Hs by done.
    case_decide; eexists; (split; [reflexivity|]); by destruct s.
Qed.



Lemma list_find_free_table :
  0 < EVENT_EPOLL_SLOTS →
  list_find (λ s, fd s = -1) free_table = Some (0%nat, set_fd (-1) zero_slot).
Proof.
  intros Hs. unfold free_table.
  destruct (Z.to_nat EVENT_EPOLL_SLOTS) as [|n] eqn:E; [lia|]. reflexivity.
Qed.

(** What a returning run of [__event_slot_alloc_from] has done: nothing
    when it fails; otherwise the first free slot of bucket [i'], found
    as it was or freshly allocated, has been claimed. *)
Lemma slot_alloc_from_inv fd_ notify ok rest : ∀ i p h ol p',
  0 < EVENT_EPOLL_SLOTS →
  __event_slot_alloc_from rest i p fd_ notify ok = Returns (h, ol, p') →
  (ol = None ∧ h = -1 ∧ p' = p)
  ∨ ∃ i' j old p0 table,
      (i ≤ i' < i + rest)%nat
      ∧ ((p0 = p ∧ ereg p !! i' = Some (Some table))
         ∨ (p0 = __event_newtable p i' ∧ table = free_table
            ∧ ∀ t, ereg p !! i' ≠ Some (Some t)))
      ∧ ereg p0 !! i' = Some (Some table)
      ∧ table !! j = Some old ∧ fd old = -1
      ∧ (h, ol, p') = slot_claim p0 i' j old fd_ notify.
Proof.
  induction rest as [|rest IH]; intros i p h ol p' Hs Hrun; [done|].
  simpl in Hrun.
  destruct (ereg p !! i) as [[table|]|] eqn:Hi.
  - destruct (table !! 0%nat) as [t0|]; [|done].
    destruct (slots_used t0 =? EVENT_EPOLL_SLOTS).
    { injection Hrun as <- <- <-. by left. }
    destruct (list_find _ table) as [[j old]|] eqn:Hfind.
    + apply list_find_Some in Hfind as (Hj & Hfree & _).
      right. exists i, j, old, p, table.
      split; [lia|]. split; [by left|].
      destruct (slot_claim p i j old fd_ notify) as [[h0 ol0] p0'].
      by injection Hrun as <- <- <-.
    + destruct (IH _ _ _ _ _ Hs Hrun) as [?|(i' & j & old & p0 & tb & Hi' & Hrest)];
        [by left|].
      right. exists i', j, old, p0, tb. split; [lia|done].
  - destruct ok; [|injection Hrun as <- <- <-; by left].
    assert (Hlt : (i < length (ereg p))%nat) by (by apply lookup_lt_Some in Hi).
    rewrite list_lookup_insert_eq in Hrun by done.
    fold free_table in Hrun. rewrite (list_find_free_table Hs) in Hrun.
    right. exists i, 0%nat, (set_fd (-1) zero_slot), (__event_newtable p i), free_table.
    split; [lia|]. split; [right; by rewrite Hi|].
    split; [by apply list_lookup_insert_eq|].
    split.
    { unfold free_table. destruct (Z.to_nat EVENT_EPOLL_SLOTS) eqn:E; [lia|done]. }
    split; [done|].
    destruct (slot_claim _ i 0 _ fd_ notify) as [[h0 ol0] p0'].
    by injection Hrun as <- <- <-.
  - destruct ok; [|injection Hrun as <- <- <-; by left].
    apply lookup_ge_None in Hi.
    by rewrite list_insert_ge, (proj2 (lookup_ge_None _ _) Hi) in Hrun.
Qed.


Lemma pool_wf_length p : pool_wf p = true → length (ereg p) = Z.to_nat EVENT_EPOLL_TABLES.
Proof. unfold pool_wf. intros [H _]%andb_true_iff. by apply Nat.eqb_eq. Qed.

Lemma pool_wf_table p i table :
  pool_wf p = true → ereg p !! i = Some (Some table) →
  length table = Z.to_nat EVENT_EPOLL_SLOTS.
Proof.
  unfold pool_wf. intros [_ H]%andb_true_iff Hi.
  rewrite forallb_forall in H. specialize (H (Some table)).
  apply Nat.eqb_eq, H, list_elem_of_In. eapply list_elem_of_lookup_2; eauto.
Qed.

Lemma slot_at_table p i j table s :
  ereg p !! i = Some (Some table) → table !! j = Some s → slot_at p (i, j) = Some s.
Proof. unfold slot_at. simpl. by intros -> ->. Qed.

(** Claim C9, as amended.  A successful [__event_slot_alloc] returns the
    handle [table index * EVENT_EPOLL_SLOTS + offset] of the slot it
    claimed, with [fd] set and one reference; the [idx] field of that slot
    is the handle when poller-death notification was asked for, and 0
    otherwise. *)
Theorem slot_alloc_idx_when_notifying p fd_ notify ok h l p' :
  config_ok cfg →
  pool_wf p = true →
  __event_slot_alloc p fd_ notify ok = Returns (h, Some l, p') →
  h = Z.of_nat l.1 * EVENT_EPOLL_SLOTS + Z.of_nat l.2
  ∧ slot_of_idx h = Some l
  ∧ ∃ s, slot_at p' l = Some s
       ∧ fd s = fd_ ∧ ref s = 1
       ∧ idx s = (if notify =? 0 then 0 else h).
Proof.
  intros [Ht Hs Hfit _] Hwf Hrun. unfold __event_slot_alloc in Hrun.
  apply slot_alloc_from_inv in Hrun as [[? _]|(i & j & old & p0 & table & Hi & Hp0 & Htab
                                        & Hj & Hfree & Hclaim)]; [done| |done].
  assert (Hlen : length table = Z.to_nat EVENT_EPOLL_SLOTS).
  { destruct Hp0 as [[-> Hp]|(_ & -> & _)]; [by eapply pool_wf_table|].
    apply length_replicate. }
  apply lookup_lt_Some in Hj as Hjlt. rewrite Hlen in Hjlt.
  destruct (slot_claim_here p0 i j old fd_ notify (slot_at_table _ _ _ _ _ Htab Hj))
    as (s & Hat & Hfd & _ & Hidx & Href & _).
  rewrite <- Hclaim in Hat, Hidx. simpl in Hat, Hidx.
  assert (Hh : h = Z.of_nat i * EVENT_EPOLL_SLOTS + Z.of_nat j).
  { unfold slot_claim in Hclaim. injection Hclaim as -> _ _.
    apply wrap_int_small. unfold int_range, INT_MIN. nia. }
  unfold slot_claim in Hclaim. injection Hclaim as _ -> _. simpl.
  split; [done|]. split; [rewrite Hh; apply slot_of_idx_handle; lia|].
  exists s. done.
Qed.

(** Claim C4, the behaviour of the code.  As soon as the counter of the
    first bucket says it is full, [__event_slot_alloc] returns -1 and
    [event_register_epoll] fails, without a look at the other buckets
    and whether or not a new bucket could be allocated. *)
Theorem slot_alloc_gives_up_at_full_first_bucket p fd_ notify ok table t0 :
  0 < EVENT_EPOLL_TABLES →
  ereg p !! 0%nat = Some (Some table) →
  table !! 0%nat = Some t0 →
  slots_used t0 = EVENT_EPOLL_SLOTS →
  __event_slot_alloc p fd_ notify ok = Returns (-1, None, p)
  ∧ (destroy p ≠ 1 →
     ∀ handler_ data_ poll_in poll_out epoll_ctl_ret,
       event_register_epoll p fd_ handler_ data_ poll_in poll_out notify ok
                            epoll_ctl_ret
       = Returns (-1, p, [Log LG_MSG_SLOT_NOT_FOUND])).
Proof.
  intros Ht Htab Ht0 Hfull.
  assert (Hrun : __event_slot_alloc p fd_ notify ok = Returns (-1, None, p)).
  { unfold __event_slot_alloc.
    destruct (Z.to_nat EVENT_EPOLL_TABLES) as [|rest] eqn:E; [lia|].
    simpl. by rewrite Htab, Ht0, Hfull, Z.eqb_refl. }
  split; [done|]. intros Hd **. unfold event_register_epoll.
  destruct (Z.eqb_spec (destroy p) 1); [done|]. by rewrite Hrun.
Qed.

(** ** Thread reconfiguration and the negative handle *)

Lemma reconfigure_spawn_returns n : ∀ i pollers_ calloc_ok thread_create,
  0 <= i → (Z.to_nat i + n ≤ length pollers_)%nat →
  ∃ pollers' tr,
    reconfigure_spawn n i pollers_ calloc_ok thread_create = Returns (pollers', tr)
    ∧ length pollers' = length pollers_.
Proof.
  induction n as [|n IH]; intros i pollers_ calloc_ok thread_create Hi Hlen; simpl.
  - eauto.
  - destruct (Z.ltb_spec i 0) as [?|_]; [lia|].
    destruct (lookup_lt_is_Some_2 pollers_ (Z.to_nat i)) as [t Ht]; [lia|].
    rewrite Ht.
    set (step := if t =? 0 then _ else _).
    assert (Hstep : length step.1 = length pollers_).
    { subst step. destruct (t =? 0); [|done]. destruct (calloc_ok i); [|done].
      destruct (thread_create i) as [ret t_id]. destruct (ret =? 0); [|done].
      simpl. apply length_insert. }
    destruct step as [pollers1 tr]. simpl in Hstep.
    destruct (IH (i + 1) pollers1 calloc_ok thread_create) as (ps & tr' & -> & Hps);
      [lia | rewrite Hstep; lia |].
    eexists _, _. split; [done|]. congruence.
Qed.

(** Claim C10.  On a pool whose thread count is not negative,
    [event_reconfigure_threads_epoll] returns 0 for every [value]
    and whatever the allocations and thread creations answer; it leaves
    [eventthreadcount] at 0 in destroy mode and at [value] clamped to
    1..EVENT_MAX_THREADS otherwise, and does not touch the slot table. *)
Theorem reconfigure_threads_always_succeeds p value calloc_ok thread_create :
  config_ok cfg →
  0 <= eventthreadcount p →
  length (pollers p) = Z.to_nat EVENT_MAX_THREADS →
  ∃ p' tr,
    event_reconfigure_threads_epoll p value calloc_ok thread_create
      = Returns (0, p', tr)
    ∧ eventthreadcount p' =
        (if destroy p =? 1 then 0 else Z.max 1 (Z.min value EVENT_MAX_THREADS))
    ∧ (destroy p ≠ 1 → 1 <= eventthreadcount p' <= EVENT_MAX_THREADS)
    ∧ ereg p' = ereg p ∧ destroy p' = destroy p
    ∧ length (pollers p') = length (pollers p).
Proof.
  intros [_ _ _ Hthr] Hold Hlen.
  unfold event_reconfigure_threads_epoll, event_pool_dispatched_unlocked.
  set (value1 := if destroy p =? 1 then 0 else _).
  assert (Hv : value1 = if destroy p =? 1 then 0
                        else Z.max 1 (Z.min value EVENT_MAX_THREADS)).
  { subst value1. destruct (destroy p =? 1); [done|].
    destruct (Z.gtb_spec value EVENT_MAX_THREADS);
      match goal with |- context [?a <=? 0] => destruct (Z.leb_spec a 0) end; lia. }
  assert (Hrange : destroy p ≠ 1 → 1 <= value1 <= EVENT_MAX_THREADS).
  { intros Hd. rewrite Hv. destruct (Z.eqb_spec (destroy p) 1); lia. }
  assert (Hmax : value1 <= EVENT_MAX_THREADS).
  { rewrite Hv. destruct (destroy p =? 1); lia. }
  clearbody value1.
  destruct (lookup_lt_is_Some_2 (pollers p) 0%nat) as [t0 Ht0]; [lia|].
  rewrite Ht0. simpl.
  destruct (negb (t0 =? 0) && (eventthreadcount p <? value1)) eqn:Hgrow.
  - apply andb_true_iff in Hgrow as [_ Hlt%Z.ltb_lt].
    destruct (reconfigure_spawn_returns (Z.to_nat (value1 - eventthreadcount p))
                (eventthreadcount p) (pollers p) calloc_ok thread_create)
      as (ps & tr & -> & Hps); [lia | lia |].
    eexists _, _. split; [done|]. simpl. auto.
  - eexists _, _. split; [done|]. simpl. auto.
Qed.

(** Claim C5, as amended.  With a negative handle both unregister
    variants leave the pool as it is and make no system call; the value
    they return is -1. *)
Theorem unregister_negative_handle_is_noop p fd_ idx_ epoll_ctl_ret :
  idx_ < 0 →
  event_unregister_epoll p fd_ idx_ epoll_ctl_ret = Returns (-1, p, [])
  ∧ event_unregister_close_epoll p fd_ idx_ epoll_ctl_ret = Returns (-1, p, []).
Proof.
  intros Hneg. unfold event_unregister_epoll, event_unregister_close_epoll,
    event_unregister_epoll_common.
  destruct (Z.ltb_spec idx_ 0); [done | lia].
Qed.

(** ** Deallocation and release of a reference *)

Lemma eq_but_used_refl s : eq_but_used s s.
Proof. done. Qed.

Lemma eq_but_used_set_used v s : eq_but_used (set_slots_used v s) s.
Proof. done. Qed.

Lemma eq_but_used_trans a b c : eq_but_used a b → eq_but_used b c → eq_but_used a c.
Proof. unfold eq_but_used. congruence. Qed.

Lemma eq_but_used_fields a b :
  eq_but_used a b →
  fd a = fd b ∧ events a = events b ∧ gen a = gen b ∧ idx a = idx b
  ∧ ref a = ref b ∧ do_close a = do_close b ∧ in_handler a = in_handler b
  ∧ handled_error a = handled_error b ∧ data a = data b ∧ handler a = handler b.
Proof. destruct a, b. unfold eq_but_used. simpl. intros [=]. by subst. Qed.

(** The slots of a pool after [__event_slot_dealloc]. *)
Lemma slot_dealloc_at p i off l s :
  slot_at p l = Some s →
  ∃ s', slot_at (__event_slot_dealloc p i off) l = Some s'
    ∧ eq_but_used s' (if decide ((i, off) = l) then dealloc_slot s else s).
Proof.
  intros Hs. unfold __event_slot_dealloc.
  destruct (slot_at p (i, off)) as [victim|] eqn:Hv.
  2: { exists s. case_decide; [congruence|done]. }
  destruct (fd victim =? -1).
  - rewrite slot_at_set_poller_death, slot_at_upd, Hs.
    repeat case_decide; try congruence; eexists; (split; [reflexivity|]); reflexivity.
  - rewrite slot_at_upd, slot_at_set_poller_death, slot_at_upd, Hs.
    repeat case_decide; try congruence; eexists; (split; [reflexivity|]); reflexivity.
Qed.

Lemma event_slot_dealloc_at p idx_ l l' s :
  slot_of_idx idx_ = Some l → slot_at p l' = Some s →
  ∃ s', slot_at (dealloc_in_table p idx_) l' = Some s'
    ∧ eq_but_used s' (if decide (l = l') then dealloc_slot s else s).
Proof.
  intros Hl Hs. unfold dealloc_in_table. rewrite Hl. destruct l as [i off].
  destruct (ereg p !! i) as [[t|]|] eqn:Ht.
  - apply slot_dealloc_at, Hs.
  - exists s. split; [done|]. case_decide; [|done]. subst.
    unfold slot_at in Hs. simpl in Hs. by rewrite Ht in Hs.
  - exists s. split; [done|]. case_decide; [|done]. subst.
    unfold slot_at in Hs. simpl in Hs. by rewrite Ht in Hs.
Qed.

(** The slot a reference is dropped on, after [unref_in_table]. *)
Lemma event_slot_unref_here p idx_ l s :
  slot_of_idx idx_ = Some l → slot_at p l = Some s →
  ∃ s', slot_at (unref_in_table p l idx_).1 l = Some s'
    ∧ (if wrap_int64 (ref s - 1) =? 0
       then eq_but_used s' (dealloc_slot (set_do_close 0 (set_ref 0 s)))
            ∧ (unref_in_table p l idx_).2
              = (if do_close s =? 0 then [] else [Sys_close (fd s)])
       else s' = set_ref (wrap_int64 (ref s - 1)) s
            ∧ (unref_in_table p l idx_).2 = []).
Proof.
  intros Hl Hs. unfold unref_in_table. rewrite Hs.
  destruct (Z.eqb_spec (wrap_int64 (ref s - 1)) 0) as [E|E].
  - rewrite E. cbn [fst snd].
    set (p2 := slot_upd _ l (slot_upd _ l p)).
    assert (H2 : slot_at p2 l = Some (set_do_close 0 (set_ref 0 s))).
    { subst p2. by rewrite !slot_at_upd_eq, Hs. }
    destruct (event_slot_dealloc_at p2 idx_ l l _ Hl H2) as (s' & Hat & Heq).
    exists s'. by case_decide.
  - cbn [fst snd]. rewrite slot_at_upd_eq, Hs. eexists. split; [reflexivity|done].
Qed.

(** The common frame of the API: look the slot up, leave it as [s1]
    under the lock, drop the reference. *)
Lemma lookup_lock_unref p idx_ l s s1 :
  slot_of_idx idx_ = Some l → slot_at p l = Some s →
  int64_range (ref s) →
  ref s1 = wrap_int64 (ref s + 1) →
  let run := unref_in_table (slot_upd (λ _, s1) l (event_slot_ref l p)) l idx_ in
  ∃ s', slot_at run.1 l = Some s'
    ∧ ref s' = ref s
    ∧ (ref s ≠ 0 → s' = set_ref (ref s) s1 ∧ run.2 = [])
    ∧ (ref s = 0 →
       eq_but_used s' (dealloc_slot (set_do_close 0 (set_ref 0 s1)))
       ∧ run.2 = if do_close s1 =? 0 then [] else [Sys_close (fd s1)]).
Proof.
  intros Hl Hs Hr H1 run.
  assert (H2 : slot_at (slot_upd (λ _, s1) l (event_slot_ref l p)) l = Some s1).
  { unfold event_slot_ref. by rewrite !slot_at_upd_eq, Hs. }
  destruct (event_slot_unref_here _ idx_ l s1 Hl H2) as (s' & Hat & Hcase).
  fold run in Hat, Hcase.
  rewrite H1, (wrap_int64_inc_dec _ Hr) in Hcase.
  exists s'. split; [done|].
  destruct (Z.eqb_spec (ref s) 0) as [E|E].
  - destruct Hcase as [Heq Htr]. split; [|split; [intros; lia | done]].
    apply eq_but_used_fields in Heq as (_ & _ & _ & _ & -> & _). by rewrite E.
  - destruct Hcase as [-> Htr]. split; [done|]. split; [done | intros; lia].
Qed.

(** The other slots after [unref_in_table]. *)
Lemma event_slot_unref_other p idx_ l l' s :
  slot_of_idx idx_ = Some l → l ≠ l' → slot_at p l' = Some s →
  ∃ s', slot_at (unref_in_table p l idx_).1 l' = Some s' ∧ eq_but_used s' s.
Proof.
  intros Hl Hne Hs. unfold unref_in_table.
  destruct (slot_at p l) as [s0|] eqn:H0; [|by exists s].
  destruct (wrap_int64 (ref s0 - 1) =? 0); cbn [fst].
  - set (p2 := slot_upd _ l (slot_upd _ l p)).
    assert (H2 : slot_at p2 l' = Some s).
    { subst p2. by rewrite !slot_at_upd_ne. }
    destruct (event_slot_dealloc_at p2 idx_ l l' _ Hl H2) as (s' & Hat & Heq).
    exists s'. by case_decide.
  - rewrite slot_at_upd_ne by done. by exists s.
Qed.


Lemma handler_calls_app a b : handler_calls (a ++ b) = handler_calls a ++ handler_calls b.
Proof. apply omap_app. Qed.

Lemma handler_calls_unref p l idx_ : handler_calls (unref_in_table p l idx_).2 = [].
Proof.
  unfold unref_in_table. destruct (slot_at p l) as [s|]; [|done].
  destruct (_ =? 0); [|done]. simpl. by destruct (_ =? 0).
Qed.

Lemma epoll_ctl_calls_app a b :
  epoll_ctl_calls (a ++ b) = epoll_ctl_calls a ++ epoll_ctl_calls b.
Proof. apply omap_app. Qed.

Lemma epoll_ctl_calls_unref p l idx_ : epoll_ctl_calls (unref_in_table p l idx_).2 = [].
Proof.
  unfold unref_in_table. destruct (slot_at p l) as [s|]; [|done].
  destruct (_ =? 0); [|done]. simpl. by destruct (_ =? 0).
Qed.

Lemma land_err_hup_nonzero (mask : Z) :
  Z.land mask (Z.lor EPOLLERR EPOLLHUP) ≠ 0
  ↔ Z.testbit mask 3 = true ∨ Z.testbit mask 4 = true.
Proof.
  assert (Hbits : ∀ n, 0 <= n →
            Z.testbit (Z.lor EPOLLERR EPOLLHUP) n = (n =? 3) || (n =? 4)).
  { intros n Hn. rewrite Z.lor_spec.
    change EPOLLERR with (2 ^ 3). change EPOLLHUP with (2 ^ 4).
    rewrite !Z.pow2_bits_eqb by lia. by rewrite (Z.eqb_sym 3), (Z.eqb_sym 4). }
  split.
  - intros Hnz.
    destruct (Z.testbit mask 3) eqn:H3; [by left|].
    destruct (Z.testbit mask 4) eqn:H4; [by right|].
    exfalso. apply Hnz. apply Z.bits_inj'. intros n Hn.
    rewrite Z.land_spec, Z.bits_0, Hbits by done.
    destruct (Z.eqb_spec n 3) as [->|]; [by rewrite H3|].
    destruct (Z.eqb_spec n 4) as [->|]; [by rewrite H4|].
    apply andb_false_r.
  - intros Hset Hz.
    assert (H3 : Z.testbit (Z.land mask (Z.lor EPOLLERR EPOLLHUP)) 3 = Z.testbit mask 3).
    { rewrite Z.land_spec, Hbits by lia. apply andb_true_r. }
    assert (H4 : Z.testbit (Z.land mask (Z.lor EPOLLERR EPOLLHUP)) 4 = Z.testbit mask 4).
    { rewrite Z.land_spec, Hbits by lia. apply andb_true_r. }
    rewrite Hz, Z.bits_0 in H3, H4. destruct Hset; congruence.
Qed.

(** ** The dispatch step *)

Lemma set_ref_set_ref a b s : set_ref a (set_ref b s) = set_ref a s.
Proof. done. Qed.

Lemma set_ref_same s : set_ref (ref s) s = s.
Proof. by destruct s. Qed.

(** The block under the lock neither reads nor writes [ref]. *)
Lemma dispatch_locked_set_ref r s event :
  event_dispatch_epoll_handler_locked (set_ref r s) event =
  let '(s1, h, prev, logs) := event_dispatch_epoll_handler_locked s event in
  (set_ref r s1, h, prev, logs).
Proof.
  unfold event_dispatch_epoll_handler_locked. cbn [fd gen in_handler handled_error set_ref].
  destruct (fd s =? -1); [done|].
  destruct (negb (ev_gen event =? gen s)); [done|].
  destruct (in_handler s >? 0); [done|].
  by destruct (negb (handled_error s =? 0)).
Qed.

Lemma dispatch_locked_ref s event :
  ref (event_dispatch_epoll_handler_locked s event).1.1.1 = ref s.
Proof.
  unfold event_dispatch_epoll_handler_locked.
  destruct (fd s =? -1); [done|].
  destruct (negb (ev_gen event =? gen s)); [done|].
  destruct (in_handler s >? 0); [done|].
  by destruct (negb (handled_error s =? 0)).
Qed.

(** The decision of the block under the lock, and the call that follows. *)
Lemma dispatch_locked_cases s event :
  let '(s1, h, prev, logs) := event_dispatch_epoll_handler_locked s event in
  handler_calls logs = []
  ∧ ((fd s ≠ -1 ∧ ev_gen event = gen s ∧ in_handler s <= 0 ∧ handled_error s = 0
      ∧ h = handler s ∧ prev = false
      ∧ s1 = set_in_handler (wrap_int (in_handler s + 1))
               (set_handled_error
                  (Z.land (ev_events event) (Z.lor EPOLLERR EPOLLHUP)) s))
     ∨ (¬ (fd s ≠ -1 ∧ ev_gen event = gen s ∧ in_handler s <= 0
           ∧ handled_error s = 0)
        ∧ s1 = s ∧ (h = 0 ∨ prev = true))).
Proof.
  unfold event_dispatch_epoll_handler_locked.
  destruct (Z.eqb_spec (fd s) (-1)); [split; [done|right; split; [tauto|auto]]|].
  destruct (Z.eqb_spec (ev_gen event) (gen s)); simpl;
    [|split; [done|right; split; [tauto|auto]]].
  destruct (Z.gtb_spec (in_handler s) 0);
    [split; [done|right; split; [lia|auto]]|].
  destruct (Z.eqb_spec (handled_error s) 0); simpl;
    [|split; [done|right; split; [tauto|auto]]].
  split; [done|]. left. repeat split; (done || lia).
Qed.

(** Claim C1, as amended.  For an event whose handle finds a slot,
    [event_dispatch_epoll_handler] returns 0 and calls the handler if and
    only if the slot has [fd <> -1], the generation of the event, an
    [in_handler] that is not positive, no [handled_error] and a handler
    that is not NULL.  When it calls, the call has the arguments taken
    from the slot and the event mask, and the block under the lock has
    incremented [in_handler] (to 1 when it was 0) and set [handled_error]
    to the error and hangup bits of the mask.  When it does not call, a
    slot with a handler is left as it was.  In every case the reference
    of the lookup is dropped again. *)
Theorem dispatch_invokes_handler_iff p event l s :
  slot_of_idx (ev_idx event) = Some l →
  slot_at p l = Some s →
  int64_range (ref s) →
  let s1 := (event_dispatch_epoll_handler_locked s event).1.1.1 in
  ∃ p' tr s',
    event_dispatch_epoll_handler p event = Returns (0, p', tr)
    ∧ (handler_calls tr ≠ []
       ↔ fd s ≠ -1 ∧ ev_gen event = gen s ∧ in_handler s <= 0
         ∧ handled_error s = 0 ∧ handler s ≠ 0)
    ∧ (handler_calls tr ≠ [] →
       handler_calls tr =
         [HandlerCall (handler s) (fd s) (ev_idx event) (ev_gen event) (data s)
            (Z.land (ev_events event) (Z.lor EPOLLIN EPOLLPRI))
            (Z.land (ev_events event) EPOLLOUT)
            (Z.land (ev_events event) (Z.lor EPOLLERR EPOLLHUP)) 0]
       ∧ in_handler s1 = wrap_int (in_handler s + 1)
       ∧ (in_handler s = 0 → in_handler s1 = 1)
       ∧ handled_error s1 = Z.land (ev_events event) (Z.lor EPOLLERR EPOLLHUP)
       ∧ (handled_error s1 ≠ 0
          ↔ Z.testbit (ev_events event) 3 = true
            ∨ Z.testbit (ev_events event) 4 = true))
    ∧ (handler_calls tr = [] → handler s ≠ 0 → s1 = s)
    ∧ slot_at p' l = Some s' ∧ ref s' = ref s
    ∧ (ref s ≠ 0 → s' = s1).
Proof.
  intros Hl Hs Hr s1.
  unfold event_dispatch_epoll_handler.
  destruct (event_slot_get_found p _ l s Hl Hs) as [-> ->].
  rewrite dispatch_locked_set_ref.
  pose proof (dispatch_locked_cases s event) as Hcases.
  pose proof (dispatch_locked_ref s event) as Href. fold s1 in Href.
  destruct (event_dispatch_epoll_handler_locked s event) as [[[s1' h] prev] logs] eqn:Hlk.
  simpl in s1. subst s1. destruct Hcases as [Hlogs Hcases].
  destruct (lookup_lock_unref p (ev_idx event) l s (set_ref (wrap_int64 (ref s + 1)) s1')
              Hl Hs Hr eq_refl) as (s' & Hat & Href' & Halive & _).
  cbv zeta in Hat, Href', Halive.
  rewrite (unref_after_lock p (ev_idx event) l s _ Hl Hs).
  destruct (unref_in_table _ l (ev_idx event)) as [p3 tr3] eqn:Hun.
  simpl in Hat, Halive.
  assert (Hcalls3 : handler_calls tr3 = []).
  { pose proof (handler_calls_unref
                  (slot_upd (λ _, set_ref (wrap_int64 (ref s + 1)) s1') l
                            (event_slot_ref l p)) l (ev_idx event)) as H.
    by rewrite Hun in H. }
  eexists p3, _, s'. split; [reflexivity|].
  rewrite !handler_calls_app, Hlogs, Hcalls3, app_nil_r. cbn [app].
  assert (Hfinal : ref s ≠ 0 → s' = s1').
  { intros Hnz. destruct (Halive Hnz) as [-> _].
    rewrite set_ref_set_ref, <- Href. apply set_ref_same. }
  unfold event_dispatch_epoll_handler_call. cbn [fd data set_ref].
  destruct Hcases as [(Hfd & Hgen & Hin & Herr & -> & -> & ->)
                     |(Hnot & -> & Hskip)].
  - destruct (Z.eqb_spec (handler s) 0) as [Hh|Hh]; simpl.
    + split; [split; [done|intuition congruence]|]. split; [done|]. split; [done|]. done.
    + split; [split; [done|intuition congruence]|]. split; [|split; [done|done]].
      intros _. split; [done|]. split; [done|].
      split; [intros ->; reflexivity|]. split; [done|].
      apply land_err_hup_nonzero.
  - assert (Hnone : (if h =? 0 then None
                     else if prev then None
                     else Some (HandlerCall h (fd s) (ev_idx event) (ev_gen event)
                                  (data s)
                                  (Z.land (ev_events event) (Z.lor EPOLLIN EPOLLPRI))
                                  (Z.land (ev_events event) EPOLLOUT)
                                  (Z.land (ev_events event) (Z.lor EPOLLERR EPOLLHUP))
                                  0)) = None).
    { destruct Hskip as [->| ->]; [done|]. by destruct (h =? 0). }
    rewrite Hnone. simpl.
    split; [split; [done|intuition congruence]|]. split; [done|]. done.
Qed.

(** ** select_on and handled *)

Lemma pool_fd_slot_upd f l p : pool_fd (slot_upd f l p) = pool_fd p.
Proof. done. Qed.

Lemma pool_fd_event_slot_unref p l idx_ : pool_fd (unref_in_table p l idx_).1 = pool_fd p.
Proof.
  unfold unref_in_table. destruct (slot_at p l) as [s|]; [|done].
  destruct (_ =? 0); [|done]. cbn [fst]. unfold dealloc_in_table.
  destruct (slot_of_idx idx_) as [[i off]|]; [|done].
  destruct (_ !! i) as [[t|]|]; try done.
  unfold __event_slot_dealloc. destruct (slot_at _ (i, off)); [|done].
  by destruct (_ =? -1).
Qed.

(** [event_select_on_epoll] on a slot that is found and passes the assert. *)
Lemma select_on_found p fd_ idx_ poll_in poll_out epoll_ctl_ret l s :
  slot_of_idx idx_ = Some l → slot_at p l = Some s → fd s = fd_ →
  int64_range (ref s) →
  let su := (__slot_update_events s poll_in poll_out).1 in
  ∃ p' tr s',
    event_select_on_epoll p fd_ idx_ poll_in poll_out epoll_ctl_ret
      = Returns (idx_, p', tr)
    ∧ epoll_ctl_calls tr =
        (if in_handler s =? 0
         then [Epoll_ctl (pool_fd p) EPOLL_CTL_MOD fd_
                         (Some (EpollEvent (events su) idx_ (gen s)))]
         else [])
    ∧ pool_fd p' = pool_fd p
    ∧ slot_at p' l = Some s' ∧ ref s' = ref s ∧ (ref s ≠ 0 → s' = su).
Proof.
  intros Hl Hs Hfd Hr su. unfold event_select_on_epoll.
  destruct (event_slot_get_found p _ l s Hl Hs) as [-> ->].
  cbn [fd set_ref]. rewrite Hfd, Z.eqb_refl. cbn [negb].
  unfold event_select_on_epoll_locked.
  pose proof (slot_update_events_frame s poll_in poll_out) as Hframe. fold su in Hframe.
  assert (Hsu : __slot_update_events (set_ref (wrap_int64 (ref s + 1)) s) poll_in poll_out
                = (set_ref (wrap_int64 (ref s + 1)) su,
                   (__slot_update_events s poll_in poll_out).2)).
  { subst su. unfold __slot_update_events.
    by tri_valued_cases poll_in poll_out. }
  rewrite Hsu. cbn [in_handler set_ref events gen].
  assert (Hin : in_handler su = in_handler s) by (by rewrite Hframe).
  assert (Hgen : gen su = gen s) by (by rewrite Hframe).
  assert (Hrf : ref su = ref s) by (by rewrite Hframe).
  assert (Hlogs : epoll_ctl_calls (__slot_update_events s poll_in poll_out).2 = []).
  { unfold __slot_update_events.
    by tri_valued_cases poll_in poll_out. }
  rewrite Hin, Hgen.
  destruct (lookup_lock_unref p idx_ l s (set_ref (wrap_int64 (ref s + 1)) su)
              Hl Hs Hr eq_refl) as (s' & Hat & Href' & Halive & _).
  cbv zeta in Hat, Href', Halive.
  pose proof (epoll_ctl_calls_unref
                (slot_upd (λ _, set_ref (wrap_int64 (ref s + 1)) su) l
                          (event_slot_ref l p)) l idx_) as Hctl.
  pose proof (pool_fd_event_slot_unref
                (slot_upd (λ _, set_ref (wrap_int64 (ref s + 1)) su) l
                          (event_slot_ref l p)) l idx_) as Hpfd.
  assert (Hfinal : ref s ≠ 0 → s' = su).
  { intros Hnz. destruct (Halive Hnz) as [-> _].
    rewrite set_ref_set_ref, <- Hrf. apply set_ref_same. }
  destruct (in_handler s =? 0).
  - rewrite (unref_after_lock p idx_ l s _ Hl Hs).
    destruct (unref_in_table _ l idx_) as [p3 tr3]. cbn [fst snd] in *.
    eexists p3, _, s'. split; [reflexivity|].
    rewrite !epoll_ctl_calls_app, Hlogs, Hctl.
    split; [by destruct (epoll_ctl_ret =? -1)|]. done.
  - rewrite (unref_after_lock p idx_ l s _ Hl Hs).
    destruct (unref_in_table _ l idx_) as [p3 tr3]. cbn [fst snd] in *.
    eexists p3, _, s'. split; [reflexivity|].
    rewrite !epoll_ctl_calls_app, Hlogs, Hctl. done.
Qed.

(** [event_handled_epoll] on a slot that is found and passes the assert. *)
Lemma handled_found p fd_ idx_ gen_ epoll_ctl_ret l s :
  slot_of_idx idx_ = Some l → slot_at p l = Some s → fd s = fd_ →
  int64_range (ref s) →
  let s1 := set_in_handler (wrap_int (in_handler s - 1)) s in
  let rearm := (gen_ =? gen s) && (in_handler s1 =? 0) in
  ∃ p' tr s',
    event_handled_epoll p fd_ idx_ gen_ epoll_ctl_ret
      = Returns (if rearm then epoll_ctl_ret else 0, p', tr)
    ∧ epoll_ctl_calls tr =
        (if rearm
         then [Epoll_ctl (pool_fd p) EPOLL_CTL_MOD fd_
                         (Some (EpollEvent (events s) idx_ gen_))]
         else [])
    ∧ pool_fd p' = pool_fd p
    ∧ slot_at p' l = Some s' ∧ ref s' = ref s ∧ (ref s ≠ 0 → s' = s1).
Proof.
  intros Hl Hs Hfd Hr s1 rearm. unfold event_handled_epoll.
  destruct (event_slot_get_found p _ l s Hl Hs) as [-> ->].
  cbn [fd set_ref]. rewrite Hfd, Z.eqb_refl. cbn [negb].
  unfold event_handled_epoll_locked. cbn [in_handler gen events set_in_handler set_ref].
  destruct (lookup_lock_unref p idx_ l s (set_ref (wrap_int64 (ref s + 1)) s1)
              Hl Hs Hr eq_refl) as (s' & Hat & Href' & Halive & _).
  cbv zeta in Hat, Href', Halive.
  pose proof (epoll_ctl_calls_unref
                (slot_upd (λ _, set_ref (wrap_int64 (ref s + 1)) s1) l
                          (event_slot_ref l p)) l idx_) as Hctl.
  pose proof (pool_fd_event_slot_unref
                (slot_upd (λ _, set_ref (wrap_int64 (ref s + 1)) s1) l
                          (event_slot_ref l p)) l idx_) as Hpfd.
  assert (Hfinal : ref s ≠ 0 → s' = s1).
  { intros Hnz. destruct (Halive Hnz) as [-> _]. by rewrite set_ref_set_ref. }
  subst rearm s1. cbn [in_handler set_in_handler] in *.
  destruct (gen_ =? gen s); cbn [negb andb];
    [destruct (wrap_int (in_handler s - 1) =? 0)|];
    (rewrite (unref_after_lock p idx_ l s _ Hl Hs);
     destruct (unref_in_table _ l idx_) as [p3 tr3]; cbn [fst snd] in *;
     eexists p3, _, s'; (split; [reflexivity|]);
     rewrite !epoll_ctl_calls_app, Hctl; done).
Qed.

(** A handle inside the table of a pool of the regular shape meets a NULL
    bucket or denotes a slot. *)
Lemma handle_in_table p idx_ :
  0 < EVENT_EPOLL_SLOTS →
  pool_wf p = true →
  0 <= idx_ < EVENT_EPOLL_TABLES * EVENT_EPOLL_SLOTS →
  event_slot_get p idx_ = Returns None
  ∨ ∃ l s, slot_of_idx idx_ = Some l ∧ slot_at p l = Some s.
Proof.
  intros Hslots Hwf Hidx.
  assert (Hq : 0 <= Z.quot idx_ EVENT_EPOLL_SLOTS < EVENT_EPOLL_TABLES).
  { rewrite Z.quot_div_nonneg by lia. split; [apply Z.div_pos; lia|].
    apply Z.div_lt_upper_bound; lia. }
  assert (Hr : 0 <= Z.rem idx_ EVENT_EPOLL_SLOTS < EVENT_EPOLL_SLOTS).
  { apply Z.rem_bound_pos; lia. }
  destruct (lookup_lt_is_Some_2 (ereg p) (Z.to_nat (Z.quot idx_ EVENT_EPOLL_SLOTS)))
    as [ot Hot]; [rewrite (pool_wf_length p Hwf); lia|].
  destruct ot as [table|].
  - right.
    destruct (lookup_lt_is_Some_2 table (Z.to_nat (Z.rem idx_ EVENT_EPOLL_SLOTS)))
      as [s Hs]; [rewrite (pool_wf_table p _ table Hwf Hot); lia|].
    eexists _, s. split.
    + unfold slot_of_idx.
      destruct (Z.leb_spec 0 (Z.quot idx_ EVENT_EPOLL_SLOTS)); [|lia].
      destruct (Z.leb_spec 0 (Z.rem idx_ EVENT_EPOLL_SLOTS)); [|lia]. reflexivity.
    + by apply (slot_at_table p _ _ table).
  - left. unfold event_slot_get.
    destruct (Z.ltb_spec (Z.quot idx_ EVENT_EPOLL_SLOTS) 0); [lia|]. by rewrite Hot.
Qed.

(** The outputs of a release are calls of [sys_close]. *)
Lemma unref_in_table_closes p l idx_ e :
  e ∈ (unref_in_table p l idx_).2 → ∃ x, e = Sys_close x.
Proof.
  unfold unref_in_table. destruct (slot_at p l) as [s|]; cbn [snd];
    [|by intros ?%elem_of_nil].
  destruct (_ =? 0); cbn [snd]; [|by intros ?%elem_of_nil].
  destruct (_ =? 0); [by intros ?%elem_of_nil|].
  intros ->%list_elem_of_singleton. by eexists.
Qed.

(** The messages of [__slot_update_events] are about its arguments. *)
Lemma slot_update_events_logs s poll_in poll_out e :
  e ∈ (__slot_update_events s poll_in poll_out).2 →
  (∃ v, e = Log (LG_MSG_INVALID_POLL_IN v)) ∨ (∃ v, e = Log (LG_MSG_INVALID_POLL_OUT v)).
Proof.
  unfold __slot_update_events.
  tri_valued_cases poll_in poll_out; cbn [snd app]; intros He;
    repeat (apply elem_of_cons in He as [->|He]; [eauto|]);
    by apply elem_of_nil in He.
Qed.

(** The run of [event_select_on_epoll] on a slot that is found and passes
    the assert. *)
Lemma select_on_run p fd_ idx_ poll_in poll_out epoll_ctl_ret l s :
  slot_of_idx idx_ = Some l → slot_at p l = Some s → fd s = fd_ →
  let su := (__slot_update_events s poll_in poll_out).1 in
  let rel :=
    unref_in_table (slot_upd (λ _, set_ref (wrap_int64 (ref s + 1)) su) l
                             (event_slot_ref l p)) l idx_ in
  event_select_on_epoll p fd_ idx_ poll_in poll_out epoll_ctl_ret
  = Returns (idx_, rel.1,
             ((__slot_update_events s poll_in poll_out).2
              ++ (if in_handler s =? 0
                  then [Epoll_ctl (pool_fd p) EPOLL_CTL_MOD fd_
                          (Some (EpollEvent (events su) idx_ (gen s)))]
                       ++ (if epoll_ctl_ret =? -1
                           then [Log LG_MSG_EPOLL_FD_MODIFY_FAILED] else [])
                  else []))
             ++ rel.2).
Proof.
  intros Hl Hs Hfd su rel. unfold event_select_on_epoll.
  destruct (event_slot_get_found p _ l s Hl Hs) as [-> ->].
  cbn [fd set_ref]. rewrite Hfd, Z.eqb_refl. cbn [negb].
  unfold event_select_on_epoll_locked.
  pose proof (slot_update_events_frame s poll_in poll_out) as Hframe. fold su in Hframe.
  assert (Hsu : __slot_update_events (set_ref (wrap_int64 (ref s + 1)) s) poll_in poll_out
                = (set_ref (wrap_int64 (ref s + 1)) su,
                   (__slot_update_events s poll_in poll_out).2)).
  { subst su. unfold __slot_update_events.
    by tri_valued_cases poll_in poll_out. }
  rewrite Hsu. cbn [in_handler set_ref events gen].
  assert (Hin : in_handler su = in_handler s) by (by rewrite Hframe).
  assert (Hgen : gen su = gen s) by (by rewrite Hframe).
  rewrite Hin, Hgen.
  destruct (in_handler s =? 0);
    rewrite (unref_after_lock p idx_ l s _ Hl Hs); fold rel;
    destruct rel as [p3 tr3]; cbn [fst snd]; by rewrite ?app_nil_r, <- ?app_assoc.
Qed.

(** Claim C7, as amended.  For a handle inside the table (the code checks
    no bound), [event_select_on_epoll] returns -1 when the bucket of the
    handle is NULL, with the pool as it was and the message that the slot
    was not found; otherwise it finds the slot and, the fd being the one
    registered there, returns the handle whatever [epoll_ctl] answers.
    The EPOLL_CTL_MOD is attempted when no handler is in progress, and a
    refusal is only logged: it adds LG_MSG_EPOLL_FD_MODIFY_FAILED to the
    outputs and changes neither the result nor the pool that is left.
    The result is negative exactly when the lookup fails. *)
Theorem select_on_returns_handle p fd_ idx_ poll_in poll_out epoll_ctl_ret :
  0 < EVENT_EPOLL_SLOTS →
  pool_wf p = true →
  0 <= idx_ < EVENT_EPOLL_TABLES * EVENT_EPOLL_SLOTS →
  (∀ l s, slot_of_idx idx_ = Some l → slot_at p l = Some s → fd s = fd_) →
  ∃ r p' tr,
    event_select_on_epoll p fd_ idx_ poll_in poll_out epoll_ctl_ret
      = Returns (r, p', tr)
    ∧ (r < 0 ↔ event_slot_get p idx_ = Returns None)
    ∧ (event_slot_get p idx_ = Returns None →
       r = -1 ∧ p' = p ∧ tr = [Log LG_MSG_SLOT_NOT_FOUND])
    ∧ (∀ l s, slot_of_idx idx_ = Some l → slot_at p l = Some s →
       r = idx_
       ∧ epoll_ctl_calls tr =
           (if in_handler s =? 0
            then [Epoll_ctl (pool_fd p) EPOLL_CTL_MOD fd_
                    (Some (EpollEvent
                             (events (__slot_update_events s poll_in poll_out).1)
                             idx_ (gen s)))]
            else [])
       ∧ (Log LG_MSG_EPOLL_FD_MODIFY_FAILED ∈ tr
          ↔ in_handler s = 0 ∧ epoll_ctl_ret = -1)
       ∧ ∀ other_ret, ∃ tr',
           event_select_on_epoll p fd_ idx_ poll_in poll_out other_ret
             = Returns (idx_, p', tr')).
Proof.
  intros Hslots Hwf Hidx Hfd.
  destruct (handle_in_table p idx_ Hslots Hwf Hidx) as [Hnone|(l & s & Hl & Hs)].
  - exists (-1), p, [Log LG_MSG_SLOT_NOT_FOUND].
    unfold event_select_on_epoll. rewrite Hnone.
    split; [done|]. split; [split; [done|lia]|]. split; [done|].
    intros l s Hl Hs. destruct (event_slot_get_found p idx_ l s Hl Hs) as [Hget _].
    congruence.
  - destruct (event_slot_get_found p idx_ l s Hl Hs) as [Hget _].
    pose proof (select_on_run p fd_ idx_ poll_in poll_out epoll_ctl_ret l s Hl Hs
                  (Hfd l s Hl Hs)) as Hrun. cbv zeta in Hrun.
    eexists _, _, _. split; [exact Hrun|].
    split; [split; [lia|congruence]|]. split; [congruence|].
    intros l' s' Hl' Hs'. rewrite Hl in Hl'. injection Hl' as <-.
    rewrite Hs in Hs'. injection Hs' as <-.
    split; [done|].
    pose proof (epoll_ctl_calls_unref
                  (slot_upd (λ _, set_ref (wrap_int64 (ref s + 1))
                                    (__slot_update_events s poll_in poll_out).1) l
                            (event_slot_ref l p)) l idx_) as Hctl.
    assert (Hlogs : epoll_ctl_calls (__slot_update_events s poll_in poll_out).2 = []).
    { unfold __slot_update_events. by tri_valued_cases poll_in poll_out. }
    split.
    { rewrite !epoll_ctl_calls_app, Hlogs, Hctl, app_nil_r. cbn [app].
      destruct (in_handler s =? 0); [|done]. by destruct (epoll_ctl_ret =? -1). }
    split.
    { rewrite !elem_of_app. split.
      - intros [[He|He]|He].
        + apply slot_update_events_logs in He as [[v Hv]|[v Hv]]; done.
        + destruct (Z.eqb_spec (in_handler s) 0) as [E|E];
            [|by apply elem_of_nil in He].
          apply elem_of_cons in He as [?|He]; [done|].
          destruct (Z.eqb_spec epoll_ctl_ret (-1)); [done|by apply elem_of_nil in He].
        + apply unref_in_table_closes in He as [x Hx]. done.
      - intros [-> ->]. left. right. cbn. apply list_elem_of_further, list_elem_of_here. }
    intros other_ret. eexists.
    apply (select_on_run p fd_ idx_ poll_in poll_out other_ret l s Hl Hs (Hfd l s Hl Hs)).
Qed.

(** Claim C2.  [event_handled_epoll] on a slot it finds decrements
    [in_handler] and changes nothing else in the slot; it calls
    [epoll_ctl] exactly when [gen] is the generation of the slot and
    [in_handler] has come back to zero, with EPOLL_CTL_MOD, the events
    mask of the slot and the payload (handle, gen).  A select_on made
    while [in_handler] is positive makes no [epoll_ctl] call, and the
    mask it leaves is the one the re-arm of the next handled carries. *)
Theorem handled_rearms_with_latest_events p fd_ idx_ gen_ epoll_ctl_ret l s :
  slot_of_idx idx_ = Some l →
  slot_at p l = Some s →
  fd s = fd_ →
  int64_range (ref s) → ref s ≠ 0 →
  INT_MIN < in_handler s <= INT_MAX →
  let rearm := (gen_ =? gen s) && (in_handler s =? 1) in
  (∃ p' tr,
     event_handled_epoll p fd_ idx_ gen_ epoll_ctl_ret
       = Returns (if rearm then epoll_ctl_ret else 0, p', tr)
     ∧ epoll_ctl_calls tr =
         (if rearm
          then [Epoll_ctl (pool_fd p) EPOLL_CTL_MOD fd_
                          (Some (EpollEvent (events s) idx_ gen_))]
          else [])
     ∧ slot_at p' l = Some (set_in_handler (in_handler s - 1) s))
  ∧ (0 < in_handler s →
     ∀ poll_in poll_out select_ret,
     ∃ p1 tr1 p2 tr2,
       event_select_on_epoll p fd_ idx_ poll_in poll_out select_ret
         = Returns (idx_, p1, tr1)
       ∧ epoll_ctl_calls tr1 = []
       ∧ event_handled_epoll p1 fd_ idx_ (gen s) epoll_ctl_ret
         = Returns (if in_handler s =? 1 then epoll_ctl_ret else 0, p2, tr2)
       ∧ epoll_ctl_calls tr2 =
           (if in_handler s =? 1
            then [Epoll_ctl (pool_fd p) EPOLL_CTL_MOD fd_
                    (Some (EpollEvent
                             (events (__slot_update_events s poll_in poll_out).1)
                             idx_ (gen s)))]
            else [])).
Proof.
  intros Hl Hs Hfd Hr Hnz Hin rearm.
  assert (Hdec : wrap_int (in_handler s - 1) = in_handler s - 1).
  { apply wrap_int_small. unfold int_range, INT_MIN, INT_MAX in *. lia. }
  assert (Hone : ∀ x, x = in_handler s → (x - 1 =? 0) = (x =? 1)).
  { intros x _. destruct (Z.eqb_spec (x - 1) 0), (Z.eqb_spec x 1); lia. }
  split.
  - destruct (handled_found p fd_ idx_ gen_ epoll_ctl_ret l s Hl Hs Hfd Hr)
      as (p' & tr & s' & Hrun & Hctl & _ & Hat & _ & Hfinal).
    cbn [in_handler set_in_handler] in Hrun, Hctl.
    rewrite Hdec, (Hone _ eq_refl) in Hrun, Hctl.
    exists p', tr. split; [done|]. split; [done|].
    by rewrite Hat, (Hfinal Hnz), Hdec.
  - intros Hpos poll_in poll_out select_ret.
    destruct (select_on_found p fd_ idx_ poll_in poll_out select_ret l s Hl Hs Hfd Hr)
      as (p1 & tr1 & s1 & Hrun1 & Hctl1 & Hpfd & Hat1 & Href1 & Hfinal1).
    specialize (Hfinal1 Hnz). subst s1.
    pose proof (slot_update_events_frame s poll_in poll_out) as Hframe.
    set (su := (__slot_update_events s poll_in poll_out).1) in *.
    assert (Hfd' : fd su = fd_) by (by rewrite Hframe).
    assert (Href' : ref su = ref s) by (by rewrite Hframe).
    assert (Hin' : in_handler su = in_handler s) by (by rewrite Hframe).
    assert (Hgen' : gen su = gen s) by (by rewrite Hframe).
    destruct (handled_found p1 fd_ idx_ (gen s) epoll_ctl_ret l su Hl Hat1 Hfd')
      as (p2 & tr2 & s2 & Hrun2 & Hctl2 & _); [by rewrite Href'|].
    cbn [in_handler set_in_handler] in Hrun2, Hctl2.
    rewrite Hin', Hgen', Z.eqb_refl, Hdec, (Hone _ eq_refl) in Hrun2, Hctl2.
    cbn [andb] in Hrun2, Hctl2. rewrite Hpfd in Hctl2.
    exists p1, tr1, p2, tr2. split; [done|]. split; [|done].
    rewrite Hctl1. destruct (Z.eqb_spec (in_handler s) 0); [lia|done].
Qed.

(** Claim C6, as amended.  When EPOLL_CTL_DEL fails, unregister returns
    -1 and still drops both references.  It does not itself touch [gen]
    or [do_close]: the slot is left as it was, one reference less, unless
    that was the last reference, in which case the slot is deallocated
    and the deallocation increments [gen]. *)
Theorem unregister_detach_failure_releases p fd_ idx_ do_close_ l s :
  0 < EVENT_EPOLL_SLOTS →
  slot_of_idx idx_ = Some l →
  slot_at p l = Some s →
  fd s = fd_ →
  1 <= ref s < INT64_MAX →
  ∃ p' tr s',
    event_unregister_epoll_common p fd_ idx_ do_close_ (-1) = Returns (-1, p', tr)
    ∧ epoll_ctl_calls tr = [Epoll_ctl (pool_fd p) EPOLL_CTL_DEL fd_ None]
    ∧ slot_at p' l = Some s'
    ∧ ref s' = ref s - 1
    ∧ (ref s ≠ 1 → s' = set_ref (ref s - 1) s)
    ∧ (ref s = 1 →
       eq_but_used s' (dealloc_slot (set_do_close 0 (set_ref 0 s)))
       ∧ gen s' = wrap_int (gen s + 1) ∧ fd s' = -1).
Proof.
  intros Hslots Hl Hs Hfd Hr.
  destruct (slot_of_idx_Some idx_ l Hslots Hl) as [H0 _].
  unfold event_unregister_epoll_common.
  destruct (Z.ltb_spec idx_ 0); [lia|].
  destruct (event_slot_get_found p _ l s Hl Hs) as [-> Hget].
  rewrite Hget. cbn [fd set_ref]. rewrite Hfd, Z.eqb_refl. cbn [negb].
  unfold event_unregister_epoll_locked. rewrite Z.eqb_refl.
  (* first release: the reference of the lookup *)
  assert (Hinc : wrap_int64 (ref s + 1) = ref s + 1).
  { apply wrap_int64_small. unfold int64_range, INT64_MIN, INT64_MAX in *. lia. }
  set (p2 := slot_upd _ l (event_slot_ref l p)).
  assert (H2 : slot_at p2 l = Some (set_ref (ref s + 1) s)).
  { subst p2. by rewrite slot_at_upd_eq, Hget, Hinc. }
  destruct (event_slot_unref_here p2 idx_ l _ Hl H2) as (s3 & Hat3 & Hcase3).
  cbn [ref set_ref] in Hcase3.
  replace (ref s + 1 - 1) with (ref s) in Hcase3 by lia.
  rewrite wrap_int64_small in Hcase3
    by (unfold int64_range, INT64_MIN, INT64_MAX in *; lia).
  destruct (Z.eqb_spec (ref s) 0) as [?|_]; [lia|].
  destruct Hcase3 as [-> Htr3]. rewrite set_ref_set_ref, set_ref_same in Hat3.
  pose proof (pool_fd_event_slot_unref p2 l idx_) as Hpfd3.
  rewrite (event_slot_unref_inside p2 idx_ l Hl) by eauto.
  destruct (unref_in_table p2 l idx_) as [p3 tr3]. cbn [fst snd] in *. subst tr3.
  (* second release: the reference of the registration *)
  destruct (event_slot_unref_here p3 idx_ l _ Hl Hat3) as (s4 & Hat4 & Hcase4).
  rewrite (wrap_int64_small (ref s - 1)) in Hcase4
    by (unfold int64_range, INT64_MIN, INT64_MAX in *; lia).
  pose proof (epoll_ctl_calls_unref p3 l idx_) as Hctl4.
  rewrite (event_slot_unref_inside p3 idx_ l Hl) by eauto.
  destruct (unref_in_table p3 l idx_) as [p4 tr4]. cbn [fst snd] in *.
  eexists p4, _, s4. split; [reflexivity|].
  split; [by rewrite !epoll_ctl_calls_app, Hctl4|].
  split; [done|].
  destruct (Z.eqb_spec (ref s - 1) 0) as [E|E].
  - destruct Hcase4 as [Heq _].
    pose proof (eq_but_used_fields _ _ Heq) as (Hf & _ & Hg & _ & Hrf & _).
    split; [rewrite Hrf; simpl; lia|]. split; [intros; lia|]. done.
  - destruct Hcase4 as [-> _]. split; [done|]. split; [done|intros; lia].
Qed.

(** ** The generation counter *)

Lemma bumped_refl g : bumped 0 g g.
Proof. by exists 0%nat. Qed.

Lemma bumped_one g : bumped 1 g (wrap_int (g + 1)).
Proof. exists 1%nat. split; [lia|done]. Qed.

Lemma bumped_trans a b g g' g'' :
  bumped a g g' → bumped b g' g'' → bumped (a + b) g g''.
Proof.
  intros (j1 & H1 & ->) (j2 & H2 & ->). exists (j2 + j1)%nat.
  split; [lia|]. by rewrite Nat.iter_add.
Qed.

Lemma bumped_mono a b g g' : (a ≤ b)%nat → bumped a g g' → bumped b g g'.
Proof. intros Hab (j & Hj & ->). exists j. split; [lia|done]. Qed.

Lemma bumped_bounds k g g' :
  bumped k g g' → INT_MIN <= g → g + Z.of_nat k <= INT_MAX →
  g <= g' <= g + Z.of_nat k.
Proof.
  intros (j & Hj & ->) Hlo Hhi.
  assert (H : Nat.iter j (λ x, wrap_int (x + 1)) g = g + Z.of_nat j).
  { induction j as [|j IH]; simpl; [lia|]. rewrite IH by lia.
    rewrite wrap_int_small by (unfold int_range; lia). lia. }
  lia.
Qed.

Lemma gen_adv_refl p : gen_adv 0 p p.
Proof. intros l s Hs. exists s. split; [done|apply bumped_refl]. Qed.

Lemma gen_adv_trans a b p p' p'' :
  gen_adv a p p' → gen_adv b p' p'' → gen_adv (a + b) p p''.
Proof.
  intros H1 H2 l s Hs. destruct (H1 l s Hs) as (s' & Hs' & Hb1).
  destruct (H2 l s' Hs') as (s'' & Hs'' & Hb2).
  exists s''. split; [done|]. by eapply bumped_trans.
Qed.

Lemma gen_adv_mono a b p p' : (a ≤ b)%nat → gen_adv a p p' → gen_adv b p p'.
Proof.
  intros Hab H l s Hs. destruct (H l s Hs) as (s' & Hs' & Hb).
  exists s'. split; [done|]. by eapply bumped_mono.
Qed.

(** Closes [gen_adv k p p]. *)
Ltac gen_adv_unchanged := apply (gen_adv_mono 0); [lia | apply gen_adv_refl].

Lemma gen_adv_same_slots p p' : (∀ l, slot_at p' l = slot_at p l) → gen_adv 0 p p'.
Proof. intros H l s Hs. exists s. rewrite H. split; [done|apply bumped_refl]. Qed.

Lemma gen_adv_upd_keep f l p : (∀ s, gen (f s) = gen s) → gen_adv 0 p (slot_upd f l p).
Proof.
  intros Hf l' s Hs. rewrite slot_at_upd, Hs.
  case_decide; eexists; (split; [reflexivity|]); simpl; rewrite ?Hf; apply bumped_refl.
Qed.

Lemma gen_adv_eq_but_used k p p' :
  (∀ l s, slot_at p l = Some s →
     ∃ s' s'', slot_at p' l = Some s' ∧ eq_but_used s' s'' ∧ bumped k (gen s) (gen s'')) →
  gen_adv k p p'.
Proof.
  intros H l s Hs. destruct (H l s Hs) as (s' & s'' & Hs' & Heq & Hb).
  exists s'. split; [done|].
  apply eq_but_used_fields in Heq as (_ & _ & -> & _). done.
Qed.

Lemma gen_adv_slot_dealloc p i off : gen_adv 1 p (__event_slot_dealloc p i off).
Proof.
  apply gen_adv_eq_but_used. intros l s Hs.
  destruct (slot_dealloc_at p i off l s Hs) as (s' & Hs' & Heq).
  eexists s', _. split; [done|]. split; [done|].
  case_decide; [apply bumped_one|apply (bumped_mono 0); [lia|apply bumped_refl]].
Qed.

Lemma gen_adv_event_slot_dealloc p idx_ : gen_adv 1 p (dealloc_in_table p idx_).
Proof.
  unfold dealloc_in_table. destruct (slot_of_idx idx_) as [[i off]|].
  - destruct (ereg p !! i) as [[t|]|]; [apply gen_adv_slot_dealloc| |];
      apply (gen_adv_mono 0); (lia || apply gen_adv_refl).
  - gen_adv_unchanged.
Qed.

Lemma gen_adv_event_slot_unref p l idx_ : gen_adv 1 p (unref_in_table p l idx_).1.
Proof.
  unfold unref_in_table. destruct (slot_at p l) as [s|];
    [|gen_adv_unchanged].
  destruct (_ =? 0); cbn [fst].
  - eapply (gen_adv_trans 0 1); [|apply gen_adv_event_slot_dealloc].
    eapply (gen_adv_trans 0 0); [|by apply gen_adv_upd_keep].
    by apply gen_adv_upd_keep.
  - apply (gen_adv_mono 0); [lia|]. by apply gen_adv_upd_keep.
Qed.

Lemma gen_adv_unref_returns p l idx_ p' tr :
  event_slot_unref p l idx_ = Returns (p', tr) → gen_adv 1 p p'.
Proof.
  intros Hun. apply event_slot_unref_returns in Hun.
  pose proof (gen_adv_event_slot_unref p l idx_) as Hadv. by rewrite <- Hun in Hadv.
Qed.

Lemma slot_at_newtable p i l s :
  (∀ t, ereg p !! i ≠ Some (Some t)) →
  slot_at p l = Some s → slot_at (__event_newtable p i) l = Some s.
Proof.
  intros Hnone Hs. unfold slot_at, __event_newtable in *. simpl.
  destruct (decide (i = l.1)) as [->|Hne].
  - destruct (ereg p !! l.1) as [[t|]|]; try done. by destruct (Hnone t).
  - by rewrite list_lookup_insert_ne.
Qed.

Lemma gen_adv_newtable p i :
  (∀ t, ereg p !! i ≠ Some (Some t)) → gen_adv 0 p (__event_newtable p i).
Proof.
  intros Hnone l s Hs. exists s. split; [|apply bumped_refl].
  by apply slot_at_newtable.
Qed.

Lemma gen_adv_slot_claim p i j old fd_ notify :
  slot_at p (i, j) = Some old →
  gen_adv 1 p (slot_claim p i j old fd_ notify).2.
Proof.
  intros Hold l s Hs. destruct (decide (l = (i, j))) as [->|Hne].
  - destruct (slot_claim_here p i j old fd_ notify Hold) as (s' & Hs' & _ & Hg & _).
    exists s'. split; [done|]. rewrite Hg. rewrite Hold in Hs. injection Hs as ->.
    apply bumped_one.
  - destruct (slot_claim_other p i j old fd_ notify l s Hne Hs) as (s' & Hs' & Heq).
    exists s'. split; [done|]. rewrite Heq. apply (bumped_mono 0); [lia|apply bumped_refl].
Qed.

Lemma gen_adv_slot_alloc p fd_ notify ok h ol p' :
  0 < EVENT_EPOLL_SLOTS →
  __event_slot_alloc p fd_ notify ok = Returns (h, ol, p') →
  gen_adv 1 p p'.
Proof.
  intros Hs Hrun. unfold __event_slot_alloc in Hrun.
  apply slot_alloc_from_inv in Hrun
    as [(_ & _ & ->)|(i & j & old & p0 & table & _ & Hp0 & Htab & Hj & _ & Hclaim)];
    [gen_adv_unchanged| |done].
  pose proof (gen_adv_slot_claim p0 i j old fd_ notify (slot_at_table _ _ _ _ _ Htab Hj))
    as Hadv.
  rewrite <- Hclaim in Hadv. simpl in Hadv.
  destruct Hp0 as [[-> _]|(-> & _ & Hnone)]; [done|].
  eapply (gen_adv_trans 0 1); [by apply gen_adv_newtable|done].
Qed.


Lemma gen_adv_upd_at k f l p s :
  slot_at p l = Some s → bumped k (gen s) (gen (f s)) → gen_adv k p (slot_upd f l p).
Proof.
  intros Hs Hb l' s' Hs'. rewrite slot_at_upd, Hs'.
  case_decide; eexists; (split; [reflexivity|]).
  - subst. rewrite Hs in Hs'. by injection Hs' as <-.
  - apply (bumped_mono 0); [lia|apply bumped_refl].
Qed.

Lemma gen_adv_event_slot_ref l p : gen_adv 0 p (event_slot_ref l p).
Proof. by apply gen_adv_upd_keep. Qed.

Lemma gen_adv_event_slot_get p idx_ l p1 :
  event_slot_get p idx_ = Returns (Some (l, p1)) → gen_adv 0 p p1.
Proof.
  intros Hget. apply event_slot_get_Some in Hget as (_ & -> & _).
  apply gen_adv_event_slot_ref.
Qed.

Lemma gen_slot_update_events s poll_in poll_out :
  gen (__slot_update_events s poll_in poll_out).1 = gen s.
Proof. by rewrite slot_update_events_frame. Qed.

Lemma gen_register_locked epfd s fd_ idx_ handler_ data_ poll_in poll_out :
  gen (event_register_epoll_locked epfd s fd_ idx_ handler_ data_ poll_in poll_out).1
  = gen s.
Proof.
  unfold event_register_epoll_locked.
  match goal with |- context [__slot_update_events ?x ?a ?b] =>
    pose proof (gen_slot_update_events x a b) as H;
    destruct (__slot_update_events x a b) end.
  done.
Qed.

Lemma gen_select_on_locked epfd s fd_ idx_ poll_in poll_out ret :
  gen (event_select_on_epoll_locked epfd s fd_ idx_ poll_in poll_out ret).1 = gen s.
Proof.
  unfold event_select_on_epoll_locked.
  pose proof (gen_slot_update_events s poll_in poll_out) as H.
  destruct (__slot_update_events s poll_in poll_out) as [s1 logs].
  by destruct (in_handler s1 =? 0).
Qed.

Lemma gen_dispatch_locked s event :
  gen (event_dispatch_epoll_handler_locked s event).1.1.1 = gen s.
Proof.
  unfold event_dispatch_epoll_handler_locked.
  destruct (fd s =? -1); [done|].
  destruct (negb (ev_gen event =? gen s)); [done|].
  destruct (in_handler s >? 0); [done|].
  by destruct (negb (handled_error s =? 0)).
Qed.

Lemma gen_handled_locked epfd s fd_ idx_ gen_ ret :
  gen (event_handled_epoll_locked epfd s fd_ idx_ gen_ ret).1.1 = gen s.
Proof.
  unfold event_handled_epoll_locked. cbn [gen set_in_handler in_handler].
  destruct (negb (gen_ =? gen s)); [done|].
  by destruct (wrap_int (in_handler s - 1) =? 0).
Qed.

Lemma gen_unregister_locked epfd s fd_ do_close_ ret :
  gen (event_unregister_epoll_locked epfd s fd_ do_close_ ret).1
  = if ret =? -1 then gen s else wrap_int (gen s + 1).
Proof. unfold event_unregister_epoll_locked. by destruct (ret =? -1). Qed.

Lemma gen_adv_register p fd_ handler_ data_ poll_in poll_out notify ok ret r p' tr :
  0 < EVENT_EPOLL_SLOTS →
  event_register_epoll p fd_ handler_ data_ poll_in poll_out notify ok ret
    = Returns (r, p', tr) →
  gen_adv 2 p p'.
Proof.
  intros Hslots. unfold event_register_epoll.
  destruct (destroy p =? 1).
  { intros [= _ <- _]. gen_adv_unchanged. }
  destruct (__event_slot_alloc p fd_ notify ok) as [[[h ol] p1]| |] eqn:Halloc; try done.
  apply gen_adv_slot_alloc in Halloc; [|done].
  destruct ol as [l|].
  2: { destruct (h <? 0); [|done]. intros [= _ <- _]. by apply (gen_adv_mono 1); [lia|]. }
  destruct (h <? 0).
  { intros [= _ <- _]. by apply (gen_adv_mono 1); [lia|]. }
  destruct (slot_at p1 l) as [s|] eqn:Hs; [|done].
  destruct (negb (fd s =? fd_)); [done|].
  pose proof (gen_register_locked (pool_fd p1) s fd_ h handler_ data_ poll_in poll_out)
    as Hgen.
  destruct (event_register_epoll_locked _ s _ _ _ _ _ _) as [s1 tr1]. simpl in Hgen.
  assert (Hadv2 : gen_adv 0 p1 (slot_upd (λ _, s1) l p1)).
  { eapply gen_adv_upd_at; [done|]. rewrite Hgen. apply bumped_refl. }
  destruct (ret =? -1).
  - destruct (event_slot_unref _ l h) as [[p3 tr3]| |] eqn:Hun; try done.
    apply gen_adv_unref_returns in Hun as Hadv3. intros [= _ <- _].
    apply (gen_adv_trans 1 1) with (p' := p1); [done|].
    by apply (gen_adv_trans 0 1) with (p' := slot_upd (λ _, s1) l p1).
  - intros [= _ <- _]. apply (gen_adv_mono 1); [lia|].
    by apply (gen_adv_trans 1 0) with (p' := p1).
Qed.

Lemma gen_adv_unregister_common p fd_ idx_ do_close_ ret r p' tr :
  event_unregister_epoll_common p fd_ idx_ do_close_ ret = Returns (r, p', tr) →
  gen_adv 3 p p'.
Proof.
  unfold event_unregister_epoll_common.
  destruct (idx_ <? 0).
  { intros [= _ <- _]. gen_adv_unchanged. }
  destruct (event_slot_get p idx_) as [[[l p1]|]| |] eqn:Hget; try done.
  2: { intros [= _ <- _]. gen_adv_unchanged. }
  apply gen_adv_event_slot_get in Hget.
  destruct (slot_at p1 l) as [s|] eqn:Hs; [|done].
  destruct (negb (fd s =? fd_)); [done|].
  pose proof (gen_unregister_locked (pool_fd p1) s fd_ do_close_ ret) as Hgen.
  destruct (event_unregister_epoll_locked _ s _ _ _) as [s1 tr1]. simpl in Hgen.
  assert (Hadv2 : gen_adv 1 p1 (slot_upd (λ _, s1) l p1)).
  { eapply gen_adv_upd_at; [done|]. rewrite Hgen.
    destruct (ret =? -1); [apply (bumped_mono 0); [lia|apply bumped_refl]|apply bumped_one]. }
  destruct (event_slot_unref _ l idx_) as [[p3 tr3]| |] eqn:Hun3; try done.
  apply gen_adv_unref_returns in Hun3 as Hadv3.
  destruct (event_slot_unref p3 l idx_) as [[p4 tr4]| |] eqn:Hun4; try done.
  apply gen_adv_unref_returns in Hun4 as Hadv4. intros [= _ <- _].
  simpl in *.
  apply (gen_adv_trans 0 3) with (p' := p1); [done|].
  apply (gen_adv_trans 1 2) with (p' := slot_upd (λ _, s1) l p1); [done|].
  by apply (gen_adv_trans 1 1) with (p' := p3).
Qed.

(** The frame shared by select_on, handled and the dispatch step. *)
Lemma gen_adv_lookup_lock_unref p idx_ l p1 s s1 p3 tr3 :
  event_slot_get p idx_ = Returns (Some (l, p1)) →
  slot_at p1 l = Some s → gen s1 = gen s →
  event_slot_unref (slot_upd (λ _, s1) l p1) l idx_ = Returns (p3, tr3) →
  gen_adv 1 p p3.
Proof.
  intros Hget Hs Hgen Hun. apply gen_adv_event_slot_get in Hget.
  apply (gen_adv_trans 0 1) with (p' := p1); [done|].
  apply (gen_adv_trans 0 1) with (p' := slot_upd (λ _, s1) l p1);
    [|by eapply gen_adv_unref_returns].
  eapply gen_adv_upd_at; [done|]. rewrite Hgen. apply bumped_refl.
Qed.

Lemma gen_adv_select_on p fd_ idx_ poll_in poll_out ret r p' tr :
  event_select_on_epoll p fd_ idx_ poll_in poll_out ret = Returns (r, p', tr) →
  gen_adv 1 p p'.
Proof.
  unfold event_select_on_epoll.
  destruct (event_slot_get p idx_) as [[[l p1]|]| |] eqn:Hget; try done.
  2: { intros [= _ <- _]. gen_adv_unchanged. }
  destruct (slot_at p1 l) as [s|] eqn:Hs; [|done].
  destruct (negb (fd s =? fd_)); [done|].
  pose proof (gen_select_on_locked (pool_fd p1) s fd_ idx_ poll_in poll_out ret) as Hgen.
  destruct (event_select_on_epoll_locked _ s _ _ _ _ _) as [s1 tr1]. simpl in Hgen.
  destruct (event_slot_unref _ l idx_) as [[p3 tr3]| |] eqn:Hun; try done.
  pose proof (gen_adv_lookup_lock_unref p idx_ l p1 s s1 p3 tr3 Hget Hs Hgen Hun) as Hadv.
  by intros [= _ <- _].
Qed.

Lemma gen_adv_handled p fd_ idx_ gen_ ret r p' tr :
  event_handled_epoll p fd_ idx_ gen_ ret = Returns (r, p', tr) →
  gen_adv 1 p p'.
Proof.
  unfold event_handled_epoll.
  destruct (event_slot_get p idx_) as [[[l p1]|]| |] eqn:Hget; try done.
  2: { intros [= _ <- _]. gen_adv_unchanged. }
  destruct (slot_at p1 l) as [s|] eqn:Hs; [|done].
  destruct (negb (fd s =? fd_)); [done|].
  pose proof (gen_handled_locked (pool_fd p1) s fd_ idx_ gen_ ret) as Hgen.
  destruct (event_handled_epoll_locked _ s _ _ _ _) as [[s1 r1] tr1]. simpl in Hgen.
  destruct (event_slot_unref _ l idx_) as [[p3 tr3]| |] eqn:Hun; try done.
  pose proof (gen_adv_lookup_lock_unref p idx_ l p1 s s1 p3 tr3 Hget Hs Hgen Hun) as Hadv.
  by intros [= _ <- _].
Qed.

Lemma gen_adv_dispatch_handler p event r p' tr :
  event_dispatch_epoll_handler p event = Returns (r, p', tr) →
  gen_adv 1 p p'.
Proof.
  unfold event_dispatch_epoll_handler.
  destruct (event_slot_get p (ev_idx event)) as [[[l p1]|]| |] eqn:Hget; try done.
  2: { intros [= _ <- _]. gen_adv_unchanged. }
  destruct (slot_at p1 l) as [s|] eqn:Hs; [|done].
  pose proof (gen_dispatch_locked s event) as Hgen.
  destruct (event_dispatch_epoll_handler_locked s event) as [[[s1 h] prev] logs].
  simpl in Hgen.
  destruct (event_slot_unref _ l (ev_idx event)) as [[p3 tr3]| |] eqn:Hun; try done.
  pose proof (gen_adv_lookup_lock_unref p (ev_idx event) l p1 s s1 p3 tr3 Hget Hs Hgen Hun)
    as Hadv.
  by intros [= _ <- _].
Qed.

Lemma gen_adv_reconfigure_threads p value calloc_ok thread_create r p' tr :
  event_reconfigure_threads_epoll p value calloc_ok thread_create
    = Returns (r, p', tr) →
  gen_adv 0 p p'.
Proof.
  unfold event_reconfigure_threads_epoll.
  destruct (event_pool_dispatched_unlocked p) as [d|]; [|done].
  destruct (d && _).
  - destruct (reconfigure_spawn _ _ _ _ _) as [[ps tr']| |]; try done.
    intros [= _ <- _]. by apply gen_adv_same_slots.
  - intros [= _ <- _]. by apply gen_adv_same_slots.
Qed.

Lemma gen_adv_run_operation op p r p' tr :
  0 < EVENT_EPOLL_SLOTS →
  run_operation op p = Returns (r, p', tr) → gen_adv 3 p p'.
Proof.
  intros Hslots. destruct op; simpl; intros Hrun.
  - apply (gen_adv_mono 2); [lia|]. by eapply gen_adv_register.
  - by eapply gen_adv_unregister_common.
  - by eapply gen_adv_unregister_common.
  - apply (gen_adv_mono 1); [lia|]. by eapply gen_adv_select_on.
  - apply (gen_adv_mono 1); [lia|]. by eapply gen_adv_handled.
  - apply (gen_adv_mono 1); [lia|]. by eapply gen_adv_dispatch_handler.
  - apply (gen_adv_mono 0); [lia|]. by eapply gen_adv_reconfigure_threads.
Qed.


Lemma gen_has_room_at p l s :
  all_slots gen_has_room p = true → slot_at p l = Some s →
  INT_MIN <= gen s <= INT_MAX - 3.
Proof.
  intros Hall Hs. pose proof (all_slots_at _ _ _ _ Hall Hs) as H.
  unfold gen_has_room in H. apply andb_true_iff in H as [H1 H2]. lia.
Qed.

(** Claim C3, as amended.  While the counter of every slot is at most
    INT_MAX - 3, so that it cannot leave the range of [int]: an
    allocation succeeds whenever the first bucket is there, is not
    counted full and has a free slot; a successful allocation leaves the
    claimed slot with its former generation plus one (1 for a slot of a
    new bucket), the wipe of the slot notwithstanding, and the other
    slots with theirs; [__event_slot_dealloc] adds one to the slot it
    frees and leaves the others; the locked block of unregister adds one
    when the detach succeeded and leaves it otherwise; and across every
    operation each slot is still there with a generation that is not
    smaller, and larger by 3 at most. *)
Theorem gen_strictly_increasing p :
  0 < EVENT_EPOLL_SLOTS →
  all_slots gen_has_room p = true →
  (∀ fd_ notify ok table t0 j old,
     0 < EVENT_EPOLL_TABLES →
     ereg p !! 0%nat = Some (Some table) → table !! 0%nat = Some t0 →
     slots_used t0 ≠ EVENT_EPOLL_SLOTS →
     table !! j = Some old → fd old = -1 →
     ∃ h l p', __event_slot_alloc p fd_ notify ok = Returns (h, Some l, p'))
  ∧ (∀ fd_ notify ok h l p',
     __event_slot_alloc p fd_ notify ok = Returns (h, Some l, p') →
     (∃ s', slot_at p' l = Some s'
        ∧ gen s' = match slot_at p l with Some s => gen s | None => 0 end + 1)
     ∧ ∀ l' s, l' ≠ l → slot_at p l' = Some s →
         ∃ s', slot_at p' l' = Some s' ∧ gen s' = gen s)
  ∧ (∀ i off l s,
       slot_at p l = Some s →
       ∃ s', slot_at (__event_slot_dealloc p i off) l = Some s'
         ∧ gen s' = if decide ((i, off) = l) then gen s + 1 else gen s)
  ∧ (∀ l s epfd fd_ do_close_ ret,
       slot_at p l = Some s →
       gen (event_unregister_epoll_locked epfd s fd_ do_close_ ret).1
       = if ret =? -1 then gen s else gen s + 1)
  ∧ (∀ op r p' tr,
       run_operation op p = Returns (r, p', tr) →
       ∀ l s, slot_at p l = Some s →
         ∃ s', slot_at p' l = Some s' ∧ gen s <= gen s' <= gen s + 3).
Proof.
  intros Hslots Hroom.
  assert (Hwrap : ∀ l s, slot_at p l = Some s → wrap_int (gen s + 1) = gen s + 1).
  { intros l s Hs. pose proof (gen_has_room_at p l s Hroom Hs).
    apply wrap_int_small. unfold int_range. lia. }
  split; [|split; [|split; [|split]]].
  - intros fd_ notify ok table t0 j old Ht H0 Ht0 Hused Hj Hfree.
    unfold __event_slot_alloc.
    destruct (Z.to_nat EVENT_EPOLL_TABLES) as [|k] eqn:Ek; [lia|].
    cbn [__event_slot_alloc_from]. rewrite H0, Ht0.
    destruct (Z.eqb_spec (slots_used t0) EVENT_EPOLL_SLOTS); [done|].
    destruct (list_find_elem_of (λ s, fd s = -1) table old) as [[j' old'] ->];
      [by eapply list_elem_of_lookup_2|done|].
    unfold slot_claim. by eexists _, _, _.
  - intros fd_ notify ok h l p' Hrun. unfold __event_slot_alloc in Hrun.
    apply slot_alloc_from_inv in Hrun
      as [[? _]|(i & j & old & p0 & table & _ & Hp0 & Htab & Hj & _ & Hclaim)];
      [done| |done].
    pose proof (slot_at_table _ _ _ _ _ Htab Hj) as Hold.
    assert (Hl : l = (i, j)).
    { unfold slot_claim in Hclaim. by injection Hclaim as _ -> _. }
    assert (Hp' : p' = (slot_claim p0 i j old fd_ notify).2) by (by rewrite <- Hclaim).
    subst l p'. split.
    + destruct (slot_claim_here p0 i j old fd_ notify Hold) as (s' & Hs' & _ & Hg & _).
      exists s'. split; [done|]. rewrite Hg.
      destruct Hp0 as [[-> _]|(-> & -> & Hnone)].
      * rewrite Hold. eauto.
      * assert (Hfresh : slot_at p (i, j) = None).
        { unfold slot_at. simpl. destruct (ereg p !! i) as [[t|]|]; try done.
          by destruct (Hnone t). }
        rewrite Hfresh. unfold free_table in Hj.
        apply lookup_replicate in Hj as [-> _]. reflexivity.
    + intros l' s Hne Hs.
      assert (Hs0 : slot_at p0 l' = Some s).
      { destruct Hp0 as [[-> _]|(-> & _ & Hnone)]; [done|]. by apply slot_at_newtable. }
      destruct (slot_claim_other p0 i j old fd_ notify l' s Hne Hs0) as (s' & Hs' & Heq).
      exists s'. split; [done|]. by rewrite Heq.
  - intros i off l s Hs.
    destruct (slot_dealloc_at p i off l s Hs) as (s' & Hs' & Heq).
    exists s'. split; [done|].
    apply eq_but_used_fields in Heq as (_ & _ & -> & _).
    case_decide; [|done]. simpl. eauto.
  - intros l s epfd fd_ do_close_ ret Hs. rewrite gen_unregister_locked.
    destruct (ret =? -1); eauto.
  - intros op r p' tr Hrun l s Hs.
    destruct (gen_adv_run_operation op p r p' tr Hslots Hrun l s Hs) as (s' & Hs' & Hb).
    exists s'. split; [done|].
    pose proof (gen_has_room_at p l s Hroom Hs).
    apply (bumped_bounds 3); [done| lia | lia].
Qed.

End Facts.

(** * The statements on the small instance *)

Lemma small_config_ok : config_ok small_config.
Proof. split; vm_compute; congruence. Defined.

(** C1: a read event for the registration of [pool_one] is dispatched. *)
Lemma dispatch_invokes_handler_iff_witness :
  slot_of_idx (cfg := small_config) 0 = Some (0, 0)%nat
  ∧ slot_at pool_one (0, 0)%nat = Some slot_one
  ∧ int64_range (ref slot_one)
  ∧ handler_calls
      (trace_of (@event_dispatch_epoll_handler small_config pool_one
                   (EpollEvent EPOLLIN 0 1))) ≠ [].
Proof.
  assert (Hl : slot_of_idx (cfg := small_config) 0 = Some (0, 0)%nat) by reflexivity.
  assert (Hs : slot_at pool_one (0, 0)%nat = Some slot_one) by reflexivity.
  assert (Hr : int64_range (ref slot_one)) by (vm_compute; split; congruence).
  split; [exact Hl|]. split; [exact Hs|]. split; [exact Hr|].
  destruct (dispatch_invokes_handler_iff (cfg := small_config) pool_one
              (EpollEvent EPOLLIN 0 1) (0, 0)%nat slot_one Hl Hs Hr)
    as (p' & tr & s' & Hrun & Hiff & _).
  rewrite Hrun. apply Hiff. vm_compute. repeat split; congruence.
Defined.

(** C1, the claim as written, fails after an early handled: the handler
    is called although [in_handler] was -1 and not 0. *)
Lemma dispatch_after_early_handled_calls_handler :
  ¬ (∀ s, slot_at pool_handled_early (0, 0)%nat = Some s →
       (handler_calls
          (trace_of (@event_dispatch_epoll_handler small_config pool_handled_early
                       (EpollEvent EPOLLIN 0 1))) ≠ []
        ↔ fd s ≠ -1 ∧ 1 = gen s ∧ in_handler s = 0 ∧ handled_error s = 0)).
Proof.
  intros H.
  specialize (H (Slot 1 5 1073741851 1 0 1 0 (-1) 0 200 100 true) eq_refl).
  destruct H as [H _].
  assert (Hcalled : handler_calls
            (trace_of (@event_dispatch_epoll_handler small_config pool_handled_early
                         (EpollEvent EPOLLIN 0 1))) ≠ []) by (vm_compute; congruence).
  destruct (H Hcalled) as (_ & _ & Hin & _). vm_compute in Hin. congruence.
Qed.

(** C2: the handler that [pool_in_dispatch] is running reports handled:
    [in_handler] comes back to 0 and the fd is re-armed with the mask of
    the slot.  A select_on made before, while the handler is in progress,
    calls no [epoll_ctl] and turns write interest on; the re-arm of the
    handled that follows carries the new mask.  A handled with another
    generation re-arms nothing. *)
Lemma handled_rearms_with_latest_events_witness :
  slot_of_idx (cfg := small_config) 0 = Some (0, 0)%nat
  ∧ slot_at pool_in_dispatch (0, 0)%nat = Some slot_in_dispatch
  ∧ fd slot_in_dispatch = 5
  ∧ int64_range (ref slot_in_dispatch) ∧ ref slot_in_dispatch ≠ 0
  ∧ INT_MIN < in_handler slot_in_dispatch <= INT_MAX
  ∧ 0 < in_handler slot_in_dispatch
  ∧ (∃ p' tr,
       @event_handled_epoll small_config pool_in_dispatch 5 0 1 0 = Returns (0, p', tr)
       ∧ epoll_ctl_calls tr
         = [Epoll_ctl 3 EPOLL_CTL_MOD 5 (Some (EpollEvent 1073741851 0 1))]
       ∧ slot_at p' (0, 0)%nat = Some (Slot 1 5 1073741851 1 0 2 0 0 0 200 100 true))
  ∧ (∃ p1 tr1 p2 tr2,
       @event_select_on_epoll small_config pool_in_dispatch 5 0 (-1) 1 0
         = Returns (0, p1, tr1)
       ∧ epoll_ctl_calls tr1 = []
       ∧ @event_handled_epoll small_config p1 5 0 1 0 = Returns (0, p2, tr2)
       ∧ epoll_ctl_calls tr2
         = [Epoll_ctl 3 EPOLL_CTL_MOD 5 (Some (EpollEvent 1073741855 0 1))])
  ∧ (∃ p' tr,
       @event_handled_epoll small_config pool_in_dispatch 5 0 7 0 = Returns (0, p', tr)
       ∧ epoll_ctl_calls tr = []
       ∧ slot_at p' (0, 0)%nat = Some (Slot 1 5 1073741851 1 0 2 0 0 0 200 100 true)).
Proof.
  assert (Hl : slot_of_idx (cfg := small_config) 0 = Some (0, 0)%nat) by reflexivity.
  assert (Hs : slot_at pool_in_dispatch (0, 0)%nat = Some slot_in_dispatch) by reflexivity.
  assert (Hfd : fd slot_in_dispatch = 5) by reflexivity.
  assert (Hr : int64_range (ref slot_in_dispatch)) by (vm_compute; split; congruence).
  assert (Hnz : ref slot_in_dispatch ≠ 0) by (vm_compute; congruence).
  assert (Hin : INT_MIN < in_handler slot_in_dispatch <= INT_MAX)
    by (vm_compute; split; congruence).
  assert (Hpos : 0 < in_handler slot_in_dispatch) by reflexivity.
  repeat (split; [assumption|]).
  split; [|split].
  - destruct (handled_rearms_with_latest_events (cfg := small_config) pool_in_dispatch
                5 0 1 0 (0, 0)%nat slot_in_dispatch Hl Hs Hfd Hr Hnz Hin)
      as [(p' & tr & Hrun & Hctl & Hat) _].
    exists p', tr. split; [exact Hrun|]. split; [exact Hctl|exact Hat].
  - destruct (handled_rearms_with_latest_events (cfg := small_config) pool_in_dispatch
                5 0 1 0 (0, 0)%nat slot_in_dispatch Hl Hs Hfd Hr Hnz Hin)
      as [_ Hsel].
    destruct (Hsel Hpos (-1) 1 0) as (p1 & tr1 & p2 & tr2 & Hrun1 & Hctl1 & Hrun2 & Hctl2).
    exists p1, tr1, p2, tr2. split; [exact Hrun1|]. split; [exact Hctl1|].
    split; [exact Hrun2|exact Hctl2].
  - destruct (handled_rearms_with_latest_events (cfg := small_config) pool_in_dispatch
                5 0 7 0 (0, 0)%nat slot_in_dispatch Hl Hs Hfd Hr Hnz Hin)
      as [(p' & tr & Hrun & Hctl & Hat) _].
    exists p', tr. split; [exact Hrun|]. split; [exact Hctl|exact Hat].
Defined.

(** C3: on [pool_first_freed], whose slot of handle 0 is free with
    generation 3 and whose slot of handle 1 holds fd 6 with generation 1:
    the allocation for fd 7 takes the free slot and leaves it with
    generation 4; the deallocation of the slot of handle 1 leaves it with
    generation 2; the unregister of fd 6 leaves it with a generation
    between 1 and 4. *)
Lemma gen_strictly_increasing_witness :
  0 < @EVENT_EPOLL_SLOTS small_config
  ∧ all_slots gen_has_room pool_first_freed = true
  ∧ slot_at pool_first_freed (0, 0)%nat
    = Some (Slot 1 (-1) 1073741851 3 0 0 0 0 0 200 100 false)
  ∧ slot_at pool_first_freed (0, 1)%nat
    = Some (Slot 0 6 1073741851 1 0 1 0 0 0 200 100 true)
  ∧ (∃ p' s',
       @__event_slot_alloc small_config pool_first_freed 7 0 true
         = Returns (0, Some (0, 0)%nat, p')
       ∧ slot_at p' (0, 0)%nat = Some s' ∧ gen s' = 4 ∧ fd s' = 7)
  ∧ (∃ s', slot_at (__event_slot_dealloc pool_first_freed 0 1) (0, 1)%nat = Some s'
           ∧ gen s' = 2)
  ∧ (∃ p' tr s',
       @run_operation small_config (Op_unregister 6 1 0) pool_first_freed
         = Returns (0, p', tr)
       ∧ slot_at p' (0, 1)%nat = Some s' ∧ 1 <= gen s' <= 4).
Proof.
  assert (Hslots : 0 < @EVENT_EPOLL_SLOTS small_config) by reflexivity.
  assert (Hroom : all_slots gen_has_room pool_first_freed = true) by reflexivity.
  assert (H00 : slot_at pool_first_freed (0, 0)%nat
                = Some (Slot 1 (-1) 1073741851 3 0 0 0 0 0 200 100 false)) by reflexivity.
  assert (H01 : slot_at pool_first_freed (0, 1)%nat
                = Some (Slot 0 6 1073741851 1 0 1 0 0 0 200 100 true)) by reflexivity.
  split; [exact Hslots|]. split; [exact Hroom|]. split; [exact H00|]. split; [exact H01|].
  destruct (gen_strictly_increasing (cfg := small_config) pool_first_freed Hslots Hroom)
    as (Hsucc & Halloc & Hdealloc & _ & Hop).
  split; [|split].
  - assert (Ht : 0 < @EVENT_EPOLL_TABLES small_config) by reflexivity.
    assert (Hused : slots_used (Slot 1 (-1) 1073741851 3 0 0 0 0 0 200 100 false)
                    ≠ @EVENT_EPOLL_SLOTS small_config) by (vm_compute; congruence).
    destruct (Hsucc 7 0 true
                [Slot 1 (-1) 1073741851 3 0 0 0 0 0 200 100 false;
                 Slot 0 6 1073741851 1 0 1 0 0 0 200 100 true]
                _ 0%nat _ Ht eq_refl eq_refl Hused eq_refl eq_refl)
      as (h & l & p' & Hrun).
    assert (Hhl : h = 0 ∧ l = (0, 0)%nat).
    { assert (Hc : ∃ q, @__event_slot_alloc small_config pool_first_freed 7 0 true
                        = Returns (0, Some (0, 0)%nat, q))
        by (eexists; vm_compute; reflexivity).
      destruct Hc as [q Hq]. rewrite Hq in Hrun. injection Hrun as <- <- _. done. }
    destruct Hhl as [-> ->].
    destruct (Halloc 7 0 true 0 (0, 0)%nat p' Hrun) as [(s' & Hs' & Hg) _].
    rewrite H00 in Hg. cbn [gen] in Hg.
    assert (Hf : fd s' = 7).
    { assert (Hc : ∃ q t, @__event_slot_alloc small_config pool_first_freed 7 0 true
                          = Returns (0, Some (0, 0)%nat, q)
                          ∧ slot_at q (0, 0)%nat = Some t ∧ fd t = 7)
        by (eexists _, _; vm_compute; repeat split; reflexivity).
      destruct Hc as (q & t & Hq & Ht' & Hft). rewrite Hq in Hrun.
      injection Hrun as <-. rewrite Ht' in Hs'. by injection Hs' as <-. }
    exists p', s'. split; [exact Hrun|]. split; [exact Hs'|]. split; [exact Hg|exact Hf].
  - destruct (Hdealloc 0%nat 1%nat (0, 1)%nat _ H01) as (s' & Hs' & Hg).
    exists s'. split; [exact Hs'|]. rewrite Hg. reflexivity.
  - assert (Hrun : ∃ p' tr,
              @run_operation small_config (Op_unregister 6 1 0) pool_first_freed
              = Returns (0, p', tr)) by (eexists _, _; vm_compute; reflexivity).
    destruct Hrun as (p' & tr & Hrun).
    destruct (Hop _ _ _ _ Hrun (0, 1)%nat _ H01) as (s' & Hs' & Hg).
    exists p', tr, s'. split; [exact Hrun|]. split; [exact Hs'|exact Hg].
Defined.

(** C3, the claim as written, fails at the top of the range of [int]:
    the unregister of a registration of generation INT_MAX leaves the
    slot with a negative generation. *)
Lemma gen_wraps_at_int_max :
  ¬ (∀ s s',
       slot_at pool_gen_max (0, 0)%nat = Some s →
       slot_at (pool_after pool_gen_max
                  (@event_unregister_epoll small_config pool_gen_max 5 0 0))
               (0, 0)%nat = Some s' →
       gen s <= gen s').
Proof.
  intros H.
  specialize (H (Slot 1 5 1073741851 2147483647 0 1 0 0 0 200 100 true)
                (Slot 0 (-1) 1073741851 (-2147483647) 0 0 0 0 0 200 100 false)
                eq_refl eq_refl).
  vm_compute in H. congruence.
Qed.

(** C4: in [pool_two] the first bucket is full, the second one is not
    allocated yet, the allocation of a bucket would succeed, and the
    registration of fd 7 fails. *)
Lemma slot_alloc_gives_up_at_full_first_bucket_witness :
  0 < @EVENT_EPOLL_TABLES small_config
  ∧ ereg pool_two !! 0%nat
    = Some (Some [Slot 2 5 1073741851 1 0 1 0 0 0 200 100 true;
                  Slot 0 6 1073741851 1 0 1 0 0 0 200 100 true])
  ∧ ereg pool_two !! 1%nat = Some None
  ∧ @__event_slot_alloc small_config pool_two 7 0 true = Returns (-1, None, pool_two)
  ∧ @event_register_epoll small_config pool_two 7 100 200 1 0 0 true 0
    = Returns (-1, pool_two, [Log LG_MSG_SLOT_NOT_FOUND]).
Proof.
  assert (Ht : 0 < @EVENT_EPOLL_TABLES small_config) by reflexivity.
  assert (H0 : ereg pool_two !! 0%nat
               = Some (Some [Slot 2 5 1073741851 1 0 1 0 0 0 200 100 true;
                             Slot 0 6 1073741851 1 0 1 0 0 0 200 100 true]))
    by reflexivity.
  split; [exact Ht|]. split; [exact H0|]. split; [reflexivity|].
  destruct (slot_alloc_gives_up_at_full_first_bucket (cfg := small_config)
              pool_two 7 0 true _ _ Ht H0 eq_refl eq_refl) as [Halloc Hreg].
  split; [exact Halloc|]. apply Hreg. vm_compute. congruence.
Defined.

(** C5: unregister of handle -1 on [pool_one]. *)
Lemma unregister_negative_handle_is_noop_witness :
  -1 < 0
  ∧ @event_unregister_epoll small_config pool_one 5 (-1) 0 = Returns (-1, pool_one, [])
  ∧ @event_unregister_close_epoll small_config pool_one 5 (-1) 0
    = Returns (-1, pool_one, []).
Proof.
  assert (Hneg : -1 < 0) by reflexivity.
  split; [exact Hneg|].
  exact (unregister_negative_handle_is_noop (cfg := small_config) pool_one 5 (-1) 0 Hneg).
Defined.

(** C5, the claim as written, fails: the result of unregister with
    handle -1 is not a non-negative value. *)
Lemma unregister_negative_handle_returns_error :
  ¬ (∃ r, ret_of (@event_unregister_epoll small_config pool_one 5 (-1) 0) = Some r
          ∧ 0 <= r).
Proof. intros (r & Hr & Hpos). vm_compute in Hr. injection Hr as <-. lia. Qed.

(** C6: the single registration of [pool_one], detach refused. *)
Lemma unregister_detach_failure_releases_witness :
  0 < @EVENT_EPOLL_SLOTS small_config
  ∧ slot_of_idx (cfg := small_config) 0 = Some (0, 0)%nat
  ∧ slot_at pool_one (0, 0)%nat = Some slot_one
  ∧ fd slot_one = 5
  ∧ 1 <= ref slot_one < INT64_MAX
  ∧ ∃ p' tr s',
      @event_unregister_epoll_common small_config pool_one 5 0 1 (-1)
        = Returns (-1, p', tr)
      ∧ slot_at p' (0, 0)%nat = Some s' ∧ ref s' = 0 ∧ fd s' = -1.
Proof.
  assert (Hslots : 0 < @EVENT_EPOLL_SLOTS small_config) by reflexivity.
  assert (Hl : slot_of_idx (cfg := small_config) 0 = Some (0, 0)%nat) by reflexivity.
  assert (Hs : slot_at pool_one (0, 0)%nat = Some slot_one) by reflexivity.
  assert (Hfd : fd slot_one = 5) by reflexivity.
  assert (Hr : 1 <= ref slot_one < INT64_MAX) by (vm_compute; split; congruence).
  repeat (split; [assumption|]).
  destruct (unregister_detach_failure_releases (cfg := small_config) pool_one 5 0 1
              (0, 0)%nat slot_one Hslots Hl Hs Hfd Hr)
    as (p' & tr & s' & Hrun & _ & Hat & Href & _ & Hlast).
  exists p', tr, s'. split; [exact Hrun|]. split; [exact Hat|].
  split; [exact Href|]. exact (proj2 (proj2 (Hlast eq_refl))).
Defined.

(** C6, the claim as written, fails when the handler itself calls
    unregister and the detach is refused: the worker still holds its
    reference and the generation stays what it was. *)
Lemma unregister_detach_failure_keeps_gen :
  ¬ (∀ s s',
       slot_at pool_in_dispatch (0, 0)%nat = Some s →
       slot_at (pool_after pool_in_dispatch
                  (@event_unregister_epoll small_config pool_in_dispatch 5 0 (-1)))
               (0, 0)%nat = Some s' →
       gen s < gen s').
Proof.
  intros H.
  specialize (H (Slot 1 5 1073741851 1 0 2 0 1 0 200 100 true)
                (Slot 1 5 1073741851 1 0 1 0 1 0 200 100 true) eq_refl eq_refl).
  vm_compute in H. congruence.
Qed.

(** C7: select_on for the registration of [pool_one], the kernel
    refusing the modify; and for handle 2, whose bucket is not allocated. *)
Lemma select_on_returns_handle_witness :
  0 < @EVENT_EPOLL_SLOTS small_config
  ∧ pool_wf (cfg := small_config) pool_one = true
  ∧ 0 <= 0 < @EVENT_EPOLL_TABLES small_config * @EVENT_EPOLL_SLOTS small_config
  ∧ (∀ l s, slot_of_idx (cfg := small_config) 0 = Some l →
            slot_at pool_one l = Some s → fd s = 5)
  ∧ (∃ p' tr,
       @event_select_on_epoll small_config pool_one 5 0 1 1 (-1) = Returns (0, p', tr)
       ∧ epoll_ctl_calls tr
         = [Epoll_ctl 3 EPOLL_CTL_MOD 5 (Some (EpollEvent 1073741855 0 1))]
       ∧ Log LG_MSG_EPOLL_FD_MODIFY_FAILED ∈ tr
       ∧ ∃ tr', @event_select_on_epoll small_config pool_one 5 0 1 1 0
                = Returns (0, p', tr'))
  ∧ @event_select_on_epoll small_config pool_one 5 2 1 1 (-1)
    = Returns (-1, pool_one, [Log LG_MSG_SLOT_NOT_FOUND]).
Proof.
  assert (Hslots : 0 < @EVENT_EPOLL_SLOTS small_config) by reflexivity.
  assert (Hwf : pool_wf (cfg := small_config) pool_one = true) by reflexivity.
  assert (H0 : 0 <= 0 < @EVENT_EPOLL_TABLES small_config * @EVENT_EPOLL_SLOTS small_config)
    by (vm_compute; split; congruence).
  assert (H2 : 0 <= 2 < @EVENT_EPOLL_TABLES small_config * @EVENT_EPOLL_SLOTS small_config)
    by (vm_compute; split; congruence).
  assert (Hfd : ∀ l s, slot_of_idx (cfg := small_config) 0 = Some l →
                       slot_at pool_one l = Some s → fd s = 5).
  { intros l s Hl Hs. vm_compute in Hl. injection Hl as <-.
    vm_compute in Hs. injection Hs as <-. reflexivity. }
  assert (Hfd2 : ∀ l s, slot_of_idx (cfg := small_config) 2 = Some l →
                        slot_at pool_one l = Some s → fd s = 5).
  { intros l s Hl Hs. vm_compute in Hl. injection Hl as <-.
    vm_compute in Hs. discriminate. }
  split; [exact Hslots|]. split; [exact Hwf|]. split; [exact H0|]. split; [exact Hfd|].
  split.
  - destruct (select_on_returns_handle (cfg := small_config) pool_one 5 0 1 1 (-1)
                Hslots Hwf H0 Hfd) as (r & p' & tr & Hrun & _ & _ & Hfound).
    destruct (Hfound (0, 0)%nat slot_one eq_refl eq_refl)
      as (Hr & Hctl & Hlog & Hsame).
    subst r. exists p', tr. split; [exact Hrun|]. split; [exact Hctl|].
    split; [apply Hlog; split; reflexivity|]. exact (Hsame 0).
  - destruct (select_on_returns_handle (cfg := small_config) pool_one 5 2 1 1 (-1)
                Hslots Hwf H2 Hfd2) as (r & p' & tr & Hrun & _ & Hnone & _).
    destruct (Hnone eq_refl) as (-> & -> & ->). exact Hrun.
Defined.

(** C7, the claim as written, fails: the kernel refuses the modify and
    select_on returns the handle, 0. *)
Lemma select_on_hides_kernel_failure :
  ¬ (epoll_ctl_calls
       (trace_of (@event_select_on_epoll small_config pool_one 5 0 1 1 (-1))) ≠ [] →
     ∃ r, ret_of (@event_select_on_epoll small_config pool_one 5 0 1 1 (-1)) = Some r
          ∧ r < 0).
Proof.
  intros H. destruct H as (r & Hr & Hneg).
  - vm_compute. congruence.
  - vm_compute in Hr. injection Hr as <-. lia.
Qed.

(** C9: a registration with poller-death notification on [pool_one]. *)
Lemma slot_alloc_idx_when_notifying_witness :
  config_ok small_config
  ∧ pool_wf (cfg := small_config) pool_one = true
  ∧ ∃ p' s,
      @__event_slot_alloc small_config pool_one 6 1 true
        = Returns (1, Some (0, 1)%nat, p')
      ∧ slot_at p' (0, 1)%nat = Some s ∧ idx s = 1.
Proof.
  assert (Hwf : pool_wf (cfg := small_config) pool_one = true) by reflexivity.
  split; [exact small_config_ok|]. split; [exact Hwf|].
  assert (Hrun : ∃ p', @__event_slot_alloc small_config pool_one 6 1 true
                       = Returns (1, Some (0, 1)%nat, p')).
  { eexists. vm_compute. reflexivity. }
  destruct Hrun as [p' Hrun].
  destruct (slot_alloc_idx_when_notifying (cfg := small_config) pool_one 6 1 true 1
              (0, 1)%nat p' small_config_ok Hwf Hrun)
    as (_ & _ & s & Hat & _ & _ & Hidx).
  exists p', s. split; [exact Hrun|]. split; [exact Hat | exact Hidx].
Defined.

(** C9, the claim as written, fails without the notification: the
    second registration gets handle 1 and its slot has [idx = 0]. *)
Lemma slot_alloc_leaves_idx_zero :
  ¬ (∀ h l p' s,
       @__event_slot_alloc small_config pool_one 6 0 true = Returns (h, Some l, p') →
       slot_at p' l = Some s → idx s = h).
Proof.
  intros H.
  assert (Hrun : ∃ p', @__event_slot_alloc small_config pool_one 6 0 true
                       = Returns (1, Some (0, 1)%nat, p')
                       ∧ slot_at p' (0, 1)%nat
                         = Some (Slot 0 6 0 1 0 1 0 0 0 0 0 true)).
  { eexists. split; vm_compute; reflexivity. }
  destruct Hrun as (p' & Hrun & Hat).
  specialize (H _ _ _ _ Hrun Hat). vm_compute in H. congruence.
Qed.

(** C10: a request for 9 threads on [pool_dispatched], with the
    allocation failing for index 2 and the thread creation for index 3. *)
Lemma reconfigure_threads_always_succeeds_witness :
  config_ok small_config
  ∧ 0 <= eventthreadcount pool_dispatched
  ∧ length (pollers pool_dispatched) = Z.to_nat (@EVENT_MAX_THREADS small_config)
  ∧ ∃ p' tr,
      @event_reconfigure_threads_epoll small_config pool_dispatched 9
        (λ i, negb (i =? 2)) (λ i, if i =? 3 then (11, 0) else (0, 100 + i))
      = Returns (0, p', tr)
      ∧ eventthreadcount p' = 4.
Proof.
  assert (Hold : 0 <= eventthreadcount pool_dispatched) by (vm_compute; congruence).
  assert (Hlen : length (pollers pool_dispatched)
                 = Z.to_nat (@EVENT_MAX_THREADS small_config)) by reflexivity.
  split; [exact small_config_ok|]. split; [exact Hold|]. split; [exact Hlen|].
  destruct (reconfigure_threads_always_succeeds (cfg := small_config) pool_dispatched 9
              (λ i, negb (i =? 2)) (λ i, if i =? 3 then (11, 0) else (0, 100 + i))
              small_config_ok Hold Hlen)
    as (p' & tr & Hrun & Hcount & _).
  exists p', tr. split; [exact Hrun|]. rewrite Hcount. reflexivity.
Defined.

(** * Further properties of the code *)

Section Handles.

Context {cfg : event_config}.

(** ** Handles and lookups *)

Lemma slot_at_is_Some_wf p l :
  pool_wf p = true →
  is_Some (slot_at p l)
  ↔ (∃ table, ereg p !! l.1 = Some (Some table))
    ∧ (l.2 < Z.to_nat EVENT_EPOLL_SLOTS)%nat.
Proof.
  intros Hwf. unfold slot_at. split.
  - intros [s Hs]. destruct (ereg p !! l.1) as [[table|]|] eqn:Ht; try done.
    split; [eauto|]. rewrite <- (pool_wf_table p l.1 table Hwf Ht).
    by apply lookup_lt_Some in Hs.
  - intros [[table Ht] Hlt]. rewrite Ht. apply lookup_lt_is_Some.
    by rewrite (pool_wf_table p l.1 table Hwf Ht).
Qed.

(** X1.  The handle [__event_slot_alloc] computes for a slot is the one
    [event_slot_get] resolves to it: in a table of the regular shape the
    lookup finds the slot [(i, j)] exactly for the handle
    [i * EVENT_EPOLL_SLOTS + j]. *)
Theorem handle_round_trip p idx_ l :
  0 < EVENT_EPOLL_SLOTS →
  pool_wf p = true →
  is_Some (slot_at p l) →
  event_slot_get p idx_ = Returns (Some (l, event_slot_ref l p))
  ↔ idx_ = Z.of_nat l.1 * EVENT_EPOLL_SLOTS + Z.of_nat l.2.
Proof.
  intros Hs Hwf Hsome. split.
  - intros Hget. apply event_slot_get_Some in Hget as (Hl & _).
    by destruct (slot_of_idx_Some idx_ l Hs Hl) as (_ & ? & _).
  - intros ->. destruct Hsome as [s Hat].
    apply (event_slot_get_found p _ l s); [|done].
    destruct l as [i j]. apply slot_of_idx_handle.
    assert (Hsome : is_Some (slot_at p (i, j))) by (by eexists).
    apply (slot_at_is_Some_wf p (i, j) Hwf) in Hsome as [_ Hlt]. simpl in *. lia.
Qed.

(** X2.  What the lookup does with a handle, in a table of the regular
    shape.  No index is checked: a handle at or past the end of the
    table, or at or below [- EVENT_EPOLL_SLOTS], makes [event_slot_get]
    read outside [ereg]; a handle between [- EVENT_EPOLL_SLOTS] and 0
    reads below the first bucket, unless that bucket is NULL; and a slot
    is found only for a handle inside the table.  select_on, handled, the
    dispatch step and unregister (which returns -1 for a negative handle
    before it looks it up) pass both results on: the access outside ends
    them, and for a NULL bucket they return -1, log the missing slot and
    leave the pool as it is. *)
Theorem lookup_outcomes p idx_ :
  config_ok cfg →
  pool_wf p = true →
  (EVENT_EPOLL_TABLES * EVENT_EPOLL_SLOTS <= idx_ ∨ idx_ <= - EVENT_EPOLL_SLOTS →
   event_slot_get p idx_ = BadAccess)
  ∧ (- EVENT_EPOLL_SLOTS < idx_ < 0 →
     event_slot_get p idx_
     = match ereg p !! 0%nat with Some None => Returns None | _ => BadAccess end)
  ∧ (∀ l p1, event_slot_get p idx_ = Returns (Some (l, p1)) →
       0 <= idx_ < EVENT_EPOLL_TABLES * EVENT_EPOLL_SLOTS)
  ∧ (event_slot_get p idx_ = BadAccess →
     ∀ fd_ poll_in poll_out gen_ mask do_close_ ret,
       event_select_on_epoll p fd_ idx_ poll_in poll_out ret = BadAccess
       ∧ event_handled_epoll p fd_ idx_ gen_ ret = BadAccess
       ∧ event_dispatch_epoll_handler p (EpollEvent mask idx_ gen_) = BadAccess
       ∧ event_unregister_epoll_common p fd_ idx_ do_close_ ret
         = if idx_ <? 0 then Returns (-1, p, []) else BadAccess)
  ∧ (event_slot_get p idx_ = Returns None →
     ∀ fd_ poll_in poll_out gen_ mask do_close_ ret,
       event_select_on_epoll p fd_ idx_ poll_in poll_out ret
         = Returns (-1, p, [Log LG_MSG_SLOT_NOT_FOUND])
       ∧ event_handled_epoll p fd_ idx_ gen_ ret
         = Returns (-1, p, [Log LG_MSG_SLOT_NOT_FOUND])
       ∧ event_dispatch_epoll_handler p (EpollEvent mask idx_ gen_)
         = Returns (-1, p, [Log LG_MSG_SLOT_NOT_FOUND])
       ∧ event_unregister_epoll_common p fd_ idx_ do_close_ ret
         = Returns (-1, p, if idx_ <? 0 then [] else [Log LG_MSG_SLOT_NOT_FOUND])).
Proof.
  intros [Ht Hs Hfit _] Hwf.
  pose proof (pool_wf_length p Hwf) as Hlen.
  split; [|split; [|split; [|split]]].
  - intros Hout. unfold event_slot_get.
    destruct (Z.ltb_spec (Z.quot idx_ EVENT_EPOLL_SLOTS) 0) as [|Hq]; [done|].
    destruct Hout as [Hhi|Hlo].
    + assert (Hge : EVENT_EPOLL_TABLES <= Z.quot idx_ EVENT_EPOLL_SLOTS).
      { rewrite Z.quot_div_nonneg by nia. apply Z.div_le_lower_bound; lia. }
      rewrite (proj2 (lookup_ge_None (ereg p) _)); [done|]. lia.
    + exfalso. assert (Hneg : Z.quot idx_ EVENT_EPOLL_SLOTS <= -1); [|lia].
      replace idx_ with (- - idx_) by lia. rewrite Z.quot_opp_l by lia.
      rewrite Z.quot_div_nonneg by lia.
      assert (1 <= - idx_ / EVENT_EPOLL_SLOTS) by (apply Z.div_le_lower_bound; lia).
      lia.
  - intros Hin. unfold event_slot_get.
    assert (Hq : Z.quot idx_ EVENT_EPOLL_SLOTS = 0).
    { replace idx_ with (- - idx_) by lia. rewrite Z.quot_opp_l by lia.
      rewrite Z.quot_small; lia. }
    assert (Hr : Z.rem idx_ EVENT_EPOLL_SLOTS = idx_).
    { replace idx_ with (- - idx_) at 1 by lia. rewrite Z.rem_opp_l by lia.
      rewrite Z.rem_small; lia. }
    rewrite Hq, Hr. change (0 <? 0) with false. cbv iota. change (Z.to_nat 0) with 0%nat.
    destruct (ereg p !! 0%nat) as [[table|]|]; try done.
    by destruct (Z.ltb_spec idx_ 0); [|lia].
  - intros l p1 Hget. apply event_slot_get_Some in Hget as (Hl & _ & Hsome).
    destruct (slot_of_idx_Some idx_ l Hs Hl) as (H0 & -> & Hj). split; [done|].
    apply (slot_at_is_Some_wf p l Hwf) in Hsome as [[table Htab] _].
    apply lookup_lt_Some in Htab. nia.
  - intros Hbad fd_ poll_in poll_out gen_ mask do_close_ ret.
    unfold event_select_on_epoll, event_handled_epoll, event_dispatch_epoll_handler,
      event_unregister_epoll_common. cbn [ev_idx]. by rewrite Hbad.
  - intros Hnone fd_ poll_in poll_out gen_ mask do_close_ ret.
    unfold event_select_on_epoll, event_handled_epoll, event_dispatch_epoll_handler,
      event_unregister_epoll_common. cbn [ev_idx]. rewrite Hnone.
    repeat split. by destruct (idx_ <? 0).
Qed.

End Handles.

(** X1 on [pool_two]: the slot at offset 1 of the first bucket. *)
Lemma handle_round_trip_witness :
  0 < @EVENT_EPOLL_SLOTS small_config
  ∧ pool_wf (cfg := small_config) pool_two = true
  ∧ is_Some (slot_at pool_two (0, 1)%nat)
  ∧ @event_slot_get small_config pool_two 1
    = Returns (Some ((0, 1)%nat, event_slot_ref (0, 1)%nat pool_two)).
Proof.
  assert (Hs : 0 < @EVENT_EPOLL_SLOTS small_config) by reflexivity.
  assert (Hwf : pool_wf (cfg := small_config) pool_two = true) by reflexivity.
  assert (Hsome : is_Some (slot_at pool_two (0, 1)%nat)) by (eexists; reflexivity).
  split; [exact Hs|]. split; [exact Hwf|]. split; [exact Hsome|].
  apply (handle_round_trip (cfg := small_config) pool_two 1 (0, 1)%nat Hs Hwf Hsome).
  reflexivity.
Defined.

(** X2 on [pool_one], whose second bucket is not allocated: handle 2 is
    not found, handle 4 is past the table and handle -1 is below the
    first bucket. *)
Lemma lookup_outcomes_witness :
  config_ok small_config
  ∧ pool_wf (cfg := small_config) pool_one = true
  ∧ @event_select_on_epoll small_config pool_one 9 2 1 1 0
    = Returns (-1, pool_one, [Log LG_MSG_SLOT_NOT_FOUND])
  ∧ @event_slot_get small_config pool_one 4 = BadAccess
  ∧ @event_handled_epoll small_config pool_one 5 (-1) 1 0 = BadAccess.
Proof.
  assert (Hwf : pool_wf (cfg := small_config) pool_one = true) by reflexivity.
  split; [exact small_config_ok|]. split; [exact Hwf|].
  split; [|split].
  - exact (proj1 (proj2 (proj2 (proj2 (proj2
             (lookup_outcomes (cfg := small_config) pool_one 2 small_config_ok Hwf))))
             eq_refl 9 1 1 0 0 0 0)).
  - apply (proj1 (lookup_outcomes (cfg := small_config) pool_one 4 small_config_ok Hwf)).
    left. vm_compute. congruence.
  - destruct (lookup_outcomes (cfg := small_config) pool_one (-1) small_config_ok Hwf)
      as (_ & Hneg & _ & Hbad & _).
    assert (Hget : @event_slot_get small_config pool_one (-1) = BadAccess).
    { rewrite Hneg; [reflexivity|]. vm_compute. split; reflexivity. }
    exact (proj1 (proj2 (Hbad Hget 5 1 1 1 0 0 0))).
Defined.

Section Allocation.

Context {cfg : event_config}.

(** ** Allocation *)

(** A returning run of [__event_slot_alloc_from], with what the search
    has passed over: in the bucket of the claimed slot every slot below
    it is in use. *)
Lemma slot_alloc_from_first_free fd_ notify ok rest : ∀ i p h l p',
  0 < EVENT_EPOLL_SLOTS →
  __event_slot_alloc_from rest i p fd_ notify ok = Returns (h, Some l, p') →
  ∃ old p0 table,
    ((p0 = p ∧ ereg p !! l.1 = Some (Some table))
     ∨ (p0 = __event_newtable p l.1 ∧ table = free_table ∧ l.2 = 0%nat
        ∧ ∀ t, ereg p !! l.1 ≠ Some (Some t)))
    ∧ ereg p0 !! l.1 = Some (Some table)
    ∧ table !! l.2 = Some old ∧ fd old = -1
    ∧ (∀ j y, table !! j = Some y → (j < l.2)%nat → fd y ≠ -1)
    ∧ (h, Some l, p') = slot_claim p0 l.1 l.2 old fd_ notify.
Proof.
  induction rest as [|rest IH]; intros i p h l p' Hs Hrun; [done|].
  simpl in Hrun.
  destruct (ereg p !! i) as [[table|]|] eqn:Hi.
  - destruct (table !! 0%nat) as [t0|]; [|done].
    destruct (slots_used t0 =? EVENT_EPOLL_SLOTS); [done|].
    destruct (list_find _ table) as [[j old]|] eqn:Hfind.
    + apply list_find_Some in Hfind as (Hj & Hfree & Hbelow).
      assert (Hl : l = (i, j)).
      { unfold slot_claim in Hrun. by injection Hrun as _ <- _. }
      subst l. exists old, p, table. simpl.
      split; [by left|]. split; [done|]. split; [done|]. split; [done|].
      split; [exact Hbelow|].
      destruct (slot_claim p i j old fd_ notify) as [[h0 ol0] p0'].
      by injection Hrun as <- <- <-.
    + by apply (IH _ _ _ _ _ Hs Hrun).
  - destruct ok; [|done].
    assert (Hlt : (i < length (ereg p))%nat) by (by apply lookup_lt_Some in Hi).
    rewrite list_lookup_insert_eq in Hrun by done.
    rewrite (list_find_free_table Hs) in Hrun.
    assert (Hl : l = (i, 0%nat)).
    { unfold slot_claim in Hrun. by injection Hrun as _ <- _. }
    subst l. exists (set_fd (-1) zero_slot), (__event_newtable p i), free_table. simpl.
    split; [right; by rewrite Hi|].
    split; [by apply list_lookup_insert_eq|].
    split.
    { unfold free_table. destruct (Z.to_nat EVENT_EPOLL_SLOTS) eqn:E; [lia|done]. }
    split; [done|]. split; [intros; lia|].
    destruct (slot_claim _ i 0 _ fd_ notify) as [[h0 ol0] p0'].
    by injection Hrun as <- <- <-.
  - destruct ok; [|done].
    apply lookup_ge_None in Hi.
    by rewrite list_insert_ge, (proj2 (lookup_ge_None _ _) Hi) in Hrun.
Qed.

(** X3.  [__event_slot_alloc] never hands out a slot that is in use: the
    slot it claims had [fd = -1] (or lies in a bucket it has just
    allocated), it is the lowest such slot of its bucket, and every other
    slot is left as it was, the counter [slots_used] apart. *)
Theorem slot_alloc_takes_first_free p fd_ notify ok h l p' :
  0 < EVENT_EPOLL_SLOTS →
  __event_slot_alloc p fd_ notify ok = Returns (h, Some l, p') →
  (∀ s, slot_at p l = Some s → fd s = -1)
  ∧ (∀ j s, (j < l.2)%nat → slot_at p (l.1, j) = Some s → fd s ≠ -1)
  ∧ (∀ l' s, l' ≠ l → slot_at p l' = Some s →
       ∃ s', slot_at p' l' = Some s' ∧ eq_but_used s' s).
Proof.
  intros Hs Hrun. unfold __event_slot_alloc in Hrun.
  destruct (slot_alloc_from_first_free _ _ _ _ _ _ _ _ _ Hs Hrun)
    as (old & p0 & table & Hp0 & Htab & Hj & Hfree & Hbelow & Hclaim).
  destruct l as [i j]. simpl in *.
  assert (Hp' : p' = (slot_claim p0 i j old fd_ notify).2) by (by rewrite <- Hclaim).
  split; [|split].
  - intros s Hat. destruct Hp0 as [[-> Ht]|(_ & _ & _ & Hnone)].
    + unfold slot_at in Hat. simpl in Hat. rewrite Ht, Hj in Hat. by injection Hat as <-.
    + unfold slot_at in Hat. simpl in Hat.
      destruct (ereg p !! i) as [[t|]|]; try done. by destruct (Hnone t).
  - intros j' s Hlt Hat. destruct Hp0 as [[-> Ht]|(_ & _ & -> & _)]; [|lia].
    unfold slot_at in Hat. simpl in Hat. rewrite Ht in Hat. by eapply Hbelow.
  - intros l' s Hne Hat.
    assert (Hat0 : slot_at p0 l' = Some s).
    { destruct Hp0 as [[-> _]|(-> & _ & _ & Hnone)]; [done|]. by apply slot_at_newtable. }
    destruct (slot_claim_other p0 i j old fd_ notify l' s Hne Hat0) as (s' & Hat' & Heq).
    exists s'. subst p'. split; [done|]. rewrite Heq. reflexivity.
Qed.

(** X4.  The counter [slots_used] of a bucket lives in its first slot,
    which the allocation wipes like any other: after an allocation of
    offset 0 the counter is 1 whatever it was; after an allocation of
    another offset it is one more than before. *)
Theorem slot_alloc_counter p fd_ notify ok h l p' :
  0 < EVENT_EPOLL_SLOTS →
  __event_slot_alloc p fd_ notify ok = Returns (h, Some l, p') →
  ∃ t0', slot_at p' (l.1, 0%nat) = Some t0'
    ∧ (l.2 = 0%nat → slots_used t0' = 1)
    ∧ (l.2 ≠ 0%nat → ∀ t0, slot_at p (l.1, 0%nat) = Some t0 →
         slots_used t0' = wrap_int (slots_used t0 + 1)).
Proof.
  intros Hs Hrun. unfold __event_slot_alloc in Hrun.
  destruct (slot_alloc_from_first_free _ _ _ _ _ _ _ _ _ Hs Hrun)
    as (old & p0 & table & Hp0 & Htab & Hj & Hfree & Hbelow & Hclaim).
  destruct l as [i j]. simpl in *.
  assert (Hp' : p' = (slot_claim p0 i j old fd_ notify).2) by (by rewrite <- Hclaim).
  pose proof (slot_at_table _ _ _ _ _ Htab Hj) as Hold.
  subst p'. unfold slot_claim, event_slot_ref. cbn [fst snd].
  destruct (decide (j = 0%nat)) as [->|Hj0].
  - rewrite !slot_at_upd_eq.
    destruct (notify =? 0).
    + rewrite slot_at_upd_eq, Hold. eexists. split; [reflexivity|]. split; [done|lia].
    + rewrite slot_at_set_poller_death, !slot_at_upd_eq, Hold.
      eexists. split; [reflexivity|]. split; [done|lia].
  - assert (Hne : (i, j) ≠ (i, 0%nat)) by congruence.
    destruct Hp0 as [[-> Ht]|(_ & _ & -> & _)]; [|done].
    destruct (lookup_lt_is_Some_2 table 0%nat) as [t0 Ht0].
    { apply lookup_lt_Some in Hj. lia. }
    pose proof (slot_at_table _ _ _ _ _ Ht Ht0) as Hat0.
    rewrite slot_at_upd_ne, slot_at_upd_eq by done.
    destruct (notify =? 0).
    + rewrite slot_at_upd_ne, Hat0 by done.
      eexists. split; [reflexivity|]. split; [done|].
      intros _ t0' [= <-]. reflexivity.
    + rewrite slot_at_set_poller_death, !slot_at_upd_ne, Hat0 by done.
      eexists. split; [reflexivity|]. split; [done|].
      intros _ t0' [= <-]. reflexivity.
Qed.

End Allocation.

(** X3 on [pool_one]: the second registration gets offset 1. *)
Lemma slot_alloc_takes_first_free_witness :
  0 < @EVENT_EPOLL_SLOTS small_config
  ∧ ∃ p',
      @__event_slot_alloc small_config pool_one 6 0 true
        = Returns (1, Some (0, 1)%nat, p')
      ∧ ∀ s, slot_at pool_one (0, 0)%nat = Some s → fd s ≠ -1.
Proof.
  assert (Hs : 0 < @EVENT_EPOLL_SLOTS small_config) by reflexivity.
  split; [exact Hs|].
  assert (Hrun : ∃ p', @__event_slot_alloc small_config pool_one 6 0 true
                       = Returns (1, Some (0, 1)%nat, p')).
  { eexists. vm_compute. reflexivity. }
  destruct Hrun as [p' Hrun]. exists p'. split; [exact Hrun|].
  destruct (slot_alloc_takes_first_free (cfg := small_config) pool_one 6 0 true 1
              (0, 1)%nat p' Hs Hrun) as (_ & Hbelow & _).
  intros s Hat. apply (Hbelow 0%nat s); [simpl; lia | exact Hat].
Defined.

Section TableShape.

Context {cfg : event_config}.

(** ** The shape of the table and the fields beside it *)

Lemma forallb_alter {A} (P : A → bool) (g : A → A) i (l : list A) :
  (∀ x, P (g x) = P x) → forallb P (alter g i l) = forallb P l.
Proof.
  intros Hg. revert i. induction l as [|x l IH]; intros [|i]; try done.
  - cbn. by rewrite Hg.
  - cbn. f_equal. apply IH.
Qed.

Lemma pool_wf_slot_upd f l p : pool_wf (slot_upd f l p) = pool_wf p.
Proof.
  unfold pool_wf, slot_upd. simpl. rewrite length_alter. f_equal.
  apply forallb_alter. intros [t|]; simpl; [|done]. by rewrite length_alter.
Qed.

Lemma pool_wf_newtable p i : pool_wf p = true → pool_wf (__event_newtable p i) = true.
Proof.
  unfold pool_wf, __event_newtable. simpl. rewrite length_insert.
  intros [Hlen Hall]%andb_true_iff. apply andb_true_iff. split; [done|].
  rewrite list_insert_alter. rewrite forallb_forall in Hall. apply forallb_forall.
  intros ot Hin. apply list_elem_of_In, list_elem_of_lookup in Hin as [k Hk].
  rewrite list_lookup_alter in Hk. case_decide.
  - apply fmap_Some in Hk as (x & _ & ->).
    apply Nat.eqb_eq. unfold free_table. apply length_replicate.
  - apply Hall, list_elem_of_In. eapply list_elem_of_lookup_2; eauto.
Qed.

Lemma shape_kept_refl p : shape_kept p p.
Proof. by split. Qed.

Lemma shape_kept_trans p p' p'' :
  shape_kept p p' → shape_kept p' p'' → shape_kept p p''.
Proof.
  unfold shape_kept, same_but_slots. intros [H1 W1] [H2 W2].
  split; [congruence | auto].
Qed.

Lemma shape_kept_slot_upd f l p : shape_kept p (slot_upd f l p).
Proof. split; [done|]. by rewrite pool_wf_slot_upd. Qed.

Lemma shape_kept_set_poller_death v p : shape_kept p (set_poller_death v p).
Proof. by split. Qed.

Lemma shape_kept_newtable p i : shape_kept p (__event_newtable p i).
Proof. split; [done|]. apply pool_wf_newtable. Qed.

Lemma same_but_slots_fields p p' :
  same_but_slots p p' →
  pool_fd p' = pool_fd p ∧ eventthreadcount p' = eventthreadcount p
  ∧ activethreadcount p' = activethreadcount p ∧ destroy p' = destroy p
  ∧ pollers p' = pollers p ∧ poller_gen p' = poller_gen p
  ∧ poller_death_sliced p' = poller_death_sliced p.
Proof. destruct p, p'. unfold same_but_slots. simpl. intros [=]. by subst. Qed.

(** Chains [shape_kept] through the steps of a function. *)
Ltac shape_step :=
  first [ apply shape_kept_refl
        | apply shape_kept_slot_upd
        | apply shape_kept_set_poller_death
        | apply shape_kept_newtable
        | eapply shape_kept_trans; [|first [ apply shape_kept_slot_upd
                                           | apply shape_kept_set_poller_death
                                           | apply shape_kept_newtable ]] ].






Lemma shape_kept_slot_claim p i j old fd_ notify :
  shape_kept p (slot_claim p i j old fd_ notify).2.
Proof.
  unfold slot_claim, event_slot_ref. cbn [snd].
  destruct (notify =? 0); repeat shape_step.
Qed.

Lemma shape_kept_slot_alloc p fd_ notify ok h ol p' :
  0 < EVENT_EPOLL_SLOTS →
  __event_slot_alloc p fd_ notify ok = Returns (h, ol, p') → shape_kept p p'.
Proof.
  intros Hs Hrun. unfold __event_slot_alloc in Hrun.
  apply slot_alloc_from_inv in Hrun
    as [(_ & _ & ->)|(i & j & old & p0 & table & _ & Hp0 & _ & _ & _ & Hclaim)];
    [shape_step| |done].
  assert (Hp' : p' = (slot_claim p0 i j old fd_ notify).2) by (by rewrite <- Hclaim).
  rewrite Hp'. eapply shape_kept_trans; [|apply shape_kept_slot_claim].
  destruct Hp0 as [[-> _]|(-> & _ & _)]; shape_step.
Qed.








End TableShape.

(** X4 on [pool_first_freed]: offset 1 is in use, offset 0 is claimed
    again and the counter of the bucket drops from 1 to 1. *)
Lemma slot_alloc_counter_witness :
  0 < @EVENT_EPOLL_SLOTS small_config
  ∧ (fd <$> slot_at pool_first_freed (0, 1)%nat) = Some 6
  ∧ ∃ p' t0',
      @__event_slot_alloc small_config pool_first_freed 7 0 true
        = Returns (0, Some (0, 0)%nat, p')
      ∧ slot_at p' (0, 0)%nat = Some t0' ∧ slots_used t0' = 1.
Proof.
  assert (Hs : 0 < @EVENT_EPOLL_SLOTS small_config) by reflexivity.
  split; [exact Hs|]. split; [reflexivity|].
  assert (Hrun : ∃ p', @__event_slot_alloc small_config pool_first_freed 7 0 true
                       = Returns (0, Some (0, 0)%nat, p')).
  { eexists. vm_compute. reflexivity. }
  destruct Hrun as [p' Hrun].
  destruct (slot_alloc_counter (cfg := small_config) pool_first_freed 7 0 true 0
              (0, 0)%nat p' Hs Hrun) as (t0' & Hat & Hzero & _).
  exists p', t0'. split; [exact Hrun|]. split; [exact Hat|]. exact (Hzero eq_refl).
Defined.


Section Registration.

Context {cfg : event_config}.

(** ** Registration *)

(** A successful [__event_slot_alloc] in a table of the regular shape:
    the handle, and the slot as the allocation leaves it. *)
Lemma slot_alloc_success p fd_ notify ok h l p' :
  config_ok cfg →
  pool_wf p = true →
  __event_slot_alloc p fd_ notify ok = Returns (h, Some l, p') →
  slot_of_idx h = Some l ∧ 0 <= h
  ∧ ∃ s, slot_at p' l = Some s
      ∧ fd s = fd_ ∧ ref s = 1 ∧ in_handler s = 0 ∧ handled_error s = 0
      ∧ do_close s = 0.
Proof.
  intros [Ht Hs Hfit _] Hwf Hrun. unfold __event_slot_alloc in Hrun.
  apply slot_alloc_from_inv in Hrun
    as [[? _]|(i & j & old & p0 & table & Hi & Hp0 & Htab & Hj & Hfree & Hclaim)];
    [done| |done].
  assert (Hlen : length table = Z.to_nat EVENT_EPOLL_SLOTS).
  { destruct Hp0 as [[-> Hp]|(_ & -> & _)]; [by eapply pool_wf_table|].
    apply length_replicate. }
  apply lookup_lt_Some in Hj as Hjlt. rewrite Hlen in Hjlt.
  destruct (slot_claim_here p0 i j old fd_ notify (slot_at_table _ _ _ _ _ Htab Hj))
    as (s & Hat & Hfd & _ & _ & Href & Hin & Herr & Hdc).
  rewrite <- Hclaim in Hat. simpl in Hat.
  assert (Hh : h = Z.of_nat i * EVENT_EPOLL_SLOTS + Z.of_nat j).
  { unfold slot_claim in Hclaim. injection Hclaim as -> _ _.
    apply wrap_int_small. unfold int_range, INT_MIN. nia. }
  unfold slot_claim in Hclaim. injection Hclaim as _ -> _.
  split; [rewrite Hh; apply slot_of_idx_handle; lia|]. split; [nia|].
  exists s. done.
Qed.

Lemma slot_update_events_no_ctl s poll_in poll_out :
  epoll_ctl_calls (__slot_update_events s poll_in poll_out).2 = [].
Proof. unfold __slot_update_events. by tri_valued_cases poll_in poll_out. Qed.

Lemma register_locked_slot epfd s fd_ idx_ handler_ data_ poll_in poll_out :
  let s1 := (event_register_epoll_locked epfd s fd_ idx_ handler_ data_
                                         poll_in poll_out).1 in
  s1 = set_events (events s1) (set_data data_ (set_handler handler_ s))
  ∧ events s1 = EPOLL_ALWAYS + (if poll_in =? 1 then EPOLLIN else 0)
                + (if poll_out =? 1 then EPOLLOUT else 0)
  ∧ epoll_ctl_calls
      (event_register_epoll_locked epfd s fd_ idx_ handler_ data_
                                   poll_in poll_out).2
    = [Epoll_ctl epfd EPOLL_CTL_ADD fd_ (Some (EpollEvent (events s1) idx_ (gen s)))].
Proof.
  unfold event_register_epoll_locked. fold EPOLL_ALWAYS.
  set (s0 := set_data data_ (set_handler handler_ (set_events EPOLL_ALWAYS s))).
  pose proof (slot_update_events_frame s0 poll_in poll_out) as Hframe.
  pose proof (slot_update_events_events s0 poll_in poll_out) as Hev.
  pose proof (slot_update_events_no_ctl s0 poll_in poll_out) as Hlogs.
  destruct (__slot_update_events s0 poll_in poll_out) as [s1 logs]. simpl in *.
  split; [by rewrite Hframe|]. split.
  - rewrite Hev. by tri_valued_cases poll_in poll_out.
  - rewrite epoll_ctl_calls_app, Hlogs. by rewrite Hframe.
Qed.


(** X6.  A registration that succeeds can be looked up under the handle
    it returns: the slot of that handle holds the fd, the handler and the
    data, one reference, no handler in progress and no pending close; its
    mask is error, hangup, priority and one-shot, with read and write as
    asked (1 asks, any other value does not); and exactly one [epoll_ctl]
    was made, EPOLL_CTL_ADD of the fd with that mask and the payload
    (handle, gen of the slot). *)
Theorem register_then_lookup p fd_ handler_ data_ poll_in poll_out notify ok ret
    idx_ p' tr :
  config_ok cfg →
  pool_wf p = true →
  event_register_epoll p fd_ handler_ data_ poll_in poll_out notify ok ret
    = Returns (idx_, p', tr) →
  0 <= idx_ →
  ∃ l s,
    event_slot_get p' idx_ = Returns (Some (l, event_slot_ref l p'))
    ∧ slot_at p' l = Some s
    ∧ fd s = fd_ ∧ handler s = handler_ ∧ data s = data_
    ∧ ref s = 1 ∧ in_handler s = 0 ∧ handled_error s = 0 ∧ do_close s = 0
    ∧ events s = EPOLL_ALWAYS + (if poll_in =? 1 then EPOLLIN else 0)
                 + (if poll_out =? 1 then EPOLLOUT else 0)
    ∧ epoll_ctl_calls tr
      = [Epoll_ctl (pool_fd p) EPOLL_CTL_ADD fd_
                   (Some (EpollEvent (events s) idx_ (gen s)))].
Proof.
  intros Hcfg Hwf Hrun Hidx. unfold event_register_epoll in Hrun.
  destruct (destroy p =? 1); [injection Hrun as <- _ _; lia|].
  destruct (__event_slot_alloc p fd_ notify ok) as [[[h ol] p1]| |] eqn:Halloc; try done.
  destruct ol as [l|]; [|destruct (h <? 0); [injection Hrun as <- _ _; lia|done]].
  destruct (h <? 0); [injection Hrun as <- _ _; lia|].
  destruct (slot_alloc_success p fd_ notify ok h l p1 Hcfg Hwf Halloc)
    as (Hl & _ & s & Hat & Hfd & Href & Hin & Herr & Hdc).
  pose proof (shape_kept_slot_alloc _ _ _ _ _ _ _ (slots_pos _ Hcfg) Halloc) as [Hsame _].
  destruct (same_but_slots_fields _ _ Hsame) as (Hpfd & _).
  rewrite Hat in Hrun. rewrite Hfd, Z.eqb_refl in Hrun. cbn [negb] in Hrun.
  pose proof (register_locked_slot (pool_fd p1) s fd_ h handler_ data_ poll_in poll_out)
    as (Hs1 & Hev & Hctl).
  destruct (event_register_epoll_locked _ s _ _ _ _ _ _) as [s1 tr1].
  cbn [fst snd] in Hs1, Hev, Hctl.
  destruct (ret =? -1).
  { destruct (event_slot_unref _ l h) as [[p3 tr3]| |]; try done.
    injection Hrun as <- _ _. lia. }
  injection Hrun as <- <- <-.
  assert (Hat1 : slot_at (slot_upd (λ _, s1) l p1) l = Some s1)
    by (by rewrite slot_at_upd_eq, Hat).
  exists l, s1. split; [by apply (event_slot_get_found _ _ _ s1)|].
  split; [done|]. rewrite Hs1. cbn. rewrite Hpfd in Hctl.
  rewrite Hs1 in Hev. cbn in Hev. repeat split; try done;
    rewrite Hctl; by rewrite Hs1.
Qed.

(** The slots of a pool are the same positions before and after an
    assignment through a slot pointer. *)
Lemma slot_at_upd_is_Some f l p l' :
  is_Some (slot_at (slot_upd f l p) l') ↔ is_Some (slot_at p l').
Proof. rewrite slot_at_upd. case_decide; [apply fmap_is_Some|done]. Qed.

Lemma slot_dealloc_is_Some p i off l :
  is_Some (slot_at (__event_slot_dealloc p i off) l) ↔ is_Some (slot_at p l).
Proof.
  unfold __event_slot_dealloc. destruct (slot_at p (i, off)); [|done].
  destruct (_ =? -1); rewrite ?slot_at_upd_is_Some, slot_at_set_poller_death;
    apply slot_at_upd_is_Some.
Qed.

Lemma event_slot_unref_is_Some p slot idx_ l :
  is_Some (slot_at (unref_in_table p slot idx_).1 l) ↔ is_Some (slot_at p l).
Proof.
  unfold unref_in_table. destruct (slot_at p slot); [|done].
  destruct (_ =? 0); cbn [fst]; [|apply slot_at_upd_is_Some].
  unfold dealloc_in_table. destruct (slot_of_idx idx_) as [[i off]|].
  - destruct (_ !! i) as [[t|]|]; rewrite ?slot_dealloc_is_Some, !slot_at_upd_is_Some; done.
  - by rewrite !slot_at_upd_is_Some.
Qed.

Lemma slot_claim_is_Some p i j old fd_ notify l :
  is_Some (slot_at (slot_claim p i j old fd_ notify).2 l) ↔ is_Some (slot_at p l).
Proof.
  unfold slot_claim, event_slot_ref. cbn [snd]. rewrite !slot_at_upd_is_Some.
  destruct (notify =? 0); [apply slot_at_upd_is_Some|].
  by rewrite slot_at_set_poller_death, !slot_at_upd_is_Some.
Qed.

Lemma slot_at_newtable_inv p i l s :
  slot_at (__event_newtable p i) l = Some s →
  slot_at p l = Some s ∨ (l.1 = i ∧ s = set_fd (-1) zero_slot).
Proof.
  unfold slot_at, __event_newtable. simpl. intros Hs.
  destruct (decide (i = l.1)) as [->|Hne].
  - destruct (ereg p !! l.1) as [ot|] eqn:Ht.
    + rewrite list_lookup_insert_eq in Hs by (by apply lookup_lt_Some in Ht).
      right. split; [done|]. unfold free_table in Hs.
      by apply lookup_replicate in Hs as [-> _].
    + rewrite list_insert_ge in Hs by (by apply lookup_ge_None).
      by rewrite Ht in Hs.
  - left. by rewrite list_lookup_insert_ne in Hs.
Qed.

(** X7.  When the kernel refuses the EPOLL_CTL_ADD, the registration is
    rolled back: register returns -1, every slot that was in use is as it
    was (the counter [slots_used] apart), no other slot is in use, and no
    fd is closed. *)
Theorem register_add_failure_rolls_back p fd_ handler_ data_ poll_in poll_out notify
    ok r p' tr :
  config_ok cfg →
  pool_wf p = true →
  event_register_epoll p fd_ handler_ data_ poll_in poll_out notify ok (-1)
    = Returns (r, p', tr) →
  r = -1
  ∧ (∀ l s, slot_at p l = Some s → fd s ≠ -1 →
       ∃ s', slot_at p' l = Some s' ∧ eq_but_used s' s)
  ∧ (∀ l s', slot_at p' l = Some s' → fd s' ≠ -1 →
       ∃ s, slot_at p l = Some s ∧ eq_but_used s' s)
  ∧ (∀ x, Sys_close x ∉ tr).
Proof.
  intros Hcfg Hwf Hrun. unfold event_register_epoll in Hrun.
  assert (Htriv : ∀ tr0, Returns (-1, p, tr0) = Returns (r, p', tr) →
            (∀ x, Sys_close x ∉ tr0) →
            r = -1
            ∧ (∀ l s, slot_at p l = Some s → fd s ≠ -1 →
                 ∃ s', slot_at p' l = Some s' ∧ eq_but_used s' s)
            ∧ (∀ l s', slot_at p' l = Some s' → fd s' ≠ -1 →
                 ∃ s, slot_at p l = Some s ∧ eq_but_used s' s)
            ∧ (∀ x, Sys_close x ∉ tr)).
  { intros tr0 [= <- <- <-] Hno. split; [done|].
    split; [intros l s Hs _; by exists s|]. split; [intros l s Hs _; by exists s|]. done. }
  destruct (destroy p =? 1).
  { apply (Htriv _ Hrun). intros x Hx. by apply elem_of_nil in Hx. }
  destruct (__event_slot_alloc p fd_ notify ok) as [[[h ol] p1]| |] eqn:Halloc; try done.
  assert (Hfail : ol = None → p1 = p).
  { intros ->. unfold __event_slot_alloc in Halloc.
    apply slot_alloc_from_inv in Halloc as [(_ & _ & ->)|(? & ? & ? & ? & ? & _ & _ & _ & _ & _ & Hc)];
      [done| |apply (slots_pos _ Hcfg)].
    unfold slot_claim in Hc. by injection Hc. }
  destruct ol as [l|].
  2: { destruct (h <? 0); [|done]. rewrite (Hfail eq_refl) in Hrun.
       apply (Htriv _ Hrun). intros x Hx.
       apply list_elem_of_singleton in Hx. done. }
  destruct (slot_alloc_success p fd_ notify ok h l p1 Hcfg Hwf Halloc)
    as (Hl & Hh & s & Hat & Hfd & Href & Hin & Herr & Hdc).
  destruct (Z.ltb_spec h 0); [lia|].
  rewrite Hat in Hrun. rewrite Hfd, Z.eqb_refl in Hrun. cbn [negb] in Hrun.
  pose proof (register_locked_slot (pool_fd p1) s fd_ h handler_ data_ poll_in poll_out)
    as (Hs1 & _ & _).
  pose proof (slot_update_events_no_ctl
                (set_data data_ (set_handler handler_ (set_events EPOLL_ALWAYS s)))
                poll_in poll_out) as _.
  assert (Hlogs : ∀ x, Sys_close x ∉
            (event_register_epoll_locked (pool_fd p1) s fd_ h handler_ data_
                                         poll_in poll_out).2).
  { intros x. unfold event_register_epoll_locked.
    destruct (__slot_update_events _ poll_in poll_out) as [s0 logs] eqn:Hup.
    assert (Hl0 : ∀ e, e ∈ logs → ∃ m, e = Log m).
    { assert (logs = (__slot_update_events
                (set_data data_ (set_handler handler_
                   (set_events (Z.lor (Z.lor (Z.lor EPOLLPRI EPOLLHUP) EPOLLERR)
                                      EPOLLONESHOT) s))) poll_in poll_out).2) as ->
        by (by rewrite Hup).
      unfold __slot_update_events.
      tri_valued_cases poll_in poll_out; simpl; intros e He;
        repeat (apply elem_of_cons in He as [->|He]; [eauto|]);
        by apply elem_of_nil in He. }
    simpl. intros [Hx|Hx]%elem_of_app.
    - destruct (Hl0 _ Hx) as [m Hm]. done.
    - apply list_elem_of_singleton in Hx. done. }
  destruct (event_register_epoll_locked _ s _ _ _ _ _ _) as [s1 tr1].
  cbn [fst snd] in Hs1, Hlogs. rewrite Z.eqb_refl in Hrun.
  set (p2 := slot_upd (λ _, s1) l p1) in *.
  assert (Hat2 : slot_at p2 l = Some s1) by (subst p2; by rewrite slot_at_upd_eq, Hat).
  assert (Href1 : ref s1 = 1) by (by rewrite Hs1).
  assert (Hdc1 : do_close s1 = 0) by (by rewrite Hs1).
  rewrite (event_slot_unref_inside p2 h l Hl) in Hrun by eauto.
  destruct (event_slot_unref_here p2 h l s1 Hl Hat2) as (s3 & Hat3 & Hcase).
  rewrite Href1 in Hcase. change (wrap_int64 (1 - 1) =? 0) with true in Hcase.
  destruct Hcase as [Heq3 Htr3]. rewrite Hdc1 in Htr3. simpl in Htr3.
  assert (Hother : ∀ l' s0, l ≠ l' → slot_at p2 l' = Some s0 →
            ∃ s', slot_at (unref_in_table p2 l h).1 l' = Some s' ∧ eq_but_used s' s0).
  { intros l' s0 Hne Hs0. by apply event_slot_unref_other. }
  pose proof (event_slot_unref_is_Some p2 l h) as Hdom.
  destruct (unref_in_table p2 l h) as [p3 tr3]. cbn [fst snd] in *. subst tr3.
  injection Hrun as <- <- <-. split; [done|].
  (* what the allocation has done to the slots of [p] *)
  unfold __event_slot_alloc in Halloc.
  destruct (slot_alloc_from_first_free _ _ _ _ _ _ _ _ _ (slots_pos _ Hcfg) Halloc)
    as (old & p0 & table & Hp0 & Htab & Hj & Hfree & _ & Hclaim).
  assert (Hp1 : p1 = (slot_claim p0 l.1 l.2 old fd_ notify).2) by (by rewrite <- Hclaim).
  assert (Hl12 : l = (l.1, l.2)) by (by destruct l).
  pose proof (slot_at_table _ _ _ _ _ Htab Hj) as Hold. rewrite <- Hl12 in Hold.
  assert (Hfd3 : fd s3 = -1).
  { by apply eq_but_used_fields in Heq3 as (-> & _). }
  split; [|split].
  - intros l' s0 Hs0 Hused.
    assert (Hs00 : slot_at p0 l' = Some s0).
    { destruct Hp0 as [[-> _]|(-> & _ & _ & Hnone)]; [done|]. by apply slot_at_newtable. }
    destruct (decide (l' = l)) as [->|Hne]; [congruence|].
    destruct (slot_claim_other p0 l.1 l.2 old fd_ notify l' s0) as (s' & Hs' & Heq);
      [by rewrite <- Hl12|done|].
    rewrite <- Hp1 in Hs'.
    destruct (Hother l' s') as (s'' & Hs'' & Heq'');
      [done|subst p2; by rewrite slot_at_upd_ne|].
    exists s''. split; [done|]. eapply eq_but_used_trans; [exact Heq''|].
    rewrite Heq. reflexivity.
  - intros l' s' Hs' Hused.
    destruct (decide (l' = l)) as [->|Hne]; [congruence|].
    assert (Hsome0 : is_Some (slot_at p0 l')).
    { apply (slot_claim_is_Some p0 l.1 l.2 old fd_ notify). rewrite <- Hp1.
      apply (slot_at_upd_is_Some (λ _, s1) l). apply Hdom. eauto. }
    destruct Hsome0 as [s0 Hs0].
    destruct (slot_claim_other p0 l.1 l.2 old fd_ notify l' s0) as (s1' & Hs1' & Heq1);
      [by rewrite <- Hl12|done|].
    rewrite <- Hp1 in Hs1'.
    destruct (Hother l' s1') as (s'' & Hs'' & Heq'');
      [done|subst p2; by rewrite slot_at_upd_ne|].
    rewrite Hs' in Hs''. injection Hs'' as <-.
    assert (Heq0 : eq_but_used s' s0).
    { eapply eq_but_used_trans; [exact Heq''|]. rewrite Heq1. reflexivity. }
    destruct Hp0 as [[-> _]|(-> & _ & _ & Hnone)]; [by exists s0|].
    apply slot_at_newtable_inv in Hs0 as [Hs0|[_ ->]]; [by exists s0|].
    by apply eq_but_used_fields in Heq0 as (Hf & _).
  - intros x [Hx|Hx]%elem_of_app; [by apply (Hlogs x)|].
    rewrite ?app_nil_r in Hx. by apply list_elem_of_singleton in Hx.
Qed.

End Registration.

(** X6 on [pool_one]: the registration of fd 6 for reading and writing. *)
Lemma register_then_lookup_witness :
  config_ok small_config
  ∧ pool_wf (cfg := small_config) pool_one = true
  ∧ ∃ p' tr s,
      @event_register_epoll small_config pool_one 6 100 200 1 1 0 true 0
        = Returns (1, p', tr)
      ∧ slot_at p' (0, 1)%nat = Some s
      ∧ fd s = 6 ∧ events s = 1073741855.
Proof.
  assert (Hwf : pool_wf (cfg := small_config) pool_one = true) by reflexivity.
  split; [exact small_config_ok|]. split; [exact Hwf|].
  assert (Hrun : ∃ p' tr,
            @event_register_epoll small_config pool_one 6 100 200 1 1 0 true 0
            = Returns (1, p', tr)).
  { eexists _, _. vm_compute. reflexivity. }
  destruct Hrun as (p' & tr & Hrun).
  assert (Hidx : 0 <= 1) by (vm_compute; congruence).
  destruct (register_then_lookup (cfg := small_config) pool_one 6 100 200 1 1 0 true 0
              1 p' tr small_config_ok Hwf Hrun Hidx)
    as (l & s & Hget & Hat & Hfd & _ & _ & _ & _ & _ & _ & Hev & _).
  assert (Hl : l = (0, 1)%nat).
  { apply (event_slot_get_Some (cfg := small_config)) in Hget as (Hl & _).
    vm_compute in Hl. congruence. }
  subst l. exists p', tr, s. split; [exact Hrun|]. split; [exact Hat|].
  split; [exact Hfd|]. rewrite Hev. reflexivity.
Defined.

(** X7 on [pool_one]: the registration of fd 6, refused by the kernel. *)
Lemma register_add_failure_rolls_back_witness :
  config_ok small_config
  ∧ pool_wf (cfg := small_config) pool_one = true
  ∧ ∃ p' tr,
      @event_register_epoll small_config pool_one 6 100 200 1 1 0 true (-1)
        = Returns (-1, p', tr)
      ∧ ∀ l s', slot_at p' l = Some s' → fd s' ≠ -1 →
          ∃ s, slot_at pool_one l = Some s ∧ eq_but_used s' s.
Proof.
  assert (Hwf : pool_wf (cfg := small_config) pool_one = true) by reflexivity.
  split; [exact small_config_ok|]. split; [exact Hwf|].
  assert (Hrun : ∃ p' tr,
            @event_register_epoll small_config pool_one 6 100 200 1 1 0 true (-1)
            = Returns (-1, p', tr)).
  { eexists _, _. vm_compute. reflexivity. }
  destruct Hrun as (p' & tr & Hrun). exists p', tr. split; [exact Hrun|].
  exact (proj1 (proj2 (proj2
           (register_add_failure_rolls_back (cfg := small_config) pool_one 6 100 200
              1 1 0 true (-1) p' tr small_config_ok Hwf Hrun)))).
Defined.

Section Unregistration.

Context {cfg : event_config}.

(** ** Unregistration *)

(** [event_unregister_epoll_common] on a slot that is found and passes
    the assert, when EPOLL_CTL_DEL succeeds. *)
Lemma unregister_found p fd_ idx_ do_close_ ret l s :
  0 < EVENT_EPOLL_SLOTS →
  slot_of_idx idx_ = Some l → slot_at p l = Some s → fd s = fd_ →
  1 <= ref s < INT64_MAX → ret ≠ -1 →
  let s1 := set_gen (wrap_int (gen s + 1)) (set_do_close do_close_ s) in
  ∃ p' tr s',
    event_unregister_epoll_common p fd_ idx_ do_close_ ret = Returns (ret, p', tr)
    ∧ pool_fd p' = pool_fd p
    ∧ slot_at p' l = Some s'
    ∧ (ref s ≠ 1 →
       s' = set_ref (ref s - 1) s1
       ∧ tr = [Epoll_ctl (pool_fd p) EPOLL_CTL_DEL fd_ None])
    ∧ (ref s = 1 →
       eq_but_used s' (dealloc_slot (set_do_close 0 (set_ref 0 s1)))
       ∧ tr = Epoll_ctl (pool_fd p) EPOLL_CTL_DEL fd_ None
              :: (if do_close_ =? 0 then [] else [Sys_close fd_])).
Proof.
  intros Hslots Hl Hs Hfd Hr Hret s1.
  destruct (slot_of_idx_Some idx_ l Hslots Hl) as [H0 _].
  unfold event_unregister_epoll_common.
  destruct (Z.ltb_spec idx_ 0); [lia|].
  destruct (event_slot_get_found p _ l s Hl Hs) as [-> Hget].
  rewrite Hget. cbn [fd set_ref]. rewrite Hfd, Z.eqb_refl. cbn [negb].
  unfold event_unregister_epoll_locked.
  destruct (Z.eqb_spec ret (-1)) as [?|_]; [done|].
  assert (Hinc : wrap_int64 (ref s + 1) = ref s + 1).
  { apply wrap_int64_small. unfold int64_range, INT64_MIN, INT64_MAX in *. lia. }
  set (p2 := slot_upd _ l (event_slot_ref l p)).
  assert (H2 : slot_at p2 l = Some (set_ref (ref s + 1) s1)).
  { subst p2. by rewrite slot_at_upd_eq, Hget, Hinc. }
  assert (Hpfd2 : pool_fd p2 = pool_fd p) by done.
  destruct (event_slot_unref_here p2 idx_ l _ Hl H2) as (s3 & Hat3 & Hcase3).
  cbn [ref set_ref] in Hcase3.
  replace (ref s1 + 1 - 1) with (ref s) in Hcase3 by (subst s1; simpl; lia).
  replace (ref s + 1 - 1) with (ref s) in Hcase3 by lia.
  rewrite wrap_int64_small in Hcase3
    by (unfold int64_range, INT64_MIN, INT64_MAX in *; lia).
  destruct (Z.eqb_spec (ref s) 0) as [?|_]; [lia|].
  destruct Hcase3 as [-> Htr3]. rewrite set_ref_set_ref in Hat3.
  pose proof (pool_fd_event_slot_unref p2 l idx_) as Hpfd3.
  rewrite (event_slot_unref_inside p2 idx_ l Hl) by eauto.
  destruct (unref_in_table p2 l idx_) as [p3 tr3]. cbn [fst snd] in *. subst tr3.
  destruct (event_slot_unref_here p3 idx_ l _ Hl Hat3) as (s4 & Hat4 & Hcase4).
  cbn [ref set_ref do_close fd] in Hcase4.
  rewrite (wrap_int64_small (ref s - 1)) in Hcase4
    by (unfold int64_range, INT64_MIN, INT64_MAX in *; lia).
  pose proof (pool_fd_event_slot_unref p3 l idx_) as Hpfd4.
  rewrite (event_slot_unref_inside p3 idx_ l Hl) by eauto.
  destruct (unref_in_table p3 l idx_) as [p4 tr4]. cbn [fst snd] in *.
  eexists p4, _, s4. split; [reflexivity|].
  split; [congruence|]. split; [done|].
  destruct (Z.eqb_spec (ref s - 1) 0) as [E|E].
  - destruct Hcase4 as [Heq ->]. split; [intros; lia|]. intros _.
    split; [|by subst s1; rewrite <- Hfd].
    by rewrite set_ref_set_ref in Heq.
  - destruct Hcase4 as [-> ->]. split; [|intros; lia]. intros _.
    by rewrite set_ref_set_ref.
Qed.

(** X8.  A successful unregister of a slot that is found: the value of
    [epoll_ctl] is returned; while another reference is held the slot
    stays in use with [gen] incremented once and the [do_close] asked
    for; when the reference of the registration was the last one the
    slot is freed ([fd = -1], no handler in progress, no error recorded)
    with [gen] incremented twice.  The fd is closed exactly when the
    last reference goes and the close was asked for, and every other
    slot keeps its fields, the counter [slots_used] apart. *)
Theorem unregister_success p fd_ idx_ do_close_ ret l s :
  0 < EVENT_EPOLL_SLOTS →
  slot_of_idx idx_ = Some l →
  slot_at p l = Some s →
  fd s = fd_ →
  1 <= ref s < INT64_MAX →
  ret ≠ -1 →
  ∃ p' tr s',
    event_unregister_epoll_common p fd_ idx_ do_close_ ret = Returns (ret, p', tr)
    ∧ slot_at p' l = Some s'
    ∧ ref s' = ref s - 1
    ∧ (ref s ≠ 1 →
       fd s' = fd_ ∧ gen s' = wrap_int (gen s + 1) ∧ do_close s' = do_close_
       ∧ in_handler s' = in_handler s ∧ handled_error s' = handled_error s)
    ∧ (ref s = 1 →
       fd s' = -1 ∧ gen s' = wrap_int (wrap_int (gen s + 1) + 1) ∧ do_close s' = 0
       ∧ in_handler s' = 0 ∧ handled_error s' = 0)
    ∧ epoll_ctl_calls tr = [Epoll_ctl (pool_fd p) EPOLL_CTL_DEL fd_ None]
    ∧ (Sys_close fd_ ∈ tr ↔ ref s = 1 ∧ do_close_ ≠ 0)
    ∧ (∀ l' s0, l' ≠ l → slot_at p l' = Some s0 →
         ∃ s0', slot_at p' l' = Some s0' ∧ eq_but_used s0' s0).
Proof.
  intros Hslots Hl Hs Hfd Hr Hret.
  destruct (unregister_found p fd_ idx_ do_close_ ret l s Hslots Hl Hs Hfd Hr Hret)
    as (p' & tr & s' & Hrun & _ & Hat & Hlive & Hlast).
  exists p', tr, s'. split; [done|]. split; [done|].
  assert (Hframe : ∀ l' s0, l' ≠ l → slot_at p l' = Some s0 →
            ∃ s0', slot_at p' l' = Some s0' ∧ eq_but_used s0' s0).
  { intros l' s0 Hne Hs0. revert Hrun. unfold event_unregister_epoll_common.
    destruct (idx_ <? 0); [intros [= _ <- _]; by exists s0|].
    destruct (event_slot_get_found p _ l s Hl Hs) as [-> Hget]. rewrite Hget.
    destruct (negb _); [done|].
    destruct (event_unregister_epoll_locked _ _ _ _ _) as [s1 tr1].
    set (p2 := slot_upd _ l (event_slot_ref l p)).
    assert (H2 : slot_at p2 l' = Some s0).
    { subst p2. unfold event_slot_ref. by rewrite !slot_at_upd_ne. }
    destruct (event_slot_unref_other p2 idx_ l l' s0 Hl (not_eq_sym Hne) H2)
      as (s3 & Hs3 & Heq3).
    destruct (event_slot_unref p2 l idx_) as [[p3 tr3]| |] eqn:Hun3; try done.
    apply event_slot_unref_returns in Hun3. rewrite <- Hun3 in Hs3. cbn [fst] in Hs3.
    destruct (event_slot_unref_other p3 idx_ l l' s3 Hl (not_eq_sym Hne) Hs3)
      as (s4 & Hs4 & Heq4).
    destruct (event_slot_unref p3 l idx_) as [[p4 tr4]| |] eqn:Hun4; try done.
    apply event_slot_unref_returns in Hun4. rewrite <- Hun4 in Hs4. cbn [fst] in Hs4.
    intros Hrun. assert (p' = p4) as -> by congruence.
    exists s4. split; [done|]. by eapply eq_but_used_trans. }
  destruct (decide (ref s = 1)) as [E|E].
  - destruct (Hlast E) as [Heq ->].
    apply eq_but_used_fields in Heq
      as (Hf & _ & Hg & _ & Hrf & Hdc & Hin & Herr & _).
    split; [rewrite Hrf; simpl; lia|]. split; [done|]. split; [done|].
    split; [by destruct (do_close_ =? 0)|]. split; [|done].
    destruct (Z.eqb_spec do_close_ 0) as [Hz|Hz].
    + split; [|tauto]. intros Hx. apply list_elem_of_singleton in Hx. done.
    + split; [done|]. intros _. apply elem_of_cons. right. by apply list_elem_of_singleton.
  - destruct (Hlive E) as [-> ->].
    split; [done|]. split; [done|]. split; [intros; lia|]. split; [done|].
    split; [|done]. split; [|tauto]. intros Hx. apply list_elem_of_singleton in Hx. done.
Qed.

(** X9.  An unregister_close made while another reference is held (the
    worker that runs the handler holds one) detaches the fd and closes
    nothing; the close is made by the [event_slot_unref] that drops the
    last reference, which frees the slot as well. *)
Theorem unregister_close_defers_close p fd_ idx_ ret l s :
  0 < EVENT_EPOLL_SLOTS →
  slot_of_idx idx_ = Some l →
  slot_at p l = Some s →
  fd s = fd_ →
  ref s = 2 →
  ret ≠ -1 →
  ∃ p' s' s'',
    event_unregister_close_epoll p fd_ idx_ ret
      = Returns (ret, p', [Epoll_ctl (pool_fd p) EPOLL_CTL_DEL fd_ None])
    ∧ slot_at p' l = Some s' ∧ fd s' = fd_ ∧ do_close s' = 1 ∧ ref s' = 1
    ∧ ∃ p'',
        event_slot_unref p' l idx_ = Returns (p'', [Sys_close fd_])
        ∧ slot_at p'' l = Some s''
        ∧ fd s'' = -1 ∧ do_close s'' = 0 ∧ ref s'' = 0.
Proof.
  intros Hslots Hl Hs Hfd Href Hret.
  assert (Hr : 1 <= ref s < INT64_MAX) by (rewrite Href; unfold INT64_MAX; lia).
  destruct (unregister_found p fd_ idx_ 1 ret l s Hslots Hl Hs Hfd Hr Hret)
    as (p' & tr & s' & Hrun & _ & Hat & Hlive & _).
  destruct Hlive as [-> ->]; [lia|].
  destruct (event_slot_unref_here p' idx_ l _ Hl Hat) as (s'' & Hat'' & Hcase).
  cbn [ref set_ref do_close set_gen set_do_close fd] in Hcase.
  rewrite Href in Hcase. change (wrap_int64 (2 - 1 - 1) =? 0) with true in Hcase.
  destruct Hcase as [Heq Htr]. change (1 =? 0) with false in Htr.
  apply eq_but_used_fields in Heq as (Hf & _ & _ & _ & Hrf & Hdc & _).
  eexists p', _, s''. split; [exact Hrun|]. split; [exact Hat|].
  rewrite Href, Hfd in *. repeat (split; [done|]).
  exists (unref_in_table p' l idx_).1.
  rewrite (event_slot_unref_inside p' idx_ l Hl) by eauto.
  rewrite (surjective_pairing (unref_in_table p' l idx_)), Htr. done.
Qed.

(** ** Dispatch *)

(** The handler calls of [event_dispatch_epoll_handler] on a slot that is
    found: those decided by the block under the lock. *)
Lemma dispatch_calls p event l s :
  slot_of_idx (ev_idx event) = Some l → slot_at p l = Some s →
  ∃ p' tr,
    event_dispatch_epoll_handler p event = Returns (0, p', tr)
    ∧ p' = (unref_in_table
              (slot_upd (λ _, set_ref (wrap_int64 (ref s + 1))
                                (event_dispatch_epoll_handler_locked s event).1.1.1)
                        l (event_slot_ref l p)) l (ev_idx event)).1
    ∧ handler_calls tr =
        (let '(_, h, prev, _) := event_dispatch_epoll_handler_locked s event in
         match event_dispatch_epoll_handler_call s event h prev with
         | Some c => [c]
         | None => []
         end)
    ∧ epoll_ctl_calls tr = [].
Proof.
  intros Hl Hs. unfold event_dispatch_epoll_handler.
  destruct (event_slot_get_found p _ l s Hl Hs) as [-> ->].
  rewrite dispatch_locked_set_ref.
  pose proof (dispatch_locked_cases s event) as Hcases.
  assert (Hlg : epoll_ctl_calls (event_dispatch_epoll_handler_locked s event).2 = []).
  { unfold event_dispatch_epoll_handler_locked.
    destruct (fd s =? -1); [done|]. destruct (negb _); [done|].
    destruct (_ >? 0); [done|]. by destruct (negb _). }
  destruct (event_dispatch_epoll_handler_locked s event) as [[[s1 h] prev] logs].
  destruct Hcases as [Hlogs Hcases]. cbn [fst snd] in *.
  pose proof (handler_calls_unref
                (slot_upd (λ _, set_ref (wrap_int64 (ref s + 1)) s1) l
                          (event_slot_ref l p)) l (ev_idx event)) as Hc3.
  pose proof (epoll_ctl_calls_unref
                (slot_upd (λ _, set_ref (wrap_int64 (ref s + 1)) s1) l
                          (event_slot_ref l p)) l (ev_idx event)) as He3.
  rewrite (unref_after_lock p (ev_idx event) l s _ Hl Hs).
  destruct (unref_in_table _ l (ev_idx event)) as [p3 tr3]. cbn [fst snd] in *.
  eexists p3, _. split; [reflexivity|]. split; [done|].
  rewrite !handler_calls_app, !epoll_ctl_calls_app, Hlogs, Hc3, He3, app_nil_r.
  rewrite Hlg.
  unfold event_dispatch_epoll_handler_call. cbn [fd data set_ref].
  split; [|by destruct (h =? 0), prev].
  by destruct (h =? 0), prev.
Qed.

End Unregistration.

(** X8: unregister_close of the single registration of [pool_one]. *)
Lemma unregister_success_witness :
  0 < @EVENT_EPOLL_SLOTS small_config
  ∧ slot_of_idx (cfg := small_config) 0 = Some (0, 0)%nat
  ∧ slot_at pool_one (0, 0)%nat = Some slot_one
  ∧ fd slot_one = 5
  ∧ 1 <= ref slot_one < INT64_MAX
  ∧ 0 ≠ -1
  ∧ ∃ p' tr s',
      @event_unregister_epoll_common small_config pool_one 5 0 1 0
        = Returns (0, p', tr)
      ∧ slot_at p' (0, 0)%nat = Some s' ∧ fd s' = -1 ∧ gen s' = 3
      ∧ Sys_close 5 ∈ tr.
Proof.
  assert (Hslots : 0 < @EVENT_EPOLL_SLOTS small_config) by reflexivity.
  assert (Hl : slot_of_idx (cfg := small_config) 0 = Some (0, 0)%nat) by reflexivity.
  assert (Hs : slot_at pool_one (0, 0)%nat = Some slot_one) by reflexivity.
  assert (Hfd : fd slot_one = 5) by reflexivity.
  assert (Hr : 1 <= ref slot_one < INT64_MAX) by (vm_compute; split; congruence).
  assert (Hret : 0 ≠ -1) by lia.
  repeat (split; [assumption|]).
  destruct (unregister_success (cfg := small_config) pool_one 5 0 1 0
              (0, 0)%nat slot_one Hslots Hl Hs Hfd Hr Hret)
    as (p' & tr & s' & Hrun & Hat & _ & _ & Hlast & _ & Hclose & _).
  exists p', tr, s'. split; [exact Hrun|]. split; [exact Hat|].
  destruct (Hlast eq_refl) as (Hf & Hg & _).
  split; [exact Hf|]. split; [exact Hg|]. apply Hclose. split; [reflexivity|lia].
Defined.

(** X9: unregister_close called by the handler that [pool_in_dispatch]
    is running. *)
Lemma unregister_close_defers_close_witness :
  0 < @EVENT_EPOLL_SLOTS small_config
  ∧ slot_of_idx (cfg := small_config) 0 = Some (0, 0)%nat
  ∧ slot_at pool_in_dispatch (0, 0)%nat
    = Some (Slot 1 5 1073741851 1 0 2 0 1 0 200 100 true)
  ∧ ∃ p',
      @event_unregister_close_epoll small_config pool_in_dispatch 5 0 0
        = Returns (0, p', [Epoll_ctl 3 EPOLL_CTL_DEL 5 None])
      ∧ ∃ p'', @event_slot_unref small_config p' (0, 0)%nat 0
               = Returns (p'', [Sys_close 5]).
Proof.
  assert (Hslots : 0 < @EVENT_EPOLL_SLOTS small_config) by reflexivity.
  assert (Hl : slot_of_idx (cfg := small_config) 0 = Some (0, 0)%nat) by reflexivity.
  assert (Hs : slot_at pool_in_dispatch (0, 0)%nat
               = Some (Slot 1 5 1073741851 1 0 2 0 1 0 200 100 true)) by reflexivity.
  assert (Hret : 0 ≠ -1) by lia.
  repeat (split; [assumption|]).
  destruct (unregister_close_defers_close (cfg := small_config) pool_in_dispatch 5 0 0
              (0, 0)%nat _ Hslots Hl Hs eq_refl eq_refl Hret)
    as (p' & s' & s'' & Hrun & _ & _ & _ & _ & p'' & Hclose & _).
  exists p'. split; [exact Hrun|]. exists p''. exact Hclose.
Defined.

Section Dispatch.

Context {cfg : event_config}.

(** [event_dispatch_epoll_handler] on a slot that is found and that the
    caller holds a reference on: the slot is left as the block under the
    lock leaves it. *)
Lemma dispatch_found p event l s :
  slot_of_idx (ev_idx event) = Some l → slot_at p l = Some s →
  int64_range (ref s) → ref s ≠ 0 →
  ∃ p' tr,
    event_dispatch_epoll_handler p event = Returns (0, p', tr)
    ∧ handler_calls tr =
        (let '(_, h, prev, _) := event_dispatch_epoll_handler_locked s event in
         match event_dispatch_epoll_handler_call s event h prev with
         | Some c => [c]
         | None => []
         end)
    ∧ epoll_ctl_calls tr = []
    ∧ pool_fd p' = pool_fd p
    ∧ slot_at p' l = Some (event_dispatch_epoll_handler_locked s event).1.1.1.
Proof.
  intros Hl Hs Hr Hnz.
  destruct (dispatch_calls p event l s Hl Hs) as (p' & tr & Hrun & Hp' & Hcalls & Hctl).
  exists p', tr. split; [done|]. split; [done|]. split; [done|].
  pose proof (dispatch_locked_ref s event) as Href.
  set (s1 := (event_dispatch_epoll_handler_locked s event).1.1.1) in *.
  destruct (lookup_lock_unref p (ev_idx event) l s (set_ref (wrap_int64 (ref s + 1)) s1)
              Hl Hs Hr eq_refl) as (s' & Hat & _ & Halive & _).
  cbv zeta in Hat, Halive. rewrite <- Hp' in Hat.
  destruct (Halive Hnz) as [-> _].
  split; [subst p'; by rewrite pool_fd_event_slot_unref|].
  by rewrite Hat, set_ref_set_ref, <- Href, set_ref_same.
Qed.

Lemma gen_adv_run_operations ops : ∀ p p',
  0 < EVENT_EPOLL_SLOTS →
  run_operations ops p = Some p' → gen_adv (3 * length ops) p p'.
Proof.
  induction ops as [|op ops IH]; intros p p' Hslots; simpl.
  - intros [= ->]. apply gen_adv_refl.
  - destruct (run_operation op p) as [[[r p1] tr]| |] eqn:Hop; try done.
    intros Hrest. apply (gen_adv_mono (3 + 3 * length ops)); [lia|].
    apply gen_adv_trans with (p' := p1); [by eapply gen_adv_run_operation|by apply IH].
Qed.

(** X10.  Events of a registration that was unregistered are dropped:
    after a successful unregister of a slot of generation [gen s], and
    after any later run of operations (a new registration of the slot
    among them), the dispatch of an event that carries the handle and
    [gen s] calls no handler.  The counter is taken to have room for the
    increments of the run. *)
Theorem stale_event_is_dropped p fd_ idx_ do_close_ ret l s r p1 tr1 ops p2 event :
  0 < EVENT_EPOLL_SLOTS →
  slot_of_idx idx_ = Some l →
  slot_at p l = Some s →
  fd s = fd_ →
  1 <= ref s < INT64_MAX →
  ret ≠ -1 →
  INT_MIN <= gen s →
  gen s + 3 * Z.of_nat (length ops) + 2 <= INT_MAX →
  event_unregister_epoll_common p fd_ idx_ do_close_ ret = Returns (r, p1, tr1) →
  run_operations ops p1 = Some p2 →
  ev_idx event = idx_ →
  ev_gen event = gen s →
  ∃ p3 tr3,
    event_dispatch_epoll_handler p2 event = Returns (0, p3, tr3)
    ∧ handler_calls tr3 = [].
Proof.
  intros Hslots Hl Hs Hfd Hr Hret Hlo Hhi Hun Hops Hidx Hgen.
  destruct (unregister_found p fd_ idx_ do_close_ ret l s Hslots Hl Hs Hfd Hr Hret)
    as (p1' & tr1' & s1 & Hrun & _ & Hat1 & Hlive & Hlast).
  rewrite Hun in Hrun. injection Hrun as <- <- <-.
  assert (Hw1 : wrap_int (gen s + 1) = gen s + 1).
  { apply wrap_int_small. unfold int_range, INT_MAX in *. lia. }
  assert (Hw2 : wrap_int (gen s + 1 + 1) = gen s + 1 + 1).
  { apply wrap_int_small. unfold int_range, INT_MAX in *. lia. }
  assert (Hg1 : gen s + 1 <= gen s1 <= gen s + 2).
  { destruct (decide (ref s = 1)) as [E|E].
    - destruct (Hlast E) as [Heq _].
      apply eq_but_used_fields in Heq as (_ & _ & -> & _). simpl.
      rewrite Hw1, Hw2. lia.
    - destruct (Hlive E) as [-> _]. simpl. rewrite Hw1. lia. }
  destruct (gen_adv_run_operations ops p1 p2 Hslots Hops l s1 Hat1) as (s2 & Hat2 & Hb).
  apply bumped_bounds in Hb; [|lia|lia].
  rewrite <- Hidx in Hl.
  destruct (dispatch_calls p2 event l s2 Hl Hat2) as (p3 & tr3 & Hrun3 & _ & Hcalls & _).
  exists p3, tr3. split; [done|]. rewrite Hcalls.
  unfold event_dispatch_epoll_handler_locked.
  destruct (fd s2 =? -1); [done|].
  destruct (Z.eqb_spec (ev_gen event) (gen s2)) as [E|E]; [lia|done].
Qed.

Lemma set_handled_error_same s : set_handled_error (handled_error s) s = s.
Proof. by destruct s. Qed.

Lemma set_in_handler_same s : set_in_handler (in_handler s) s = s.
Proof. by destruct s. Qed.

(** A slot whose handler is in progress, or that has recorded an error:
    the dispatch of any event for its handle calls no handler and leaves
    the slot as it is. *)
Lemma dispatch_skips p event l s :
  slot_of_idx (ev_idx event) = Some l → slot_at p l = Some s →
  int64_range (ref s) → ref s ≠ 0 →
  0 < in_handler s ∨ handled_error s ≠ 0 →
  ∃ p' tr,
    event_dispatch_epoll_handler p event = Returns (0, p', tr)
    ∧ handler_calls tr = [] ∧ epoll_ctl_calls tr = []
    ∧ slot_at p' l = Some s.
Proof.
  intros Hl Hs Hr Hnz Hbusy.
  destruct (dispatch_found p event l s Hl Hs Hr Hnz)
    as (p' & tr & Hrun & Hcalls & Hctl & _ & Hat).
  exists p', tr. split; [done|]. revert Hcalls Hat.
  unfold event_dispatch_epoll_handler_locked, event_dispatch_epoll_handler_call.
  destruct (fd s =? -1); [done|].
  destruct (negb (ev_gen event =? gen s)); [done|].
  destruct (Z.gtb_spec (in_handler s) 0); [done|].
  destruct (Z.eqb_spec (handled_error s) 0); [lia|]. cbn [negb fst].
  by destruct (handler s =? 0).
Qed.

(** X11.  One event at a time, and a round trip.  On a slot in use with
    no handler in progress, an event of its generation without error or
    hangup is handed to the handler; until handled is called every other
    event for the handle is dropped without a call and without a change
    of the slot; and handled then re-arms the fd with the mask of the
    slot and leaves the slot exactly as it was before the event. *)
Theorem dispatch_then_handled_round_trip p event l s ret :
  slot_of_idx (ev_idx event) = Some l →
  slot_at p l = Some s →
  fd s ≠ -1 →
  ev_gen event = gen s →
  in_handler s = 0 →
  handled_error s = 0 →
  handler s ≠ 0 →
  1 <= ref s <= INT64_MAX →
  Z.land (ev_events event) (Z.lor EPOLLERR EPOLLHUP) = 0 →
  ∃ p1 tr1,
    event_dispatch_epoll_handler p event = Returns (0, p1, tr1)
    ∧ handler_calls tr1 =
        [HandlerCall (handler s) (fd s) (ev_idx event) (gen s) (data s)
           (Z.land (ev_events event) (Z.lor EPOLLIN EPOLLPRI))
           (Z.land (ev_events event) EPOLLOUT) 0 0]
    ∧ epoll_ctl_calls tr1 = []
    ∧ slot_at p1 l = Some (set_in_handler 1 s)
    ∧ (∀ event2, ev_idx event2 = ev_idx event →
         ∃ p2 tr2,
           event_dispatch_epoll_handler p1 event2 = Returns (0, p2, tr2)
           ∧ handler_calls tr2 = [] ∧ epoll_ctl_calls tr2 = []
           ∧ slot_at p2 l = Some (set_in_handler 1 s))
    ∧ ∃ p3 tr3,
        event_handled_epoll p1 (fd s) (ev_idx event) (gen s) ret
          = Returns (ret, p3, tr3)
        ∧ epoll_ctl_calls tr3 =
            [Epoll_ctl (pool_fd p) EPOLL_CTL_MOD (fd s)
               (Some (EpollEvent (events s) (ev_idx event) (gen s)))]
        ∧ slot_at p3 l = Some s.
Proof.
  intros Hl Hs Hfd Hgen Hin Herr Hh Hr Hmask.
  assert (Hrange : int64_range (ref s)) by (unfold int64_range, INT64_MIN in *; lia).
  assert (Hnz : ref s ≠ 0) by lia.
  destruct (dispatch_found p event l s Hl Hs Hrange Hnz)
    as (p1 & tr1 & Hrun1 & Hcalls1 & Hctl1 & Hpfd1 & Hat1).
  assert (Hlocked : event_dispatch_epoll_handler_locked s event
                    = (set_in_handler 1 s, handler s, false, [])).
  { unfold event_dispatch_epoll_handler_locked.
    destruct (Z.eqb_spec (fd s) (-1)); [done|].
    rewrite Hgen, Z.eqb_refl, Hin, Herr, Hmask. cbn [negb].
    change (0 >? 0) with false. change (0 =? 0) with true. cbn [negb].
    change (wrap_int (0 + 1)) with 1.
    by rewrite <- Herr at 1; rewrite set_handled_error_same. }
  rewrite Hlocked in Hcalls1, Hat1. cbn [fst] in Hat1.
  unfold event_dispatch_epoll_handler_call in Hcalls1.
  destruct (Z.eqb_spec (handler s) 0) as [?|_]; [done|].
  rewrite Hmask, Hgen in Hcalls1.
  exists p1, tr1. split; [done|]. split; [done|]. split; [done|]. split; [done|].
  split.
  - intros event2 Hidx2. rewrite <- Hidx2 in Hl.
    apply (dispatch_skips p1 event2 l (set_in_handler 1 s)); try done.
    left. simpl. lia.
  - destruct (handled_found p1 (fd s) (ev_idx event) (gen s) ret l (set_in_handler 1 s)
                Hl Hat1 eq_refl Hrange)
      as (p3 & tr3 & s3 & Hrun3 & Hctl3 & _ & Hat3 & _ & Hfinal).
    cbn [in_handler set_in_handler gen events] in Hrun3, Hctl3, Hfinal.
    rewrite Z.eqb_refl in Hrun3, Hctl3.
    change (wrap_int (1 - 1) =? 0) with true in Hrun3, Hctl3.
    cbn [andb] in Hrun3, Hctl3. rewrite Hpfd1 in Hctl3.
    exists p3, tr3. split; [done|]. split; [done|].
    rewrite Hat3, (Hfinal Hnz). change (wrap_int (1 - 1)) with 0.
    f_equal. rewrite <- Hin. by destruct s.
Qed.

(** X12.  An error is delivered once.  When the event carries error or
    hangup, the handler is called with that indication; handled re-arms
    the fd as usual, but the slot keeps the indication, and from then on
    no event for the handle reaches the handler. *)
Theorem error_event_silences_handler p event l s ret :
  slot_of_idx (ev_idx event) = Some l →
  slot_at p l = Some s →
  fd s ≠ -1 →
  ev_gen event = gen s →
  in_handler s = 0 →
  handled_error s = 0 →
  handler s ≠ 0 →
  1 <= ref s <= INT64_MAX →
  Z.land (ev_events event) (Z.lor EPOLLERR EPOLLHUP) ≠ 0 →
  ∃ p1 tr1 p2 tr2,
    event_dispatch_epoll_handler p event = Returns (0, p1, tr1)
    ∧ handler_calls tr1 =
        [HandlerCall (handler s) (fd s) (ev_idx event) (gen s) (data s)
           (Z.land (ev_events event) (Z.lor EPOLLIN EPOLLPRI))
           (Z.land (ev_events event) EPOLLOUT)
           (Z.land (ev_events event) (Z.lor EPOLLERR EPOLLHUP)) 0]
    ∧ event_handled_epoll p1 (fd s) (ev_idx event) (gen s) ret
        = Returns (ret, p2, tr2)
    ∧ epoll_ctl_calls tr2 =
        [Epoll_ctl (pool_fd p) EPOLL_CTL_MOD (fd s)
           (Some (EpollEvent (events s) (ev_idx event) (gen s)))]
    ∧ slot_at p2 l
      = Some (set_handled_error (Z.land (ev_events event) (Z.lor EPOLLERR EPOLLHUP)) s)
    ∧ (∀ event2, ev_idx event2 = ev_idx event →
         ∃ p3 tr3,
           event_dispatch_epoll_handler p2 event2 = Returns (0, p3, tr3)
           ∧ handler_calls tr3 = []
           ∧ slot_at p3 l = slot_at p2 l).
Proof.
  intros Hl Hs Hfd Hgen Hin Herr Hh Hr Hmask.
  assert (Hrange : int64_range (ref s)) by (unfold int64_range, INT64_MIN in *; lia).
  assert (Hnz : ref s ≠ 0) by lia.
  set (e := Z.land (ev_events event) (Z.lor EPOLLERR EPOLLHUP)) in *.
  destruct (dispatch_found p event l s Hl Hs Hrange Hnz)
    as (p1 & tr1 & Hrun1 & Hcalls1 & _ & Hpfd1 & Hat1).
  assert (Hlocked : event_dispatch_epoll_handler_locked s event
                    = (set_in_handler 1 (set_handled_error e s), handler s, false, [])).
  { unfold event_dispatch_epoll_handler_locked.
    destruct (Z.eqb_spec (fd s) (-1)); [done|].
    rewrite Hgen, Z.eqb_refl, Hin, Herr. cbn [negb].
    change (0 >? 0) with false. change (0 =? 0) with true. cbn [negb].
    by change (wrap_int (0 + 1)) with 1. }
  rewrite Hlocked in Hcalls1, Hat1. cbn [fst] in Hat1.
  unfold event_dispatch_epoll_handler_call in Hcalls1.
  destruct (Z.eqb_spec (handler s) 0) as [?|_]; [done|].
  rewrite Hgen in Hcalls1. fold e in Hcalls1.
  destruct (handled_found p1 (fd s) (ev_idx event) (gen s) ret l
              (set_in_handler 1 (set_handled_error e s)) Hl Hat1 eq_refl Hrange)
    as (p2 & tr2 & s2 & Hrun2 & Hctl2 & _ & Hat2 & _ & Hfinal).
  cbn [in_handler set_in_handler set_handled_error gen events] in Hrun2, Hctl2, Hfinal.
  rewrite Z.eqb_refl in Hrun2, Hctl2.
  change (wrap_int (1 - 1) =? 0) with true in Hrun2, Hctl2.
  cbn [andb] in Hrun2, Hctl2. rewrite Hpfd1 in Hctl2.
  assert (Hs2 : s2 = set_handled_error e s).
  { rewrite (Hfinal Hnz). change (wrap_int (1 - 1)) with 0.
    rewrite <- Hin. by destruct s. }
  subst s2.
  exists p1, tr1, p2, tr2. split; [done|]. split; [done|]. split; [done|].
  split; [done|]. split; [done|].
  intros event2 Hidx2. rewrite <- Hidx2 in Hl.
  destruct (dispatch_skips p2 event2 l (set_handled_error e s) Hl Hat2 Hrange Hnz)
    as (p3 & tr3 & Hrun3 & Hcalls3 & _ & Hat3); [by right|].
  exists p3, tr3. split; [done|]. split; [done|]. by rewrite Hat2.
Qed.

End Dispatch.

(** X10: on [pool_one], fd 5 is unregistered, fd 6 is registered into
    the slot that was freed, and a late event for fd 5 arrives. *)
Lemma stale_event_is_dropped_witness :
  0 < @EVENT_EPOLL_SLOTS small_config
  ∧ slot_of_idx (cfg := small_config) 0 = Some (0, 0)%nat
  ∧ slot_at pool_one (0, 0)%nat = Some slot_one
  ∧ ∃ p1 p2 p3 tr3 s2,
      pool_after pool_one (@event_unregister_epoll small_config pool_one 5 0 0) = p1
      ∧ @run_operations small_config [Op_register 6 100 200 1 0 0 true 0] p1 = Some p2
      ∧ slot_at p2 (0, 0)%nat = Some s2 ∧ fd s2 = 6
      ∧ @event_dispatch_epoll_handler small_config p2 (EpollEvent EPOLLIN 0 1)
        = Returns (0, p3, tr3)
      ∧ handler_calls tr3 = [].
Proof.
  assert (Hslots : 0 < @EVENT_EPOLL_SLOTS small_config) by reflexivity.
  assert (Hl : slot_of_idx (cfg := small_config) 0 = Some (0, 0)%nat) by reflexivity.
  assert (Hs : slot_at pool_one (0, 0)%nat = Some slot_one) by reflexivity.
  assert (Hr : 1 <= ref slot_one < INT64_MAX) by (vm_compute; split; congruence).
  assert (Hret : 0 ≠ -1) by lia.
  assert (Hlo : INT_MIN <= gen slot_one) by (vm_compute; congruence).
  assert (Hhi : gen slot_one
                + 3 * Z.of_nat (length [Op_register 6 100 200 1 0 0 true 0]) + 2
                <= INT_MAX) by (vm_compute; congruence).
  repeat (split; [assumption|]).
  assert (Hun : ∃ p1 tr1,
            @event_unregister_epoll_common small_config pool_one 5 0 0 0
            = Returns (0, p1, tr1)) by (eexists _, _; vm_compute; reflexivity).
  destruct Hun as (p1 & tr1 & Hun).
  assert (Hops : ∃ p2 s2,
            @run_operations small_config [Op_register 6 100 200 1 0 0 true 0] p1 = Some p2
            ∧ slot_at p2 (0, 0)%nat = Some s2 ∧ fd s2 = 6).
  { assert (Hp1 : p1 = pool_after pool_one
                         (@event_unregister_epoll small_config pool_one 5 0 0)).
    { unfold event_unregister_epoll. by rewrite Hun. }
    rewrite Hp1. eexists _, _. vm_compute. repeat split; reflexivity. }
  destruct Hops as (p2 & s2 & Hops & Hat2 & Hfd2).
  destruct (stale_event_is_dropped (cfg := small_config) pool_one 5 0 0 0 (0, 0)%nat
              slot_one 0 p1 tr1 [Op_register 6 100 200 1 0 0 true 0] p2
              (EpollEvent EPOLLIN 0 1) Hslots Hl Hs eq_refl Hr Hret Hlo Hhi Hun Hops
              eq_refl eq_refl)
    as (p3 & tr3 & Hrun3 & Hcalls3).
  exists p1, p2, p3, tr3, s2.
  split; [unfold event_unregister_epoll; by rewrite Hun|].
  split; [exact Hops|]. split; [exact Hat2|]. split; [exact Hfd2|].
  split; [exact Hrun3 | exact Hcalls3].
Defined.

(** X11: a read event for the registration of [pool_one], and the
    handled that follows. *)
Lemma dispatch_then_handled_round_trip_witness :
  slot_of_idx (cfg := small_config) 0 = Some (0, 0)%nat
  ∧ slot_at pool_one (0, 0)%nat = Some slot_one
  ∧ Z.land EPOLLIN (Z.lor EPOLLERR EPOLLHUP) = 0
  ∧ ∃ p1 tr1 p3 tr3,
      @event_dispatch_epoll_handler small_config pool_one (EpollEvent EPOLLIN 0 1)
        = Returns (0, p1, tr1)
      ∧ handler_calls tr1 = [HandlerCall 100 5 0 1 200 1 0 0 0]
      ∧ @event_handled_epoll small_config p1 5 0 1 0 = Returns (0, p3, tr3)
      ∧ slot_at p3 (0, 0)%nat = Some slot_one.
Proof.
  assert (Hl : slot_of_idx (cfg := small_config) 0 = Some (0, 0)%nat) by reflexivity.
  assert (Hs : slot_at pool_one (0, 0)%nat = Some slot_one) by reflexivity.
  assert (Hmask : Z.land EPOLLIN (Z.lor EPOLLERR EPOLLHUP) = 0) by reflexivity.
  assert (Hfd : fd slot_one ≠ -1) by (vm_compute; congruence).
  assert (Hh : handler slot_one ≠ 0) by (vm_compute; congruence).
  assert (Hr : 1 <= ref slot_one <= INT64_MAX) by (vm_compute; split; congruence).
  repeat (split; [assumption|]).
  destruct (dispatch_then_handled_round_trip (cfg := small_config) pool_one
              (EpollEvent EPOLLIN 0 1) (0, 0)%nat slot_one 0 Hl Hs Hfd eq_refl eq_refl
              eq_refl Hh Hr Hmask)
    as (p1 & tr1 & Hrun1 & Hcalls1 & _ & _ & _ & p3 & tr3 & Hrun3 & _ & Hat3).
  exists p1, tr1, p3, tr3. split; [exact Hrun1|]. split; [exact Hcalls1|].
  split; [exact Hrun3 | exact Hat3].
Defined.

(** X12: a hangup for the registration of [pool_one], then handled, then
    a read event. *)
Lemma error_event_silences_handler_witness :
  slot_of_idx (cfg := small_config) 0 = Some (0, 0)%nat
  ∧ slot_at pool_one (0, 0)%nat = Some slot_one
  ∧ Z.land EPOLLHUP (Z.lor EPOLLERR EPOLLHUP) ≠ 0
  ∧ ∃ p1 tr1 p2 tr2 p3 tr3,
      @event_dispatch_epoll_handler small_config pool_one (EpollEvent EPOLLHUP 0 1)
        = Returns (0, p1, tr1)
      ∧ handler_calls tr1 = [HandlerCall 100 5 0 1 200 0 0 16 0]
      ∧ @event_handled_epoll small_config p1 5 0 1 0 = Returns (0, p2, tr2)
      ∧ @event_dispatch_epoll_handler small_config p2 (EpollEvent EPOLLIN 0 1)
        = Returns (0, p3, tr3)
      ∧ handler_calls tr3 = [].
Proof.
  assert (Hl : slot_of_idx (cfg := small_config) 0 = Some (0, 0)%nat) by reflexivity.
  assert (Hs : slot_at pool_one (0, 0)%nat = Some slot_one) by reflexivity.
  assert (Hmask : Z.land EPOLLHUP (Z.lor EPOLLERR EPOLLHUP) ≠ 0)
    by (vm_compute; congruence).
  assert (Hfd : fd slot_one ≠ -1) by (vm_compute; congruence).
  assert (Hh : handler slot_one ≠ 0) by (vm_compute; congruence).
  assert (Hr : 1 <= ref slot_one <= INT64_MAX) by (vm_compute; split; congruence).
  repeat (split; [assumption|]).
  destruct (error_event_silences_handler (cfg := small_config) pool_one
              (EpollEvent EPOLLHUP 0 1) (0, 0)%nat slot_one 0 Hl Hs Hfd eq_refl eq_refl
              eq_refl Hh Hr Hmask)
    as (p1 & tr1 & p2 & tr2 & Hrun1 & Hcalls1 & Hrun2 & _ & _ & Hlater).
  destruct (Hlater (EpollEvent EPOLLIN 0 1) eq_refl) as (p3 & tr3 & Hrun3 & Hcalls3 & _).
  exists p1, tr1, p2, tr2, p3, tr3. split; [exact Hrun1|]. split; [exact Hcalls1|].
  split; [exact Hrun2|]. split; [exact Hrun3 | exact Hcalls3].
Defined.

Section Threads.

Context {cfg : event_config}.

(** ** Threads *)

(** What the loop of [event_reconfigure_threads_epoll] does to the
    roster: an entry is written only inside the range of the loop and
    only where it was 0, and a thread is created only for such an
    entry. *)
Lemma reconfigure_spawn_roster n : ∀ i pollers_ calloc_ok thread_create pollers' tr,
  reconfigure_spawn n i pollers_ calloc_ok thread_create = Returns (pollers', tr) →
  length pollers' = length pollers_
  ∧ (∀ k t, pollers_ !! k = Some t →
       t ≠ 0 ∨ Z.of_nat k < i ∨ i + Z.of_nat n <= Z.of_nat k →
       pollers' !! k = Some t)
  ∧ (∀ e, e ∈ tr →
       (∃ j, e = Thread_create (j + 1) ∧ i <= j < i + Z.of_nat n
             ∧ pollers_ !! Z.to_nat j = Some 0 ∧ calloc_ok j = true)
       ∨ (∃ j, e = Log (LG_MSG_START_EPOLL_THREAD_FAILED j)
               ∧ (thread_create j).1 ≠ 0)).
Proof.
  induction n as [|n IH]; intros i pollers_ calloc_ok thread_create pollers' tr Hrun.
  { injection Hrun as <- <-. split; [done|]. split; [done|].
    intros e He. by apply elem_of_nil in He. }
  simpl in Hrun.
  destruct (Z.ltb_spec i 0) as [|Hi]; [done|].
  destruct (pollers_ !! Z.to_nat i) as [t|] eqn:Ht; [|done].
  assert (Hstep : ∀ mid tr0,
            length mid = length pollers_ →
            (∀ k t', pollers_ !! k = Some t' → t' ≠ 0 ∨ k ≠ Z.to_nat i →
               mid !! k = Some t') →
            (∀ k, k ≠ Z.to_nat i → mid !! k = Some 0 → pollers_ !! k = Some 0) →
            (∀ e, e ∈ tr0 →
               (e = Thread_create (i + 1) ∧ t = 0 ∧ calloc_ok i = true)
               ∨ (e = Log (LG_MSG_START_EPOLL_THREAD_FAILED i)
                  ∧ (thread_create i).1 ≠ 0)) →
            match reconfigure_spawn n (i + 1) mid calloc_ok thread_create with
            | Returns (pollers2, tr') => Returns (pollers2, tr0 ++ tr')
            | AssertFails => AssertFails
            | BadAccess => BadAccess
            end = Returns (pollers', tr) →
            length pollers' = length pollers_
            ∧ (∀ k t, pollers_ !! k = Some t →
                 t ≠ 0 ∨ Z.of_nat k < i ∨ i + Z.of_nat (S n) <= Z.of_nat k →
                 pollers' !! k = Some t)
            ∧ (∀ e, e ∈ tr →
                 (∃ j, e = Thread_create (j + 1) ∧ i <= j < i + Z.of_nat (S n)
                       ∧ pollers_ !! Z.to_nat j = Some 0 ∧ calloc_ok j = true)
                 ∨ (∃ j, e = Log (LG_MSG_START_EPOLL_THREAD_FAILED j)
                         ∧ (thread_create j).1 ≠ 0))).
  { intros mid tr0 Hlen0 Hmid Hback Htr0 Hgo.
    destruct (reconfigure_spawn n (i + 1) mid calloc_ok thread_create)
      as [[pollers2 tr2]| |] eqn:Hrest; try done.
    injection Hgo as <- <-.
    destruct (IH _ _ _ _ _ _ Hrest) as (Hlen & Hkeep & Htr).
    split; [congruence|]. split.
    - intros k t' Hk Hcase. apply Hkeep.
      + apply Hmid; [done|]. destruct Hcase as [?|?]; [by left|right; lia].
      + destruct Hcase as [?|?]; [by left|right; lia].
    - intros e [He|He]%elem_of_app.
      + destruct (Htr0 e He) as [(-> & -> & Hc)|(-> & Hf)].
        * left. exists i. split; [done|]. split; [lia|done].
        * right. by exists i.
      + destruct (Htr e He) as [(j & -> & Hj & Hz & Hc)|?]; [|by right].
        left. exists j. split; [done|]. split; [lia|]. split; [|done].
        apply Hback; [lia|done]. }
  destruct (Z.eqb_spec t 0) as [->|Hnz].
  - destruct (calloc_ok i) eqn:Hc.
    + destruct (thread_create i) as [ret t_id] eqn:Hth.
      destruct (Z.eqb_spec ret 0) as [->|Hret]; apply Hstep in Hrun; try done.
      * apply length_insert.
      * intros k t' Hk Hcase. destruct (decide (k = Z.to_nat i)) as [->|Hne].
        -- rewrite Ht in Hk. injection Hk as <-. by destruct Hcase.
        -- by rewrite list_lookup_insert_ne.
      * intros k Hne. by rewrite list_lookup_insert_ne.
      * intros e He. apply list_elem_of_singleton in He as ->. by left.
      * intros e He. apply elem_of_cons in He as [->|He]; [by left|].
        apply list_elem_of_singleton in He as ->. by right.
    + apply Hstep in Hrun; try done. intros e He. by apply elem_of_nil in He.
  - apply Hstep in Hrun; try done. intros e He. by apply elem_of_nil in He.
Qed.

(** X13.  [event_reconfigure_threads_epoll] never replaces a worker: an
    entry of the roster that is not 0 is kept, as is every entry outside
    the range from the old to the new thread count.  A thread is created
    only after [event_dispatch_epoll] has started the first worker, only
    when the count grows, only for an index in that range whose entry was
    0, and with that index plus one as its [event_index].  Nothing but
    the roster and the count changes. *)
Theorem reconfigure_threads_fills_gaps p value calloc_ok thread_create r p' tr :
  event_reconfigure_threads_epoll p value calloc_ok thread_create
    = Returns (r, p', tr) →
  p' = set_eventthreadcount (eventthreadcount p') (set_pollers (pollers p') p)
  ∧ length (pollers p') = length (pollers p)
  ∧ (∀ k t, pollers p !! k = Some t →
       t ≠ 0 ∨ Z.of_nat k < eventthreadcount p ∨ eventthreadcount p' <= Z.of_nat k →
       pollers p' !! k = Some t)
  ∧ (∀ index, Thread_create index ∈ tr →
       (∃ t, pollers p !! 0%nat = Some t ∧ t ≠ 0)
       ∧ eventthreadcount p < index <= eventthreadcount p'
       ∧ pollers p !! Z.to_nat (index - 1) = Some 0
       ∧ calloc_ok (index - 1) = true)
  ∧ ((pollers p !! 0%nat = Some 0 ∨ eventthreadcount p' <= eventthreadcount p) →
     tr = [] ∧ pollers p' = pollers p).
Proof.
  unfold event_reconfigure_threads_epoll, event_pool_dispatched_unlocked.
  set (value1 := if destroy p =? 1 then 0 else _).
  destruct (pollers p !! 0%nat) as [t0|] eqn:H0; [|done]. cbn [fmap option_fmap option_map].
  destruct (Z.eqb_spec t0 0) as [->|Hd]; cbn [negb andb].
  { intros [= <- <- <-]. split; [by destruct p|]. split; [done|]. split; [done|].
    split; [intros ? He; by apply elem_of_nil in He|done]. }
  destruct (Z.ltb_spec (eventthreadcount p) value1) as [Hlt|Hge].
  2: { intros [= <- <- <-]. split; [by destruct p|]. split; [done|]. split; [done|].
       split; [intros ? He; by apply elem_of_nil in He|done]. }
  destruct (reconfigure_spawn _ _ _ _ _) as [[pollers1 tr1]| |] eqn:Hspawn; try done.
  intros [= <- <- <-]. apply reconfigure_spawn_roster in Hspawn as (Hlen & Hkeep & Htr).
  cbn [set_eventthreadcount set_pollers eventthreadcount pollers].
  split; [by destruct p|]. split; [done|].
  split.
  { intros k t Hk Hcase. apply (Hkeep k t Hk). destruct Hcase as [?|[?|?]]; auto.
    right. right. lia. }
  split.
  - intros index He. destruct (Htr _ He) as [(j & [= ->] & Hj & Hz & Hc)|(j & ? & _)];
      [|done].
    replace (j + 1 - 1) with j by lia.
    split; [by exists t0|]. split; [lia|done].
  - intros [[= ?]|?]; [done|lia].
Qed.


(** X14.  [event_dispatch_epoll] needs its first worker: when the
    allocation or the creation of worker 1 fails, no other worker is
    tried, the roster and the count of active threads are as before, and
    the result is -1 or the error of [gf_thread_create]. *)
Theorem dispatch_first_worker_failure p malloc_ok thread_create t0 :
  pollers p !! 0%nat = Some t0 →
  INT_MIN <= activethreadcount p < INT_MAX →
  malloc_ok 0 = false ∨ (thread_create 0).1 ≠ 0 →
  event_dispatch_epoll p malloc_ok thread_create
  = Returns (if malloc_ok 0 then (thread_create 0).1 else -1,
             p,
             if malloc_ok 0
             then [Thread_create 1; Log (LG_MSG_START_EPOLL_THREAD_FAILED 0)]
             else []).
Proof.
  intros H0 Hact Hfail. unfold event_dispatch_epoll.
  set (pollercount := if (if _ >? _ then _ else _) <=? 0 then 1 else _).
  assert (Hpos : 0 < pollercount).
  { subst pollercount. destruct (Z.leb_spec (if eventthreadcount p >? EVENT_MAX_THREADS
                                              then EVENT_MAX_THREADS
                                              else eventthreadcount p) 0); lia. }
  destruct (Z.to_nat pollercount) as [|n] eqn:En; [lia|].
  assert (Hback : set_activethreadcount
                    (wrap_int (wrap_int (activethreadcount p + 1) - 1)) p = p).
  { rewrite (wrap_int_small (activethreadcount p + 1))
      by (unfold int_range, INT_MIN, INT_MAX in *; lia).
    replace (activethreadcount p + 1 - 1) with (activethreadcount p) by lia.
    rewrite wrap_int_small by (unfold int_range, INT_MIN, INT_MAX in *; lia).
    by destruct p. }
  cbn [dispatch_spawn]. destruct (malloc_ok 0) eqn:Hm.
  - destruct (thread_create 0) as [ret1 t_id] eqn:Hth. cbn [fst] in *.
    destruct (Z.eqb_spec ret1 0) as [->|Hne]; [by destruct Hfail|].
    cbn [Z.eqb]. cbn [set_pollers set_activethreadcount pollers activethreadcount].
    rewrite H0. repeat f_equal. rewrite <- Hback at 3. by destruct p.
  - cbn [Z.eqb]. cbn [set_pollers set_activethreadcount pollers activethreadcount].
    rewrite H0. repeat f_equal. rewrite <- Hback at 3. by destruct p.
Qed.


(** ** A new pool *)

(** X16.  [event_pool_new_epoll] returns a pool exactly when both
    allocations succeed and [epoll_create] gives a descriptor; a failure
    after the first allocation is logged.  The pool it returns has the
    regular shape, one bucket, every slot of it free, no worker and an
    empty notification list; the first registration on it gets handle 0,
    and the number of threads can be changed without a thread being
    started. *)
Theorem new_pool_is_empty count_ n pool_ok epfd table_ok :
  config_ok cfg →
  let new := event_pool_new_epoll count_ n pool_ok epfd table_ok in
  (is_Some new.1 ↔ pool_ok = true ∧ 0 <= epfd ∧ table_ok = true)
  ∧ (new.1 = None → pool_ok = true → new.2 = [Log LG_MSG_EPOLL_FD_CREATE_FAILED])
  ∧ ∀ p, new.1 = Some p →
      new.2 = []
      ∧ pool_fd p = epfd ∧ count p = count_ ∧ eventthreadcount p = n
      ∧ destroy p = 0 ∧ poller_death p = []
      ∧ pool_wf p = true
      ∧ (∀ l, slot_at p l
              = if decide (l.1 = 0%nat ∧ Z.of_nat l.2 < EVENT_EPOLL_SLOTS)
                then Some (set_fd (-1) zero_slot) else None)
      ∧ (∀ k, Z.of_nat k < EVENT_MAX_THREADS → pollers p !! k = Some 0)
      ∧ (∀ fd_ handler_ data_ poll_in poll_out notify ok ret,
           ret ≠ -1 →
           ∃ p' tr,
             event_register_epoll p fd_ handler_ data_ poll_in poll_out notify ok ret
             = Returns (0, p', tr))
      ∧ (∀ value calloc_ok thread_create,
           ∃ p',
             event_reconfigure_threads_epoll p value calloc_ok thread_create
             = Returns (0, p', [])).
Proof.
  intros [Ht Hs Hfit Hth] new. subst new. unfold event_pool_new_epoll.
  destruct pool_ok; cbn [negb fst snd].
  2: { split; [split; [by intros [? ?]|by intros [? _]]|]. done. }
  destruct (Z.ltb_spec epfd 0).
  { split; [split; [by intros [? ?]|intros (_ & ? & _); lia]|]. done. }
  destruct table_ok; cbn [negb fst snd].
  2: { split; [split; [by intros [? ?]|by intros (_ & _ & ?)]|]. done. }
  split; [split; [done|by eexists]|]. split; [done|].
  intros p [= <-].
  assert (Hereg : <[0%nat := Some free_table]>
                    (replicate (Z.to_nat EVENT_EPOLL_TABLES) (@None (list event_slot_epoll)))
                  = Some free_table :: replicate (Z.to_nat EVENT_EPOLL_TABLES - 1) None).
  { destruct (Z.to_nat EVENT_EPOLL_TABLES) as [|k] eqn:Ek; [lia|].
    cbn. by rewrite Nat.sub_0_r. }
  rewrite Hereg.
  set (p := Pool _ epfd count_ n 0 0 0 _ [] 0 0).
  assert (Hat : ∀ l, slot_at p l
                     = if decide (l.1 = 0%nat ∧ Z.of_nat l.2 < EVENT_EPOLL_SLOTS)
                       then Some (set_fd (-1) zero_slot) else None).
  { intros [i j]. unfold slot_at. cbn [ereg p fst snd].
    destruct i as [|i]; cbn [lookup list_lookup].
    - unfold free_table. change (mjoin (Some ?x)) with x.
      destruct (replicate _ _ !! j) as [x|] eqn:Hj.
      + apply lookup_replicate in Hj as [-> Hj].
        case_decide as Hd; [done|]. destruct Hd. split; [done|lia].
      + apply lookup_ge_None in Hj. rewrite length_replicate in Hj.
        case_decide as Hd; [|done]. lia.
    - case_decide as Hd; [by destruct Hd|].
      destruct (replicate _ None !! i) as [x|] eqn:Hi; [|done].
      by apply lookup_replicate in Hi as [-> _]. }
  assert (Hwf : pool_wf p = true).
  { unfold pool_wf. cbn [ereg p]. apply andb_true_iff. split.
    - apply Nat.eqb_eq. cbn [length]. rewrite length_replicate. lia.
    - cbn [forallb]. apply andb_true_iff. split.
      + apply Nat.eqb_eq. apply length_replicate.
      + apply forallb_forall. intros x Hx. apply list_elem_of_In in Hx.
        by apply elem_of_replicate in Hx as [-> _]. }
  split; [done|]. split; [done|]. split; [done|]. split; [done|]. split; [done|].
  split; [done|]. split; [exact Hwf|]. split; [exact Hat|].
  split; [intros k Hk; apply lookup_replicate; split; [done|lia]|].
  split.
  - intros fd_ handler_ data_ poll_in poll_out notify ok ret Hret.
    unfold event_register_epoll. cbn [destroy p]. change (0 =? 1) with false. cbv iota.
    unfold __event_slot_alloc.
    destruct (Z.to_nat EVENT_EPOLL_TABLES) as [|k] eqn:Ek; [lia|].
    cbn [__event_slot_alloc_from ereg p lookup list_lookup].
    assert (H00 : free_table !! 0%nat = Some (set_fd (-1) zero_slot)).
    { unfold free_table. apply lookup_replicate. split; [done|lia]. }
    rewrite H00. cbn [slots_used set_fd zero_slot].
    destruct (Z.eqb_spec 0 EVENT_EPOLL_SLOTS); [lia|].
    rewrite (list_find_free_table Hs).
    assert (Hat0 : slot_at p (0, 0)%nat = Some (set_fd (-1) zero_slot)).
    { rewrite Hat. case_decide as Hd; [done|]. destruct Hd. split; [done|simpl; lia]. }
    destruct (slot_claim_here p 0 0 (set_fd (-1) zero_slot) fd_ notify Hat0)
      as (s' & Hs' & Hfd' & _).
    unfold slot_claim in *. cbn [fst snd] in *.
    change (wrap_int (Z.of_nat 0 * EVENT_EPOLL_SLOTS + Z.of_nat 0)) with 0 in *.
    change (0 <? 0) with false. cbv iota. rewrite Hs', Hfd', Z.eqb_refl. cbn [negb].
    destruct (event_register_epoll_locked _ s' _ _ _ _ _ _) as [s1 tr1].
    destruct (Z.eqb_spec ret (-1)); [done|]. by eexists _, _.
  - intros value calloc_ok thread_create.
    unfold event_reconfigure_threads_epoll, event_pool_dispatched_unlocked.
    cbn [pollers p].
    destruct (Z.to_nat EVENT_MAX_THREADS) as [|k] eqn:Ek; [lia|].
    cbn [replicate lookup list_lookup fmap option_fmap option_map].
    change (negb (0 =? 0)) with false. cbn [andb]. by eexists.
Qed.

End Threads.

(** X13: [pool_dispatched] goes from two threads to three. *)
Lemma reconfigure_threads_fills_gaps_witness :
  ∃ p' tr,
    @event_reconfigure_threads_epoll small_config pool_dispatched 3
      (λ _, true) (λ _, (0, 9)) = Returns (0, p', tr)
    ∧ pollers p' !! 0%nat = Some 7
    ∧ ∀ index, Thread_create index ∈ tr → 2 < index <= 3.
Proof.
  assert (Hrun : ∃ p' tr,
            @event_reconfigure_threads_epoll small_config pool_dispatched 3
              (λ _, true) (λ _, (0, 9)) = Returns (0, p', tr)
            ∧ eventthreadcount p' = 3).
  { eexists _, _. vm_compute. split; reflexivity. }
  destruct Hrun as (p' & tr & Hrun & Hcount).
  destruct (reconfigure_threads_fills_gaps (cfg := small_config) pool_dispatched 3
              (λ _, true) (λ _, (0, 9)) 0 p' tr Hrun)
    as (_ & _ & Hkeep & Htr & _).
  exists p', tr. split; [exact Hrun|]. split.
  - apply (Hkeep 0%nat 7); [reflexivity|]. left. lia.
  - intros index He. destruct (Htr index He) as (_ & Hrange & _).
    rewrite Hcount in Hrange. exact Hrange.
Defined.

(** X14: on [fresh_pool], no memory for the first worker. *)
Lemma dispatch_first_worker_failure_witness :
  pollers fresh_pool !! 0%nat = Some 0
  ∧ INT_MIN <= activethreadcount fresh_pool < INT_MAX
  ∧ @event_dispatch_epoll small_config fresh_pool (λ _, false) (λ _, (0, 7))
    = Returns (-1, fresh_pool, []).
Proof.
  assert (H0 : pollers fresh_pool !! 0%nat = Some 0) by reflexivity.
  assert (Hact : INT_MIN <= activethreadcount fresh_pool < INT_MAX)
    by (vm_compute; split; congruence).
  split; [exact H0|]. split; [exact Hact|].
  exact (dispatch_first_worker_failure (cfg := small_config) fresh_pool
           (λ _, false) (λ _, (0, 7)) 0 H0 Hact (or_introl eq_refl)).
Defined.


(** X16: the pool of the small instance. *)
Lemma new_pool_is_empty_witness :
  config_ok small_config
  ∧ (@event_pool_new_epoll small_config 16 2 true 3 true).1 = Some fresh_pool
  ∧ pool_wf (cfg := small_config) fresh_pool = true
  ∧ ∃ p' tr,
      @event_register_epoll small_config fresh_pool 5 100 200 1 0 0 true 0
      = Returns (0, p', tr).
Proof.
  assert (Hnew : (@event_pool_new_epoll small_config 16 2 true 3 true).1 = Some fresh_pool)
    by reflexivity.
  split; [exact small_config_ok|]. split; [exact Hnew|].
  destruct (proj2 (proj2 (new_pool_is_empty (cfg := small_config) 16 2 true 3 true
                            small_config_ok)) fresh_pool Hnew)
    as (_ & _ & _ & _ & _ & _ & Hwf & _ & _ & Hreg & _).
  split; [exact Hwf|]. apply Hreg. lia.
Defined.

Section WorkerLoop.

Context {cfg : event_config}.

(** ** The worker *)

(** X17.  One round of a worker that is not asked to retire.  A timeout
    and an interrupted wait leave the pool alone.  Any other failure of
    [epoll_wait] is not told apart from a delivery: the event left in
    the buffer by an earlier round is dispatched once more, and a slot
    that is idle again gets a second call of its handler for it; the
    round logs no failure. *)
Theorem worker_round_without_event p myindex event w l s :
  myindex <= eventthreadcount p →
  slot_of_idx (ev_idx event) = Some l →
  slot_at p l = Some s →
  fd s ≠ -1 → ev_gen event = gen s → in_handler s = 0 → handled_error s = 0 →
  handler s ≠ 0 → 1 <= ref s <= INT64_MAX →
  (wait_ret w = 0 ∨ (wait_ret w = -1 ∧ wait_errno w = EINTR) →
   event_dispatch_epoll_worker_round p myindex event w = Worker_continues p event [] false)
  ∧ (wait_ret w < 0 → ¬ (wait_ret w = -1 ∧ wait_errno w = EINTR) →
     ∃ p1 tr,
       event_dispatch_epoll_worker_round p myindex event w
         = Worker_continues p1 event tr false
       ∧ handler_calls tr =
           [HandlerCall (handler s) (fd s) (ev_idx event) (gen s) (data s)
              (Z.land (ev_events event) (Z.lor EPOLLIN EPOLLPRI))
              (Z.land (ev_events event) EPOLLOUT)
              (Z.land (ev_events event) (Z.lor EPOLLERR EPOLLHUP)) 0]).
Proof.
  intros Hidx Hl Hs Hfd Hgen Hin Herr Hh Hr.
  unfold event_dispatch_epoll_worker_round.
  destruct (Z.ltb_spec (eventthreadcount p) myindex); [lia|].
  split.
  - intros [->|[-> ->]]; [done|]. by change (-1 =? 0) with false.
  - intros Hneg Hnot.
    destruct (Z.eqb_spec (wait_ret w) 0); [lia|].
    destruct (Z.eqb_spec (wait_ret w) (-1)) as [E1|_];
      [destruct (Z.eqb_spec (wait_errno w) EINTR) as [E2|_]; [tauto|]|]; cbn [andb];
      (destruct (Z.ltb_spec 0 (wait_ret w)); [lia|]).
    all: assert (Hrange : int64_range (ref s))
           by (unfold int64_range, INT64_MIN in *; lia).
    all: destruct (dispatch_found p event l s Hl Hs Hrange ltac:(lia))
           as (p1 & tr & -> & Hcalls & _).
    all: exists p1, tr; split; [done|]; rewrite Hcalls.
    all: unfold event_dispatch_epoll_handler_locked, event_dispatch_epoll_handler_call.
    all: destruct (Z.eqb_spec (fd s) (-1)); [done|].
    all: rewrite Hgen, Z.eqb_refl, Hin, Herr; cbn [negb].
    all: change (0 >? 0) with false; change (0 =? 0) with true; cbn [negb].
    all: by destruct (Z.eqb_spec (handler s) 0).
Qed.

(** [__event_slot_unref] is [event_slot_unref] without the pool mutex. *)
Lemma event_slot_unref_locked p slot idx_ :
  __event_slot_unref p slot idx_ = event_slot_unref p slot idx_.
Proof.
  unfold __event_slot_unref, event_slot_unref, event_slot_dealloc.
  destruct (slot_at p slot) as [s|]; [|done].
  destruct (_ =? 0); [|done]. cbv zeta.
  destruct (_ <? 0); [done|].
  destruct (_ !! _) as [[table|]|]; try done.
  destruct (_ <? 0); [done|]. by destruct (table !! _).
Qed.

(** The pool after the references of the first critical section are
    taken. *)
Lemma foldl_event_slot_ref ls : ∀ p,
  NoDup ls →
  (∃ e, foldl (λ q slot, event_slot_ref slot q) p ls = set_ereg e p)
  ∧ ∀ l, slot_at (foldl (λ q slot, event_slot_ref slot q) p ls) l
         = if decide (l ∈ ls)
           then (λ s, set_ref (wrap_int64 (ref s + 1)) s) <$> slot_at p l
           else slot_at p l.
Proof.
  induction ls as [|a ls IH]; intros p Hnd.
  { split; [exists (ereg p); by destruct p|].
    intros l. case_decide as Hd; [by apply elem_of_nil in Hd|done]. }
  apply NoDup_cons in Hnd as [Ha Hnd]. cbn [foldl].
  destruct (IH (event_slot_ref a p) Hnd) as [[e He] Hat]. split.
  - exists e. rewrite He. by destruct p.
  - intros l. rewrite Hat. unfold event_slot_ref.
    destruct (decide (l = a)) as [->|Hne].
    + rewrite slot_at_upd_eq. case_decide; [done|].
      case_decide as Hd; [done|]. destruct Hd. apply list_elem_of_here.
    + rewrite slot_at_upd_ne by done.
      case_decide as H1; case_decide as H2; try done.
      * destruct H2. by apply list_elem_of_further.
      * apply elem_of_cons in H2 as [?|?]; done.
Qed.

(** The first critical section of a retirement. *)
Lemma worker_retire_begin_run p myindex :
  1 <= myindex <= Z.of_nat (length (pollers p)) →
  NoDup (poller_death p) →
  ∃ p1,
    worker_retire_begin p myindex
      = Returns (p1, poller_death p, wrap_int (poller_gen p + 1))
    ∧ pollers p1 = <[Z.to_nat (myindex - 1) := 0]> (pollers p)
    ∧ activethreadcount p1 = wrap_int (activethreadcount p - 1)
    ∧ poller_gen p1 = wrap_int (poller_gen p + 1)
    ∧ poller_death p1 = []
    ∧ eventthreadcount p1 = eventthreadcount p
    ∧ pool_fd p1 = pool_fd p
    ∧ ∀ l, slot_at p1 l
           = if decide (l ∈ poller_death p)
             then (λ s, set_ref (wrap_int64 (ref s + 1)) s) <$> slot_at p l
             else slot_at p l.
Proof.
  intros Hidx Hnd. unfold worker_retire_begin.
  destruct (Z.ltb_spec (myindex - 1) 0); [lia|].
  destruct (Z.leb_spec (Z.of_nat (length (pollers p))) (myindex - 1)); [lia|].
  cbn [orb]. cbv zeta.
  set (p3 := set_poller_gen _ _).
  change (poller_death p3) with (poller_death p).
  destruct (foldl_event_slot_ref (poller_death p) p3 Hnd) as [[e He] Hat].
  rewrite He in Hat |- *.
  eexists. split; [reflexivity|]. repeat (split; [reflexivity|]).
  intros l. exact (Hat l).
Qed.

(** The calls of the retiring worker, when every listed slot has a
    handler. *)
Lemma worker_retire_notify_calls q gen_ ls :
  (∀ l, l ∈ ls → ∃ s, slot_at q l = Some s ∧ handler s ≠ 0) →
  ∃ tr,
    worker_retire_notify q ls gen_ = Returns tr
    ∧ Forall2 (λ l e, ∃ s, slot_at q l = Some s
                 ∧ e = Handler (HandlerCall (handler s) (fd s) 0 gen_ (data s)
                                            0 0 0 1)) ls tr.
Proof.
  induction ls as [|a ls IH]; intros Hall.
  { exists []. split; [done|constructor]. }
  destruct (Hall a (list_elem_of_here _ _)) as (s & Hs & Hh).
  destruct IH as (tr & Hrun & Hcalls).
  { intros l Hl. apply Hall. by apply list_elem_of_further. }
  cbn [worker_retire_notify]. rewrite Hs, Hrun.
  destruct (Z.eqb_spec (handler s) 0); [done|].
  eexists. split; [reflexivity|]. constructor; [by exists s|done].
Qed.

(** The loop of the last critical section, when no reference dropped is
    the last one: nothing is freed and nothing leaves the local list. *)
Lemma worker_retire_unref_alive visit : ∀ q notify,
  NoDup visit →
  (∀ l, l ∈ visit → ∃ s, slot_at q l = Some s ∧ slot_of_idx (idx s) = Some l
                         ∧ wrap_int64 (ref s - 1) ≠ 0) →
  ∃ q',
    worker_retire_unref q visit notify = Some (Returns (q', notify, []))
    ∧ (∃ e, q' = set_ereg e q)
    ∧ ∀ l, slot_at q' l
           = if decide (l ∈ visit)
             then (λ s, set_ref (wrap_int64 (ref s - 1)) s) <$> slot_at q l
             else slot_at q l.
Proof.
  induction visit as [|a visit IH]; intros q notify Hnd Hall.
  { exists q. split; [done|]. split; [exists (ereg q); by destruct q|].
    intros l. case_decide as Hd; [by apply elem_of_nil in Hd|done]. }
  apply NoDup_cons in Hnd as [Ha Hnd].
  destruct (Hall a (list_elem_of_here _ _)) as (s & Hs & Hidx & Hlive).
  cbn [worker_retire_unref]. rewrite Hs.
  destruct (decide (slot_of_idx (idx s) = Some a)) as [_|?]; [|done].
  unfold __event_slot_unref. rewrite Hs.
  destruct (Z.eqb_spec (wrap_int64 (ref s - 1)) 0) as [?|_]; [done|].
  set (q1 := slot_upd (set_ref (wrap_int64 (ref s - 1))) a q).
  destruct (IH q1 notify Hnd) as (q' & -> & [e He] & Hat).
  { intros l Hl. destruct (Hall l (list_elem_of_further _ _ _ Hl)) as (s0 & Hs0 & Hrest).
    exists s0. split; [|done]. subst q1. rewrite slot_at_upd_ne; [done|].
    intros Heq. apply Ha. by rewrite Heq. }
  exists q'. split; [done|]. split; [exists e; rewrite He; by destruct q|].
  intros l. rewrite Hat. subst q1.
  destruct (decide (l = a)) as [->|Hne].
  - rewrite slot_at_upd_eq, Hs. case_decide; [done|].
    case_decide as Hd; [done|]. destruct Hd. apply list_elem_of_here.
  - rewrite slot_at_upd_ne by done.
    case_decide as H1; case_decide as H2; try done.
    + destruct H2. by apply list_elem_of_further.
    + apply elem_of_cons in H2 as [?|?]; done.
Qed.

(** The last critical section, when no reference dropped is the last
    one. *)
Lemma worker_retire_end_alive q notify :
  NoDup notify →
  poller_death q = [] →
  (∀ l, l ∈ notify → ∃ s, slot_at q l = Some s ∧ slot_of_idx (idx s) = Some l
                          ∧ wrap_int64 (ref s - 1) ≠ 0) →
  ∃ q',
    worker_retire_end q notify = Some (Returns (q', []))
    ∧ pollers q' = pollers q
    ∧ activethreadcount q' = activethreadcount q
    ∧ poller_gen q' = poller_gen q
    ∧ poller_death q' = notify
    ∧ poller_death_sliced q' = 0
    ∧ eventthreadcount q' = eventthreadcount q
    ∧ pool_fd q' = pool_fd q
    ∧ ∀ l, slot_at q' l
           = if decide (l ∈ notify)
             then (λ s, set_ref (wrap_int64 (ref s - 1)) s) <$> slot_at q l
             else slot_at q l.
Proof.
  intros Hnd Hdeath Hall. unfold worker_retire_end.
  destruct (worker_retire_unref_alive notify q notify Hnd Hall)
    as (q1 & -> & [e ->] & Hat).
  eexists. split; [reflexivity|].
  cbn [set_poller_death_sliced set_poller_death set_ereg pollers activethreadcount
       poller_gen poller_death poller_death_sliced eventthreadcount pool_fd].
  rewrite Hdeath, app_nil_r. repeat (split; [reflexivity|]).
  intros l. rewrite <- Hat. reflexivity.
Qed.

(** X18.  A worker whose index is above the thread count retires in one
    round, when no other retirement is in progress: it clears its entry
    of the roster, counts itself out, takes a new [poller_gen], and
    calls the handler of every slot of [poller_death] once, in the order
    of the list, with handle 0, the new [poller_gen] as generation, no
    event and the thread-died flag.  The references it takes for this
    are dropped again: when the handlers leave the slots alone, every
    slot and the list are afterwards as they were, and no fd is closed. *)
Theorem worker_retirement p myindex event w :
  eventthreadcount p < myindex →
  poller_death_sliced p = 0 →
  1 <= myindex <= Z.of_nat (length (pollers p)) →
  NoDup (poller_death p) →
  (∀ l, l ∈ poller_death p →
     ∃ s, slot_at p l = Some s ∧ handler s ≠ 0 ∧ slot_of_idx (idx s) = Some l
          ∧ 1 <= ref s < INT64_MAX) →
  ∃ p' tr,
    event_dispatch_epoll_worker_round p myindex event w = Worker_exits p' tr
    ∧ Forall2 (λ l e, ∃ s, slot_at p l = Some s
                 ∧ e = Handler (HandlerCall (handler s) (fd s) 0
                                            (wrap_int (poller_gen p + 1)) (data s)
                                            0 0 0 1))
              (poller_death p) tr
    ∧ pollers p' = <[Z.to_nat (myindex - 1) := 0]> (pollers p)
    ∧ activethreadcount p' = wrap_int (activethreadcount p - 1)
    ∧ poller_gen p' = wrap_int (poller_gen p + 1)
    ∧ poller_death p' = poller_death p
    ∧ poller_death_sliced p' = 0
    ∧ eventthreadcount p' = eventthreadcount p
    ∧ pool_fd p' = pool_fd p
    ∧ (∀ l, slot_at p' l = slot_at p l).
Proof.
  intros Hdie Hsliced Hidx Hnd Hall.
  unfold event_dispatch_epoll_worker_round.
  destruct (Z.ltb_spec (eventthreadcount p) myindex); [|lia].
  rewrite Hsliced. change (negb (0 =? 0)) with false. cbv iota.
  destruct (worker_retire_begin_run p myindex Hidx Hnd)
    as (p1 & -> & Hp1 & Ha1 & Hg1 & Hd1 & He1 & Hf1 & Hat1).
  destruct (worker_retire_notify_calls p1 (wrap_int (poller_gen p + 1)) (poller_death p))
    as (calls & -> & Hlist).
  { intros l Hl. destruct (Hall l Hl) as (s & Hs & Hh & _).
    rewrite Hat1, Hs. case_decide; [|done]. eexists. split; [reflexivity|done]. }
  destruct (worker_retire_end_alive p1 (poller_death p) Hnd Hd1)
    as (p2 & -> & Hp2 & Ha2 & Hg2 & Hd2 & Hs2 & He2 & Hf2 & Hat2).
  { intros l Hl. destruct (Hall l Hl) as (s & Hs & _ & Hi & Hr).
    rewrite Hat1, Hs. case_decide; [|done]. eexists. split; [reflexivity|].
    cbn [idx ref set_ref]. split; [done|].
    rewrite wrap_int64_inc_dec by (unfold int64_range, INT64_MIN, INT64_MAX in *; lia).
    lia. }
  exists p2, (calls ++ []). split; [reflexivity|]. rewrite app_nil_r.
  split.
  { eapply Forall2_impl; [exact Hlist|]. intros l ev (s & Hs & ->).
    rewrite Hat1 in Hs. destruct (decide (l ∈ poller_death p)) as [Hin|Hout].
    - destruct (slot_at p l) as [s0|] eqn:Hs0; [|done]. injection Hs as <-.
      by exists s0.
    - by exists s. }
  split; [congruence|]. split; [congruence|]. split; [congruence|].
  split; [done|]. split; [done|]. split; [congruence|]. split; [congruence|].
  intros l. rewrite Hat2, Hat1.
  destruct (decide (l ∈ poller_death p)) as [Hin|Hout]; [|done].
  destruct (Hall l Hin) as (s & Hs & _ & _ & Hr). rewrite Hs.
  cbn [fmap option_fmap option_map ref set_ref]. rewrite set_ref_set_ref.
  rewrite wrap_int64_inc_dec by (unfold int64_range, INT64_MIN, INT64_MAX in *; lia).
  by rewrite set_ref_same.
Qed.

End WorkerLoop.

(** X17: worker 1 on [pool_one], with the read event of handle 0 in its
    buffer: a timeout, and a failure of [epoll_wait] with EBADF. *)
Lemma worker_round_without_event_witness :
  @event_dispatch_epoll_worker_round small_config pool_one 1
    (EpollEvent EPOLLIN 0 1) (EpollWait 0 0 (EpollEvent 0 0 0))
  = Worker_continues pool_one (EpollEvent EPOLLIN 0 1) [] false
  ∧ ∃ p1 tr,
      @event_dispatch_epoll_worker_round small_config pool_one 1
        (EpollEvent EPOLLIN 0 1) (EpollWait (-1) 9 (EpollEvent 0 0 0))
      = Worker_continues p1 (EpollEvent EPOLLIN 0 1) tr false
      ∧ handler_calls tr = [HandlerCall 100 5 0 1 200 1 0 0 0].
Proof.
  assert (Hl : @slot_of_idx small_config 0 = Some (0, 0)%nat) by reflexivity.
  assert (Hs : slot_at pool_one (0, 0)%nat = Some slot_one) by reflexivity.
  split.
  - apply (worker_round_without_event (cfg := small_config) pool_one 1
             (EpollEvent EPOLLIN 0 1) (EpollWait 0 0 (EpollEvent 0 0 0))
             (0, 0)%nat slot_one); try done.
    by left.
  - destruct (worker_round_without_event (cfg := small_config) pool_one 1
                (EpollEvent EPOLLIN 0 1) (EpollWait (-1) 9 (EpollEvent 0 0 0))
                (0, 0)%nat slot_one) as [_ Hfail]; try done.
    apply Hfail; [done|]. intros [_ Herrno]. discriminate Herrno.
Defined.

(** X18: worker 2 of [pool_retiring] retires and tells the one
    registration that asked for it. *)
Lemma worker_retirement_witness :
  ∃ p' tr,
    @event_dispatch_epoll_worker_round small_config pool_retiring 2
      (EpollEvent 0 0 0) (EpollWait 0 0 (EpollEvent 0 0 0)) = Worker_exits p' tr
    ∧ length tr = 1%nat
    ∧ pollers p' = [7; 0; 0; 0]
    ∧ poller_death p' = [(0, 0)%nat]
    ∧ slot_at p' (0, 0)%nat = slot_at pool_retiring (0, 0)%nat.
Proof.
  assert (Hpd : poller_death pool_retiring = [(0, 0)%nat]) by reflexivity.
  destruct (worker_retirement (cfg := small_config) pool_retiring 2
              (EpollEvent 0 0 0) (EpollWait 0 0 (EpollEvent 0 0 0)))
    as (p' & tr & Hrun & Hcalls & Hp & _ & _ & Hd & _ & _ & _ & Hat).
  - reflexivity.
  - reflexivity.
  - vm_compute. split; congruence.
  - rewrite Hpd. apply NoDup_singleton.
  - intros l Hl. rewrite Hpd in Hl. apply list_elem_of_singleton in Hl as ->.
    exists (Slot 1 5 1073741851 1 0 1 0 0 0 200 100 true).
    split; [reflexivity|]. split; [done|]. split; [reflexivity|].
    vm_compute. split; congruence.
  - exists p', tr. split; [exact Hrun|].
    split; [by rewrite <- (Forall2_length _ _ _ Hcalls), Hpd|].
    split; [by rewrite Hp|]. split; [by rewrite Hd|]. apply Hat.
Defined.
